(** * CityFlow metrics and aggregation engine: a shallow embedding

    This development embeds the parts of [src/processors/metrics.py] and
    [src/processors/aggregation.py] that compute metrics, correlations and
    the merged KPI table, and proves or refutes the properties stated for
    them.

    Two views of a pandas DataFrame are used:
    - a generic [frame] (column names plus rows of dynamically typed
      scalars), for the functions whose behaviour depends on which columns
      are present (guards, [build_kpis], the public-works metrics);
    - a typed record of counter readings, for the numeric metrics over the
      bike-counter relation (dmja, corridors, z-score anomalies,
      coordinate resolution, failing counters, works/bike correlation).

    Inputs arrive pre-typed (the ingestion pipelines cast timestamps and
    numbers), so [pd.to_datetime(..., errors="coerce")] maps a timestamp to
    itself and anything else to NaT.  Timestamps are seconds since the
    epoch, calendar dates are days since the epoch. *)

From Stdlib Require Import String Ascii List ZArith QArith Qround Qminmax Bool Lia Lqa.
From Stdlib Require Import Sorting.Permutation Sorting.Sorted.
From Stdlib Require Import Reals Qreals.
Import ListNotations.

Open Scope string_scope.
Open Scope list_scope.
Open Scope Z_scope.

(* ------------------------------------------------------------------ *)
(** ** Scalars, rows and frames *)

(** A cell of a DataFrame. [VNull] stands for None, NaN and NaT. *)
Inductive value : Type :=
| VNull
| VBool (b : bool)
| VInt (z : Z)
| VNum (q : Q)
| VStr (s : string)
| VTime (t : Z)
| VDate (d : Z).

Definition row := list (string * value).

(** A DataFrame: its column labels (in order) and its rows. *)
Record frame := mkFrame { fcols : list string; frows : list row }.

(** [pd.DataFrame()] *)
Definition empty_frame : frame := mkFrame [] [].

(** [DataFrame.empty]: true when either axis has length zero. *)
Definition frame_empty (df : frame) : bool :=
  match fcols df, frows df with
  | [], _ => true
  | _, [] => true
  | _, _ => false
  end.

(** [c in df.columns] *)
Definition has_col (c : string) (df : frame) : bool :=
  existsb (String.eqb c) (fcols df).

(** [row[c]]; a row built by pandas has every column, absent cells are
    null. *)
Fixpoint get (r : row) (c : string) : value :=
  match r with
  | [] => VNull
  | (c', v) :: t => if String.eqb c c' then v else get t c
  end.

(** [row[c] = v] (replace, or add at the end). *)
Fixpoint set (r : row) (c : string) (v : value) : row :=
  match r with
  | [] => [(c, v)]
  | (c', v') :: t => if String.eqb c c' then (c', v) :: t else (c', v') :: set t c v
  end.

Definition is_null (v : value) : bool :=
  match v with VNull => true | _ => false end.

(** Numeric view of a cell, as pandas' reductions use it (NaN skipped). *)
Definition num_of (v : value) : option Q :=
  match v with
  | VInt z => Some (inject_Z z)
  | VNum q => Some q
  | VBool b => Some (if b then 1 else 0)%Q
  | _ => None
  end.

(** [pd.to_datetime(v, errors="coerce")] on a pre-typed cell. *)
Definition to_ts (v : value) : option Z :=
  match v with
  | VTime t => Some t
  | VDate d => Some (d * 86400)
  | _ => None
  end.

(** [.dt.date] *)
Definition date_of (v : value) : value :=
  match to_ts v with
  | Some t => VDate (t / 86400)
  | None => VNull
  end.

(** Equality of cells as [==] on the keys of a groupby or a merge. *)
Definition value_eqb (a b : value) : bool :=
  match a, b with
  | VNull, VNull => false
  | VBool x, VBool y => Bool.eqb x y
  | VInt x, VInt y => Z.eqb x y
  | VNum x, VNum y => Qeq_bool x y
  | VInt x, VNum y | VNum y, VInt x => Qeq_bool (inject_Z x) y
  | VStr x, VStr y => String.eqb x y
  | VTime x, VTime y => Z.eqb x y
  | VDate x, VDate y => Z.eqb x y
  | _, _ => false
  end.

Definition Qltb (x y : Q) : bool := negb (Qle_bool y x).

Definition rank (v : value) : Z :=
  match v with
  | VNull => 0 | VBool _ => 1 | VInt _ | VNum _ => 2 | VStr _ => 3
  | VTime _ => 4 | VDate _ => 5
  end.

(** The order in which a groupby lists its keys. *)
Definition value_ltb (a b : value) : bool :=
  match a, b with
  | VBool x, VBool y => andb (negb x) y
  | VInt x, VInt y => Z.ltb x y
  | VNum x, VNum y => Qltb x y
  | VInt x, VNum y => Qltb (inject_Z x) y
  | VNum x, VInt y => Qltb x (inject_Z y)
  | VStr x, VStr y => String.ltb x y
  | VTime x, VTime y => Z.ltb x y
  | VDate x, VDate y => Z.ltb x y
  | _, _ => Z.ltb (rank a) (rank b)
  end.

(** Distinct non-null keys in ascending order, as [groupby(sort=True)]
    lists them ([dropna=True] drops the null key). *)
Fixpoint insert_key (k : value) (ks : list value) : list value :=
  match ks with
  | [] => [k]
  | k' :: t =>
      if value_eqb k k' then ks
      else if value_ltb k k' then k :: ks else k' :: insert_key k t
  end.

Definition group_keys (ks : list value) : list value :=
  fold_left (fun acc k => if is_null k then acc else insert_key k acc) ks [].

Definition rows_with (c : string) (k : value) (rs : list row) : list row :=
  filter (fun r => value_eqb (get r c) k) rs.

(** Column reductions, skipping NaN. *)
Definition nums (c : string) (rs : list row) : list Q :=
  flat_map (fun r => match num_of (get r c) with Some q => [q] | None => [] end) rs.

Definition sumQ (l : list Q) : Q := fold_right Qplus 0%Q l.

(** [Series.sum()]: 0 on no value. *)
Definition col_sum (c : string) (rs : list row) : value := VNum (sumQ (nums c rs)).

(** [Series.mean()]: NaN on no value. *)
Definition col_mean (c : string) (rs : list row) : value :=
  match nums c rs with
  | [] => VNull
  | l => VNum (sumQ l / inject_Z (Z.of_nat (length l)))
  end.

(** [np.round(x, d)]: round half to even at [d] decimals. *)
Definition round_half_even (x : Q) : Z :=
  let f := Qfloor x in
  let r := (x - inject_Z f)%Q in
  match Qcompare r (1 # 2) with
  | Lt => f
  | Gt => f + 1
  | Eq => if Z.even f then f else f + 1
  end.

Definition round_dec (x : Q) (d : Z) : Q :=
  (inject_Z (round_half_even (x * inject_Z (10 ^ d))) / inject_Z (10 ^ d))%Q.

(** Python exceptions that the embedded code can raise. *)
Inductive exn : Type :=
| KeyError (col : string)
| ValueError_missing (cols : list string).

Inductive result (A : Type) : Type :=
| Ok (a : A)
| Raise (e : exn).
Arguments Ok {A} a.
Arguments Raise {A} e.

(** Stable descending sort on a numeric key and [nlargest(n)] (ties keep
    their first occurrence, as pandas' [keep="first"]). *)
Fixpoint ins_desc {A : Type} (f : A -> Q) (x : A) (l : list A) : list A :=
  match l with
  | [] => [x]
  | y :: t => if Qle_bool (f x) (f y) then y :: ins_desc f x t else x :: l
  end.

Definition sort_desc {A : Type} (f : A -> Q) (l : list A) : list A :=
  fold_left (fun acc x => ins_desc f x acc) l [].

Definition nlargest {A : Type} (n : Z) (f : A -> Q) (l : list A) : list A :=
  firstn (Z.to_nat n) (sort_desc f l).

(* ------------------------------------------------------------------ *)
(** ** [aggregation.aggregate_weather_daily] *)

Definition weather_required : list string :=
  ["datetime"; "tempmax"; "tempmin"; "precip"].

Definition aggregate_weather_daily (df : frame) : result frame :=
  let missing := filter (fun c => negb (has_col c df)) weather_required in
  match missing with
  | _ :: _ => Raise (ValueError_missing missing)
  | [] =>
      (* df.assign(jour=pd.to_datetime(df["datetime"])).dropna(subset=["jour"]) *)
      let rows :=
        flat_map (fun r => match to_ts (get r "datetime") with
                           | Some t => [set r "jour" (VTime t)]
                           | None => []
                           end) (frows df) in
      (* the named aggregation also reads "windspeed" *)
      if negb (has_col "windspeed" df) then Raise (KeyError "windspeed") else
      let keys := group_keys (map (fun r => get r "jour") rows) in
      Ok (mkFrame ["jour"; "temperature_max"; "temperature_min";
                   "precipitation_mm"; "vent_moyen"]
            (map (fun k =>
                    let g := rows_with "jour" k rows in
                    [("jour", k);
                     ("temperature_max", col_mean "tempmax" g);
                     ("temperature_min", col_mean "tempmin" g);
                     ("precipitation_mm", col_sum "precip" g);
                     ("vent_moyen", col_mean "windspeed" g)]) keys))
  end.

(* ------------------------------------------------------------------ *)
(** ** [metrics.calculate_debit_journalier] *)

(** [Series.max()] of a date column, NaT skipped. *)
Definition max_date (rs : list row) : option Z :=
  fold_left (fun acc r =>
               match get r "date", acc with
               | VDate d, None => Some d
               | VDate d, Some m => Some (Z.max d m)
               | _, _ => acc
               end) rs None.

(** [df[["compteur_id", "latitude", "longitude"]].drop_duplicates("compteur_id")]
    then a left merge on [compteur_id]: each result row takes the
    coordinates of the first input row of its counter. *)
Definition first_coords (src : list row) (r : row) : row :=
  match find (fun s => value_eqb (get s "compteur_id") (get r "compteur_id")) src with
  | Some s => r ++ [("latitude", get s "latitude"); ("longitude", get s "longitude")]
  | None => r ++ [("latitude", VNull); ("longitude", VNull)]
  end.

Definition calculate_debit_journalier (df : frame) (top_n_compteurs last_n_days : Z)
  : result frame :=
  if frame_empty df || negb (has_col "compteur_id" df) || negb (has_col "date_heure" df)
  then Ok empty_frame else
  (* frame["date"] = pd.to_datetime(frame["date_heure"]).dt.date *)
  let rows := map (fun r => set r "date" (date_of (get r "date_heure"))) (frows df) in
  (* frame.groupby("compteur_id")["comptage_horaire"] *)
  if negb (has_col "comptage_horaire" df) then Raise (KeyError "comptage_horaire") else
  let ids := group_keys (map (fun r => get r "compteur_id") rows) in
  let totals :=
    map (fun k => (k, sumQ (nums "comptage_horaire" (rows_with "compteur_id" k rows)))) ids in
  let top := map fst (nlargest top_n_compteurs snd totals) in
  let rows := filter (fun r => existsb (value_eqb (get r "compteur_id")) top) rows in
  (* keep the last [last_n_days] days *)
  let rows :=
    match rows with
    | [] => []
    | _ =>
        match max_date rows with
        | None => []
        | Some m =>
            filter (fun r => match get r "date" with
                             | VDate d => Z.leb (m - last_n_days) d
                             | _ => false
                             end) rows
        end
    end in
  let res :=
    flat_map (fun k =>
                let rk := rows_with "compteur_id" k rows in
                map (fun d =>
                       [("compteur_id", k); ("date", d);
                        ("debit_journalier",
                         VNum (sumQ (nums "comptage_horaire" (rows_with "date" d rk))))])
                    (group_keys (map (fun r => get r "date") rk)))
             (group_keys (map (fun r => get r "compteur_id") rows)) in
  let cols := ["compteur_id"; "date"; "debit_journalier"] in
  if has_col "latitude" df && has_col "longitude" df
  then Ok (mkFrame (cols ++ ["latitude"; "longitude"]) (map (first_coords (frows df)) res))
  else Ok (mkFrame cols res).

(* ------------------------------------------------------------------ *)
(** ** Public-works metrics *)

(** The wall clock, as [pd.Timestamp.now()] (naive, local time) and
    [pd.Timestamp.now(tz="UTC")] read it during a run. *)
Record clock := mkClock { now_local : Z; now_utc : Z }.

Definition nb_actifs_zero : frame :=
  mkFrame ["nb_chantiers_actifs"] [[("nb_chantiers_actifs", VInt 0)]].

(** [calculate_chantiers_actifs(df, date_reference)]; [date_reference] is
    the already parsed [pd.to_datetime(date_reference)], [None] when the
    argument is omitted, in which case the clock is read. *)
Definition calculate_chantiers_actifs (clk : clock) (df : frame)
  (date_reference : option Z) : frame :=
  if frame_empty df then nb_actifs_zero else
  let actifs :=
    if has_col "date_debut" df && has_col "date_fin" df then
      let date_ref := match date_reference with
                      | None => now_local clk
                      | Some d => d
                      end in
      filter (fun r => match to_ts (get r "date_debut"), to_ts (get r "date_fin") with
                       | Some a, Some b => Z.leb a date_ref && Z.leb date_ref b
                       | _, _ => false
                       end) (frows df)
    else frows df in
  match actifs with
  | [] => nb_actifs_zero
  | _ =>
      if has_col "arrondissement" df then
        mkFrame ["arrondissement"; "nb_chantiers_actifs"]
          (map (fun k => [("arrondissement", k);
                          ("nb_chantiers_actifs",
                           VInt (Z.of_nat (length (rows_with "arrondissement" k actifs))))])
               (group_keys (map (fun r => get r "arrondissement") actifs)))
      else
        mkFrame ["nb_chantiers_actifs"]
          [[("nb_chantiers_actifs", VInt (Z.of_nat (length actifs)))]]
  end.

Definition criticite_zero : frame :=
  mkFrame ["nb_chantiers"; "score_criticite"]
    [[("nb_chantiers", VInt 0); ("score_criticite", VNum 0)]].

(** [x == True] on a cell. *)
Definition eq_true (v : value) : bool :=
  match v with
  | VBool b => b
  | VInt z => Z.eqb z 1
  | VNum q => Qeq_bool q 1
  | _ => false
  end.

Definition calculate_score_criticite_chantiers (df : frame) : frame :=
  if frame_empty df then criticite_zero else
  let sur_chaussee :=
    if has_col "emprise_chaussee" df
    then filter (fun r => eq_true (get r "emprise_chaussee")) (frows df)
    else frows df in
  match sur_chaussee with
  | [] => criticite_zero
  | _ =>
      if has_col "arrondissement" df && has_col "surface" df then
        mkFrame ["arrondissement"; "nb_chantiers_chaussee"; "surface_moyenne"; "score_criticite"]
          (map (fun k =>
                  let g := rows_with "arrondissement" k sur_chaussee in
                  let n := Z.of_nat (length g) in
                  let m := col_mean "surface" g in
                  [("arrondissement", k); ("nb_chantiers_chaussee", VInt n);
                   ("surface_moyenne", m);
                   ("score_criticite",
                    match m with
                    | VNum q => VNum (round_dec (inject_Z n * q) 2)
                    | _ => VNull
                    end)])
               (group_keys (map (fun r => get r "arrondissement") sur_chaussee)))
      else
        let n := Z.of_nat (length sur_chaussee) in
        mkFrame ["nb_chantiers"; "score_criticite"]
          [[("nb_chantiers", VInt n); ("score_criticite", VNum (inject_Z n))]]
  end.

(* ------------------------------------------------------------------ *)
(** ** [aggregation.build_kpis] *)

(** [df.rename(columns={"date": "jour"})] *)
Definition rename_col (old new : string) (df : frame) : frame :=
  let rn c := if String.eqb c old then new else c in
  mkFrame (map rn (fcols df)) (map (map (fun '(c, v) => (rn c, v))) (frows df)).

(** [pd.api.types.is_datetime64_any_dtype(df["jour"])] *)
Definition is_datetime_col (c : string) (df : frame) : bool :=
  forallb (fun r => match get r c with VTime _ | VNull => true | _ => false end) (frows df).

(** The body of the normalisation loop: [None] when the aggregate has
    neither [jour] nor [date] (it is skipped). *)
Definition normalize (df : frame) : option frame :=
  let df' :=
    if has_col "jour" df then Some df
    else if has_col "date" df then Some (rename_col "date" "jour" df)
    else None in
  match df' with
  | None => None
  | Some d =>
      if is_datetime_col "jour" d
      then Some (mkFrame (fcols d) (map (fun r => set r "jour" (date_of (get r "jour"))) (frows d)))
      else Some d
  end.

(** [d[k] = v] on a Python dict kept in insertion order. *)
Fixpoint dict_set {A : Type} (k : string) (v : A) (d : list (string * A)) : list (string * A) :=
  match d with
  | [] => [(k, v)]
  | (k', v') :: t => if String.eqb k k' then (k', v) :: t else (k', v') :: dict_set k v t
  end.

Definition normalized_aggregates (aggregates : list (string * frame)) : list (string * frame) :=
  fold_left (fun acc '(key, df) =>
               if frame_empty df || String.eqb key "daily_kpis" then acc
               else match normalize df with
                    | Some d => dict_set key d acc
                    | None => acc
                    end) aggregates [].

(** Merge keys: pandas matches null keys with each other. *)
Definition key_match (a b : value) : bool :=
  value_eqb a b || (is_null a && is_null b).

(** Key order of an outer merge: sorted, nulls last. *)
Definition merge_ltb (a b : value) : bool :=
  if is_null a then false else if is_null b then true else value_ltb a b.

Fixpoint insert_mkey (k : value) (ks : list value) : list value :=
  match ks with
  | [] => [k]
  | k' :: t =>
      if key_match k k' then ks
      else if merge_ltb k k' then k :: ks else k' :: insert_mkey k t
  end.

Definition merge_keys (ks : list value) : list value :=
  fold_left (fun acc k => insert_mkey k acc) ks [].

Definition jour (r : row) : value := get r "jour".

Definition rows_on (k : value) (rs : list row) : list row :=
  filter (fun r => key_match (jour r) k) rs.

(** One output row of [left.merge(right, how="outer", on="jour",
    suffixes=("", "_" + key))]; a missing side gives nulls. *)
Definition merged_row (lcols rcols : list string) (rn : string -> string)
  (l r : option row) : row :=
  let cell (o : option row) c := match o with Some x => get x c | None => VNull end in
  map (fun c => if String.eqb c "jour"
                then (c, match l with Some x => jour x | None => cell r "jour" end)
                else (c, cell l c)) lcols ++
  map (fun c => (rn c, cell r c)) (filter (fun c => negb (String.eqb c "jour")) rcols).

Definition combine_on (lcols rcols : list string) (rn : string -> string)
  (ls rs : list row) : list row :=
  match ls, rs with
  | [], [] => []
  | _, [] => map (fun l => merged_row lcols rcols rn (Some l) None) ls
  | [], _ => map (fun r => merged_row lcols rcols rn None (Some r)) rs
  | _, _ => flat_map (fun l => map (fun r => merged_row lcols rcols rn (Some l) (Some r)) rs) ls
  end.

Definition merge_outer (left right : frame) (key : string) : frame :=
  let lcols := fcols left in
  let rcols := fcols right in
  (* suffixes=("", "_" + key) on the non-key columns present on both sides *)
  let rn c := if existsb (String.eqb c) lcols then (c ++ "_" ++ key)%string else c in
  let cols := lcols ++ map rn (filter (fun c => negb (String.eqb c "jour")) rcols) in
  let ks := merge_keys (map jour (frows left) ++ map jour (frows right)) in
  mkFrame cols
    (flat_map (fun k => combine_on lcols rcols rn (rows_on k (frows left)) (rows_on k (frows right))) ks).

Definition build_kpis (aggregates : list (string * frame)) : frame :=
  match normalized_aggregates aggregates with
  | [] => empty_frame
  | (first_key, base) :: rest =>
      fold_left (fun base_df '(key, df) =>
                   if String.eqb key first_key then base_df else merge_outer base_df df key)
                ((first_key, base) :: rest) base
  end.

(* ------------------------------------------------------------------ *)
(** ** SHA-256 (for [hashlib.sha256]) *)

Module Sha256.

Definition mask32 : Z := 2 ^ 32 - 1.
Definition add32 (x y : Z) : Z := (x + y) mod 2 ^ 32.
Definition rotr (x : Z) (n : Z) : Z :=
  Z.land (Z.lor (Z.shiftr x n) (Z.shiftl x (32 - n))) mask32.
Definition shr (x : Z) (n : Z) : Z := Z.shiftr x n.

Definition ch (x y z : Z) : Z := Z.lxor (Z.land x y) (Z.land (Z.lxor x mask32) z).
Definition maj (x y z : Z) : Z := Z.lxor (Z.lxor (Z.land x y) (Z.land x z)) (Z.land y z).
Definition big_sigma0 (x : Z) : Z := Z.lxor (Z.lxor (rotr x 2) (rotr x 13)) (rotr x 22).
Definition big_sigma1 (x : Z) : Z := Z.lxor (Z.lxor (rotr x 6) (rotr x 11)) (rotr x 25).
Definition small_sigma0 (x : Z) : Z := Z.lxor (Z.lxor (rotr x 7) (rotr x 18)) (shr x 3).
Definition small_sigma1 (x : Z) : Z := Z.lxor (Z.lxor (rotr x 17) (rotr x 19)) (shr x 10).

(** The primes below 312 (the first 64 primes), by trial division. *)
Definition is_prime (n : Z) : bool :=
  Z.ltb 1 n &&
  forallb (fun d => negb (Z.eqb (n mod d) 0))
          (map Z.of_nat (seq 2 (Z.to_nat (Z.sqrt n) - 1))).

Definition primes64 : list Z := filter is_prime (map Z.of_nat (seq 2 310)).

(** Integer cube root by bisection, for [lo ^ 3 <= n < hi ^ 3]. *)
Fixpoint cbrt_search (fuel : nat) (lo hi n : Z) : Z :=
  match fuel with
  | O => lo
  | S f =>
      if Z.leb (hi - lo) 1 then lo
      else let mid := (lo + hi) / 2 in
           if Z.leb (mid ^ 3) n then cbrt_search f mid hi n else cbrt_search f lo mid n
  end.

Definition icbrt (n : Z) : Z := cbrt_search 64 0 (2 ^ 40) n.

(** The round constants: the first 32 fractional bits of the cube roots of
    the first 64 primes. *)
Definition K : list Z := map (fun p => Z.land (icbrt (p * 2 ^ 96)) mask32) primes64.

(** The initial hash value: the first 32 fractional bits of the square roots
    of the first 8 primes. *)
Definition H0 : list Z := map (fun p => Z.land (Z.sqrt (p * 2 ^ 64)) mask32) (firstn 8 primes64).

(** Big-endian bytes of a [n]-byte integer. *)
Fixpoint be_bytes (n : nat) (x : Z) : list Z :=
  match n with
  | O => []
  | S n' => be_bytes n' (Z.shiftr x 8) ++ [Z.land x 255]
  end.

(** Message padding: [0x80], zeros, the 64-bit bit length. *)
Definition pad (msg : list Z) : list Z :=
  let l := Z.of_nat (length msg) in
  msg ++ [128] ++ repeat 0 (Z.to_nat ((55 - l) mod 64)) ++ be_bytes 8 (8 * l).

Fixpoint chunks (n : nat) (k : nat) (l : list Z) : list (list Z) :=
  match n with
  | O => []
  | S n' => firstn k l :: chunks n' k (skipn k l)
  end.

Definition word_of (b : list Z) : Z :=
  fold_left (fun acc x => acc * 256 + x) b 0.

(** The 64-word message schedule of a 16-word block. *)
Fixpoint extend (n : nat) (w : list Z) : list Z :=
  match n with
  | O => w
  | S n' =>
      let t := length w in
      let wt := add32 (add32 (small_sigma1 (nth (t - 2) w 0)) (nth (t - 7) w 0))
                      (add32 (small_sigma0 (nth (t - 15) w 0)) (nth (t - 16) w 0)) in
      extend n' (w ++ [wt])
  end.

Definition round (st : list Z) (kw : Z * Z) : list Z :=
  match st with
  | [a; b; c; d; e; f; g; h] =>
      let t1 := add32 (add32 (add32 h (big_sigma1 e)) (add32 (ch e f g) (fst kw))) (snd kw) in
      let t2 := add32 (big_sigma0 a) (maj a b c) in
      [add32 t1 t2; a; b; c; add32 d t1; e; f; g]
  | _ => st
  end.

Definition compress (hs : list Z) (block : list Z) : list Z :=
  let w := extend 48 (map word_of (chunks 16 4 block)) in
  let st := fold_left round (combine K w) hs in
  map (fun '(x, y) => add32 x y) (combine hs st).

(** [hashlib.sha256(msg).digest()] as eight 32-bit words. *)
Definition digest_words (msg : list Z) : list Z :=
  let p := pad msg in
  fold_left compress (chunks (length p / 64) 64 p) H0.

End Sha256.

(** [s.encode("utf-8")] of a string held as its UTF-8 bytes. *)
Definition utf8_bytes (s : string) : list Z :=
  map (fun c => Z.of_nat (nat_of_ascii c)) (list_ascii_of_string s).

(** [str(n)] of an integer. *)
Fixpoint digits_rev (fuel : nat) (n : Z) : list ascii :=
  match fuel with
  | O => []
  | S f => ascii_of_nat (48 + Z.to_nat (n mod 10)) ::
             (if Z.ltb n 10 then [] else digits_rev f (n / 10))
  end.

Definition py_str_int (n : Z) : string :=
  let ds := string_of_list_ascii (rev (digits_rev 64 (Z.abs n))) in
  if Z.ltb n 0 then ("-" ++ ds)%string else ds.

(** [int(hashlib.sha256((value + str(offset)).encode("utf-8")).hexdigest()[:16], 16)]:
    the first 16 hex digits are the first two digest words. *)
Definition digest_prefix64 (value : string) (offset : Z) : Z :=
  match Sha256.digest_words (utf8_bytes (value ++ py_str_int offset)) with
  | w0 :: w1 :: _ => w0 * 2 ^ 32 + w1
  | _ => 0
  end.

(** [float(n)] of a non-negative Python int: round to 53 significant bits,
    ties to even. *)
Definition to_double_int (n : Z) : Z :=
  if Z.ltb n (2 ^ 53) then n else
  let e := Z.log2 n - 52 in
  let q := Z.shiftr n e in
  let r := n - Z.shiftl q e in
  let half := 2 ^ (e - 1) in
  if Z.ltb r half then Z.shiftl q e
  else if Z.ltb half r then Z.shiftl (q + 1) e
  else if Z.even q then Z.shiftl q e else Z.shiftl (q + 1) e.

(** [_hash_to_unit(value, offset)]: [as_int / float(16**16)]; the division
    by a power of two is exact, so the float is this rational. *)
Definition hash_to_unit (value : string) (offset : Z) : Q :=
  inject_Z (to_double_int (digest_prefix64 value offset)) / inject_Z (2 ^ 64).

(* ------------------------------------------------------------------ *)
(** ** Counter readings with their coordinates *)

(** A row of the counter-reading relation (the columns the metrics below
    read). [date_heure] is [pd.to_datetime(..., errors="coerce")] in
    seconds ([None] for NaT); [None] in the other optional fields is NaN. *)
Record reading := mkReading {
  compteur_id : string;
  date_heure : option Z;
  comptage_horaire : option Z;
  latitude : option Q;
  longitude : option Q }.

(** A table [compteur_id, latitude, longitude] with both coordinates
    present. *)
Definition coord_table := list (string * (Q * Q)).

Definition both_coords (e : string * option Q * option Q) : list (string * (Q * Q)) :=
  match e with
  | (id, Some a, Some b) => [(id, (a, b))]
  | _ => []
  end.

(** [drop_duplicates("compteur_id")]: the first row of each id. *)
Fixpoint drop_duplicates_id (seen : list string) (t : coord_table) : coord_table :=
  match t with
  | [] => []
  | (id, c) :: t' =>
      if existsb (String.eqb id) seen then drop_duplicates_id seen t'
      else (id, c) :: drop_duplicates_id (id :: seen) t'
  end.

(** [_extract_coordinates_from_bikes]: the bikes feed as its
    (id, latitude, longitude) rows after the column detection; [dropna]
    then [drop_duplicates]. *)
Definition extract_coordinates_from_bikes (bikes : list (string * option Q * option Q))
  : coord_table :=
  drop_duplicates_id [] (flat_map both_coords bikes).

(** [_load_reference_coordinates]: the entries of the JSON payload with
    both coordinates present. *)
Definition load_reference_coordinates (payload : list (string * option Q * option Q))
  : coord_table :=
  flat_map both_coords payload.

(** [coord.fillna(coord_other)] on both coordinates of one merged row. *)
Definition fill_coords (r : reading) (c : Q * Q) : reading :=
  {| compteur_id := compteur_id r;
     date_heure := date_heure r;
     comptage_horaire := comptage_horaire r;
     latitude := match latitude r with Some x => Some x | None => Some (fst c) end;
     longitude := match longitude r with Some y => Some y | None => Some (snd c) end |}.

(** [if not tbl.empty: enriched = enriched.merge(tbl, on="compteur_id",
    how="left", ...)] followed by the two [fillna] and the [drop]: a left
    merge keeps a row without match and repeats it once per match. *)
Definition merge_fill (tbl : coord_table) (rs : list reading) : list reading :=
  match tbl with
  | [] => rs
  | _ =>
      flat_map (fun r =>
        match filter (fun e => String.eqb (fst e) (compteur_id r)) tbl with
        | [] => [r]
        | ms => map (fun e => fill_coords r (snd e)) ms
        end) rs
  end.

Definition lat_min : Q := 4880 # 100.
Definition lat_max : Q := 4890 # 100.
Definition lon_min : Q := 225 # 100.
Definition lon_max : Q := 242 # 100.

(** [lat_min + _hash_to_unit(compteur_id, 0) * (lat_max - lat_min)] and the
    longitude with salt 1 (the interpolation is computed exactly here). *)
Definition fallback_latitude (id : string) : Q :=
  lat_min + hash_to_unit id 0 * (lat_max - lat_min).
Definition fallback_longitude (id : string) : Q :=
  lon_min + hash_to_unit id 1 * (lon_max - lon_min).

(** [_assign_fallback_coordinates]: [mask_missing = lat.isna() | lon.isna()]
    and both coordinates of a masked row are overwritten. *)
Definition assign_fallback (r : reading) : reading :=
  match latitude r, longitude r with
  | Some _, Some _ => r
  | _, _ =>
      {| compteur_id := compteur_id r;
         date_heure := date_heure r;
         comptage_horaire := comptage_horaire r;
         latitude := Some (fallback_latitude (compteur_id r));
         longitude := Some (fallback_longitude (compteur_id r)) |}
  end.

Definition assign_fallback_coordinates (rs : list reading) : list reading :=
  map assign_fallback rs.

(** [_enrich_comptage_with_coordinates(df_comptage, df_bikes)]; the
    reference payload is the content of [compteur_coordinates.json]. *)
Definition enrich_comptage_with_coordinates
  (bikes payload : list (string * option Q * option Q)) (rs : list reading)
  : list reading :=
  match rs with
  | [] => []
  | _ => assign_fallback_coordinates
           (merge_fill (load_reference_coordinates payload)
              (merge_fill (extract_coordinates_from_bikes bikes) rs))
  end.

(* ------------------------------------------------------------------ *)
(** ** Defective counters and the clock *)

Definition dated (rs : list reading) : list (string * Z) :=
  flat_map (fun r => match date_heure r with
                     | Some t => [(compteur_id r, t)]
                     | None => []
                     end) rs.

(** [groupby("compteur_id")["datetime"].max()] for one id. *)
Definition last_seen (id : string) (ds : list (string * Z)) : Z :=
  match map snd (filter (fun e => String.eqb (fst e) id) ds) with
  | [] => 0
  | t :: ts => fold_left Z.max ts t
  end.

Definition heures_sans_donnees (row_ : row) : Q :=
  match get row_ "heures_sans_donnees" with VNum q => q | _ => 0%Q end.

(** [detect_compteurs_defaillants(df, seuil_heures)]; [tz_aware] is whether
    the parsed [date_heure] column carries a time zone, which selects
    [pd.Timestamp.now(tz="UTC")] or [pd.Timestamp.now()]. *)
Definition detect_compteurs_defaillants (clk : clock) (tz_aware : bool)
  (rs : list reading) (seuil_heures : Z) : frame :=
  match rs with
  | [] => empty_frame
  | _ =>
      let ds := dated rs in
      let now := if tz_aware then now_utc clk else now_local clk in
      let derniere :=
        map (fun k => match k with
                      | VStr id =>
                          let t := last_seen id ds in
                          [("compteur_id", VStr id); ("derniere_mesure", VTime t);
                           ("heures_sans_donnees",
                            VNum (round_dec (inject_Z (now - t) / 3600) 1))]
                      | _ => []
                      end)
            (group_keys (map (fun e => VStr (fst e)) ds)) in
      mkFrame ["compteur_id"; "derniere_mesure"; "heures_sans_donnees"; "status"]
        (map (fun r => r ++ [("status", VStr "Défaillant")])
           (filter (fun r => Qltb (inject_Z seuil_heures) (heures_sans_donnees r)) derniere))
  end.

(** The entries of [calculate_all_metrics(df_comptage_velo, df_chantiers,
    ..., df_bikes)] that read the clock, in the dictionary's order:
    [compteurs_defaillants], and [chantiers_actifs] when [df_chantiers] is
    given and non-empty (called without [date_reference]). *)
Definition all_metrics_clock_entries (clk : clock) (tz_aware : bool)
  (bikes payload : list (string * option Q * option Q))
  (df_comptage_velo : list reading) (df_chantiers : option frame)
  : list (string * frame) :=
  let enriched := enrich_comptage_with_coordinates bikes payload df_comptage_velo in
  [("compteurs_defaillants", detect_compteurs_defaillants clk tz_aware enriched 24)] ++
  match df_chantiers with
  | Some ch => if frame_empty ch then []
               else [("chantiers_actifs", calculate_chantiers_actifs clk ch None)]
  | None => []
  end.

(** A row [r'] produced from reading [r]: same id, timestamp and count. *)
Definition same_data (r r' : reading) : Prop :=
  compteur_id r' = compteur_id r /\ date_heure r' = date_heure r /\
  comptage_horaire r' = comptage_horaire r.

(** ... and a pair of coordinates both present in [r] is kept. *)
Definition derived (r r' : reading) : Prop :=
  same_data r r' /\
  (forall a b, latitude r = Some a -> longitude r = Some b ->
               latitude r' = Some a /\ longitude r' = Some b).

(* ------------------------------------------------------------------ *)
(** ** Z-score anomalies *)

(** The non-null [comptage_horaire] values of one counter. *)
Definition counts_of (id : string) (rs : list reading) : list Q :=
  flat_map (fun r => if String.eqb (compteur_id r) id
                     then match comptage_horaire r with
                          | Some v => [inject_Z v]
                          | None => []
                          end
                     else []) rs.

(** [Series.mean()] and [Series.std()] (ddof=1) of the non-null values;
    [None] is NaN. The standard deviation is kept as its square. *)
Definition meanQ (l : list Q) : option Q :=
  match l with
  | [] => None
  | _ => Some (sumQ l / inject_Z (Z.of_nat (length l)))%Q
  end.

Definition var_sample (l : list Q) : option Q :=
  match meanQ l with
  | Some m =>
      if Nat.ltb (length l) 2 then None
      else Some (sumQ (map (fun x => (x - m) * (x - m)) l) / inject_Z (Z.of_nat (length l) - 1))%Q
  | None => None
  end.

(** A z-score [zdev / sqrt zvar]. *)
Record zscore := mkZ { zdev : Q; zvar : Q }.

(** The 0 that [fillna(0)] puts in place of NaN. *)
Definition zero_z : zscore := mkZ 0 1.

Definition zscore_value (z : zscore) : R := (Q2R (zdev z) / sqrt (Q2R (zvar z)))%R.

(** [zscore ** 2], which orders z-scores as [zscore.abs()] does. *)
Definition zabs_sq (z : zscore) : Q := (zdev z * zdev z / zvar z)%Q.

(** [(comptage_horaire - mean) / std] then [fillna(0)]: NaN when the count,
    the mean or the std is NaN, and when std is 0 (every value of the
    counter is then its mean, so the quotient is 0 / 0). *)
Definition zscore_of (rs : list reading) (r : reading) : zscore :=
  let l := counts_of (compteur_id r) rs in
  match comptage_horaire r, meanQ l, var_sample l with
  | Some v, Some m, Some s2 => if Qeq_bool s2 0 then zero_z else mkZ (inject_Z v - m)%Q s2
  | _, _, _ => zero_z
  end.

(** [zscore.abs() > seuil]. *)
Definition abs_gt (z : zscore) (seuil : Q) : bool :=
  Qltb seuil 0 || Qltb (seuil * seuil)%Q (zabs_sq z).

Record anomaly := mkAnomaly {
  an_reading : reading;
  an_mean : option Q;
  an_var : option Q;
  an_zscore : zscore;
  type_anomalie : string }.

(** [anomalies = frame[frame["zscore"].abs() > seuil_zscore]] with its
    [type_anomalie], in the order of the readings (the merge is a left
    merge). *)
Definition anomalies (rs : list reading) (seuil_zscore : Q) : list anomaly :=
  flat_map (fun r =>
    let z := zscore_of rs r in
    if abs_gt z seuil_zscore then
      [mkAnomaly r (meanQ (counts_of (compteur_id r) rs)) (var_sample (counts_of (compteur_id r) rs)) z
         (if Qltb 0 (zdev z) then "pic_exceptionnel" else "creux_exceptionnel")]
    else []) rs.

(** [detect_anomalies_zscore(df, seuil_zscore, max_results)]. *)
Definition detect_anomalies_zscore (rs : list reading) (seuil_zscore : Q) (max_results : Z)
  : list anomaly :=
  match rs with
  | [] => []
  | _ =>
      let result := anomalies rs seuil_zscore in
      if Z.ltb max_results (Z.of_nat (length result))
      then nlargest max_results (fun a => zabs_sq (an_zscore a)) result
      else result
  end.

(* ------------------------------------------------------------------ *)
(** ** DMJA and cycling corridors *)

(** [.dt.date] of a timestamp in seconds. *)
Definition day_of_ts (t : Z) : Z := t / 86400.

Definition date_key (r : reading) : value :=
  match date_heure r with Some t => VDate (day_of_ts t) | None => VNull end.

(** [groupby(["compteur_id", "date"])["comptage_horaire"].sum()] for one
    counter, on the rows with a date, one sum per date in date order. *)
Definition daily_sums (id : string) (rs : list reading) : list Q :=
  let mine := filter (fun r => String.eqb (compteur_id r) id && negb (is_null (date_key r))) rs in
  map (fun k => sumQ (flat_map (fun r => if value_eqb (date_key r) k
                                         then match comptage_horaire r with
                                              | Some c => [inject_Z c]
                                              | None => []
                                              end
                                         else []) mine))
      (group_keys (map date_key mine)).

Record dmja_row := mkDmja {
  dmja_id : string;
  dmja : Q;
  dmja_latitude : option Q;
  dmja_longitude : option Q }.

(** [calculate_dmja(df)]: the mean of the daily sums of each counter with a
    dated row, in [compteur_id] order, with the coordinates of the
    counter's first row ([drop_duplicates("compteur_id")], left merge). *)
Definition calculate_dmja (rs : list reading) : list dmja_row :=
  match rs with
  | [] => []
  | _ =>
      flat_map (fun k =>
        match k with
        | VStr id =>
            let s := daily_sums id rs in
            let first := find (fun r => String.eqb (compteur_id r) id) rs in
            [mkDmja id (sumQ s / inject_Z (Z.of_nat (length s)))%Q
                    (match first with Some r => latitude r | None => None end)
                    (match first with Some r => longitude r | None => None end)]
        | _ => []
        end)
        (group_keys (map (fun r => if is_null (date_key r) then VNull else VStr (compteur_id r)) rs))
  end.

(** [Series.quantile(p)] (linear interpolation) of a non-empty series. *)
Definition quantile_linear (l : list Q) (p : Q) : Q :=
  let s := rev (sort_desc (fun x => x) l) in
  let h := ((inject_Z (Z.of_nat (length s)) - 1) * p)%Q in
  let i := Qfloor h in
  let lo := nth (Z.to_nat i) s 0%Q in
  let hi := nth (S (Z.to_nat i)) s lo in
  (lo + (h - inject_Z i) * (hi - lo))%Q.

Record corridor := mkCorridor {
  corridor_row : dmja_row;
  corridor_percentile : Q;
  seuil_dmja : Q }.

(** [identify_corridors_cyclables(df, percentile)]; [sort_values] is a
    descending sort on [dmja] (pandas' default sort does not fix the order
    of ties; this one keeps them in row order). *)
Definition identify_corridors_cyclables (rs : list reading) (percentile : Q) : list corridor :=
  match calculate_dmja rs with
  | [] => []
  | d =>
      let seuil := quantile_linear (map dmja d) (percentile / 100)%Q in
      sort_desc (fun c => dmja (corridor_row c))
        (map (fun x => mkCorridor x percentile seuil) (filter (fun x => Qltb seuil (dmja x)) d))
  end.

(* ------------------------------------------------------------------ *)
(** ** Public works against bike traffic *)

(** A cell of the correlation table: a date, an integer, a rational, a real
    (a correlation coefficient or a standard deviation) or NaN. *)
Inductive cell : Type :=
| CDate (d : Z)
| CInt (n : Z)
| CNum (q : Q)
| CReal (x : R)
| CNaN.

Definition crow := list (string * cell).

Record cframe := mkCFrame { ccols : list string; crows : list crow }.

Fixpoint cget (r : crow) (c : string) : option cell :=
  match r with
  | [] => None
  | (k, v) :: t => if String.eqb k c then Some v else cget t c
  end.

(** A public-works row, its dates after [pd.to_datetime(...).dt.date]
    ([None] for NaT). *)
Record chantier := mkChantier { date_debut : option Z; date_fin : option Z }.

(** The day of a date cell. *)
Definition date_num (v : value) : Z := match v with VDate d => d | _ => 0 end.

(** [trafic_daily["date"]]: the distinct reading dates, in order. *)
Definition reading_days (rs : list reading) : list Z :=
  map date_num (group_keys (map date_key rs)).

(** [groupby("date")["comptage_horaire"].sum()] on one date. *)
Definition total_velos_on (rs : list reading) (d : Z) : Z :=
  fold_right Z.add 0
    (flat_map (fun r => if value_eqb (date_key r) (VDate d)
                        then match comptage_horaire r with Some c => [c] | None => [] end
                        else []) rs).

(** After [dropna(subset=["date_debut", "date_fin"])], the interval test. *)
Definition active_on (d : Z) (c : chantier) : bool :=
  match date_debut c, date_fin c with
  | Some a, Some b => Z.leb a d && Z.leb d b
  | _, _ => false
  end.

Definition nb_chantiers_on (chs : list chantier) (d : Z) : Z :=
  Z.of_nat (length (filter (active_on d) chs)).

Definition daily_totals (rs : list reading) : list Q :=
  map (fun d => inject_Z (total_velos_on rs d)) (reading_days rs).

Definition daily_counts (rs : list reading) (chs : list chantier) : list Q :=
  map (fun d => inject_Z (nb_chantiers_on chs d)) (reading_days rs).

(** [DataFrame.corr()] (Pearson) of two columns: NaN when one is constant. *)
Definition pearson (xs ys : list Q) : cell :=
  let n := inject_Z (Z.of_nat (length xs)) in
  let mx := (sumQ xs / n)%Q in
  let my := (sumQ ys / n)%Q in
  let sxy := sumQ (map (fun p => (fst p - mx) * (snd p - my))%Q (combine xs ys)) in
  let sxx := sumQ (map (fun x => (x - mx) * (x - mx))%Q xs) in
  let syy := sumQ (map (fun y => (y - my) * (y - my))%Q ys) in
  if Qeq_bool sxx 0 || Qeq_bool syy 0 then CNaN
  else CReal (Q2R sxy / sqrt (Q2R sxx * Q2R syy))%R.

Definition base_cols : list string := ["date"; "total_velos"; "nb_chantiers_actifs"].
Definition stats_cols : list string :=
  ["correlation_chantiers_velo"; "moyenne_velos"; "ecart_type_velos"].

(** [correlate_chantiers_velo(df_comptage, df_chantiers)] on relations that
    have the date and count columns. When no reading has a date,
    [chantiers_daily] is [pd.DataFrame([])], which has no [date] column,
    and the merge raises [KeyError]. *)
Definition correlate_chantiers_velo (rs : list reading) (chs : list chantier) : result cframe :=
  match rs, chs with
  | [], _ | _, [] => Ok (mkCFrame [] [])
  | _, _ =>
      let days := reading_days rs in
      match days with
      | [] => Raise (KeyError "date")
      | _ =>
          let rows := map (fun d => [("date", CDate d);
                                     ("total_velos", CInt (total_velos_on rs d));
                                     ("nb_chantiers_actifs", CInt (nb_chantiers_on chs d))]) days in
          if Nat.ltb 1 (length rows) then
            let totals := daily_totals rs in
            let stats := [("correlation_chantiers_velo", pearson totals (daily_counts rs chs));
                          ("moyenne_velos", match meanQ totals with
                                            | Some m => CNum m
                                            | None => CNaN
                                            end);
                          ("ecart_type_velos", match var_sample totals with
                                               | Some v => CReal (sqrt (Q2R v))
                                               | None => CNaN
                                               end)] in
            Ok (mkCFrame (base_cols ++ stats_cols) (map (fun r => r ++ stats) rows))
          else Ok (mkCFrame base_cols rows)
      end
  end.

(* ================================================================== *)
(* ------------------------------------------------------------------ *)
(** ** Float results with infinities *)

(** A float64 result that can be infinite or NaN. *)
Inductive xq : Type :=
| XFin (q : Q)
| XPosInf
| XNegInf
| XNaN.

(** Float division [a / b]: [b = 0] gives [inf], [-inf] or [NaN]. *)
Definition xdiv (a b : Q) : xq :=
  if Qeq_bool b 0 then
    if Qltb 0 a then XPosInf else if Qltb a 0 then XNegInf else XNaN
  else XFin (a / b)%Q.

(** An operation applied to a finite value; infinities and NaN are kept
    by [x - 1], [x * 100] and [round]. *)
Definition xmap (f : Q -> Q) (x : xq) : xq :=
  match x with XFin q => XFin (f q) | _ => x end.

(* ------------------------------------------------------------------ *)
(** ** Reductions of a numeric series *)

(** [Series.min()] and [Series.max()]: NaN on no value. *)
Definition min_of (l : list Q) : option Q :=
  match l with [] => None | x :: t => Some (fold_left Qmin t x) end.

Definition max_of (l : list Q) : option Q :=
  match l with [] => None | x :: t => Some (fold_left Qmax t x) end.

(** [Series.median()]: the middle value of the sorted values, or the mean
    of the two middle ones (the sort direction does not matter). *)
Definition median_of (l : list Q) : option Q :=
  let s := sort_desc (fun x => x) l in
  let n := length s in
  match n with
  | O => None
  | _ => if Nat.odd n then Some (nth (n / 2) s 0%Q)
         else Some ((nth (n / 2 - 1) s 0 + nth (n / 2) s 0) / 2)%Q
  end.

(** The readings with a timestamp: [pd.to_datetime(...)] then
    [dropna(subset=[...])]. *)
Definition dated_rows (rs : list reading) : list reading :=
  filter (fun r => negb (is_null (date_key r))) rs.

(** The distinct counter ids, in order: the keys of
    [groupby("compteur_id")]. *)
Definition compteur_keys (rs : list reading) : list value :=
  group_keys (map (fun r => VStr (compteur_id r)) rs).

(** The non-null counts of the readings of one date. *)
Definition day_counts (d : value) (rs : list reading) : list Q :=
  flat_map (fun r => if value_eqb (date_key r) d
                     then match comptage_horaire r with
                          | Some c => [inject_Z c]
                          | None => []
                          end
                     else []) rs.

(* ------------------------------------------------------------------ *)
(** ** [metrics.calculate_debit_horaire] *)

Record debit_horaire_row := mkDH {
  dh_compteur_id : string;
  debit_horaire_moyen : option Q;
  debit_horaire_median : option Q;
  debit_horaire_min : option Q;
  debit_horaire_max : option Q;
  debit_total : Q;
  nb_mesures : Z }.

(** [groupby("compteur_id")["comptage_horaire"].agg(["mean", "median",
    "min", "max", "sum", "count"])]. *)
Definition calculate_debit_horaire (rs : list reading) : list debit_horaire_row :=
  match rs with
  | [] => []
  | _ =>
      flat_map (fun k =>
        match k with
        | VStr id =>
            let l := counts_of id rs in
            [mkDH id (meanQ l) (median_of l) (min_of l) (max_of l) (sumQ l)
                  (Z.of_nat (length l))]
        | _ => []
        end) (compteur_keys rs)
  end.

(* ------------------------------------------------------------------ *)
(** ** [aggregation.aggregate_comptage_velo] *)

Record comptage_jour := mkCJ {
  cj_compteur_id : string;
  cj_jour : Z;
  comptage_total : Q;
  comptage_moyen : option Q;
  comptage_max : option Q }.

(** [groupby(["compteur_id", "jour"]).agg(comptage_total=sum,
    comptage_moyen=mean, comptage_max=max)] on the dated readings; the
    groups come in (id, day) order. The required columns are those of
    [reading], so the guard does not fire. *)
Definition aggregate_comptage_velo (rs : list reading) : list comptage_jour :=
  let frame := dated_rows rs in
  flat_map (fun k =>
    match k with
    | VStr id =>
        let mine := filter (fun r => String.eqb (compteur_id r) id) frame in
        map (fun d => let l := day_counts d mine in
                      mkCJ id (date_num d) (sumQ l) (meanQ l) (max_of l))
            (group_keys (map date_key mine))
    | _ => []
    end) (compteur_keys frame).

(* ------------------------------------------------------------------ *)
(** ** [metrics.calculate_taux_disponibilite] *)

Record taux_row := mkTaux {
  taux_compteur_id : string;
  nb_enregistrements_reels : Z;
  nb_enregistrements_attendus : Z;
  taux_disponibilite_pct : xq }.

(** [groupby("compteur_id").size()] on the dated readings, against
    [24 * periode_jours] expected records;
    [((reels / attendus) * 100).round(2)]. *)
Definition calculate_taux_disponibilite (rs : list reading) (periode_jours : Z)
  : list taux_row :=
  match rs with
  | [] => []
  | _ =>
      let frame := dated_rows rs in
      let attendus := 24 * periode_jours in
      flat_map (fun k =>
        match k with
        | VStr id =>
            let n := Z.of_nat (length (filter (fun r => String.eqb (compteur_id r) id) frame)) in
            [mkTaux id n attendus
               (xmap (fun q => round_dec (q * 100) 2) (xdiv (inject_Z n) (inject_Z attendus)))]
        | _ => []
        end) (compteur_keys frame)
  end.

(* ------------------------------------------------------------------ *)
(** ** [metrics.calculate_heures_pointe] *)

(** [.dt.hour] of a naive timestamp. *)
Definition hour_of (t : Z) : Z := (t mod 86400) / 3600.

Definition hour_key (r : reading) : value :=
  match date_heure r with Some t => VInt (hour_of t) | None => VNull end.

Definition hour_counts (h : Z) (rs : list reading) : list Q :=
  flat_map (fun r => if value_eqb (hour_key r) (VInt h)
                     then match comptage_horaire r with
                          | Some c => [inject_Z c]
                          | None => []
                          end
                     else []) rs.

(** [debit_horaire]: [groupby("heure")["comptage_horaire"].mean()]. *)
Definition debit_horaire_par_heure (rs : list reading) : list (Z * option Q) :=
  flat_map (fun k => match k with
                     | VInt h => [(h, meanQ (hour_counts h rs))]
                     | _ => []
                     end) (group_keys (map hour_key rs)).

Record heure_pointe := mkHP {
  hp_heure : Z;
  hp_debit_moyen : Q;
  hp_seuil_pct : Q;
  hp_debit_global_moyen : Q }.

(** [calculate_heures_pointe(df, seuil_pct)]: the hours whose mean is above
    [seuil_pct]% of the mean of the hourly means (NaN means skipped; a NaN
    threshold keeps no hour). *)
Definition calculate_heures_pointe (rs : list reading) (seuil_pct : Q) : list heure_pointe :=
  match rs with
  | [] => []
  | _ =>
      let dh := debit_horaire_par_heure rs in
      match meanQ (flat_map (fun e => match snd e with Some m => [m] | None => [] end) dh) with
      | None => []
      | Some g =>
          let seuil := (g * (seuil_pct / 100))%Q in
          flat_map (fun e => match snd e with
                             | Some m => if Qltb seuil m then [mkHP (fst e) m seuil_pct g] else []
                             | None => []
                             end) dh
      end
  end.

(* ------------------------------------------------------------------ *)
(** ** [metrics.calculate_top_compteurs] *)

Record top_row := mkTop {
  rang : Z;
  top_compteur_id : string;
  top_dmja : Q;
  top_latitude : option Q;
  top_longitude : option Q }.

(** [calculate_top_compteurs(df, top_n)]: its columns and rows.
    [has_coords] is whether [df] has [latitude] and [longitude] columns;
    [payload] is the content of [compteur_coordinates.json].

    When [df] has coordinates, [calculate_dmja] has already merged them into
    [dmja], the coordinate sources are not empty (they include [df]'s
    rows), and [top.merge(coords, on="compteur_id")] finds [latitude] and
    [longitude] on both sides: they become [latitude_x], [latitude_y], ...
    and [optional_cols] is empty. Otherwise the coordinates come from the
    reference table alone, when it is not empty. *)
Definition calculate_top_compteurs (has_coords : bool)
  (payload : list (string * option Q * option Q)) (rs : list reading) (top_n : Z)
  : list string * list top_row :=
  match calculate_dmja rs with
  | [] => ([], [])
  | d =>
      let top := nlargest top_n dmja d in
      let ranked := combine (map Z.of_nat (seq 1 (length top))) top in
      let base_cols := ["rang"; "compteur_id"; "dmja"] in
      let ref := load_reference_coordinates payload in
      if has_coords then
        (base_cols, map (fun '(n, x) => mkTop n (dmja_id x) (dmja x) None None) ranked)
      else
        match ref with
        | [] => (base_cols, map (fun '(n, x) => mkTop n (dmja_id x) (dmja x) None None) ranked)
        | _ =>
            (base_cols ++ ["latitude"; "longitude"],
             map (fun '(n, x) =>
                    match find (fun e => String.eqb (fst e) (dmja_id x)) ref with
                    | Some (_, (a, b)) => mkTop n (dmja_id x) (dmja x) (Some a) (Some b)
                    | None => mkTop n (dmja_id x) (dmja x) None None
                    end) ranked)
        end
  end.

(* ------------------------------------------------------------------ *)
(** ** [metrics.calculate_compteurs_faible_activite] *)

Record faible_row := mkFaible {
  faible_dmja : dmja_row;
  mediane_dmja : Q;
  faible_seuil_pct : Q }.

Definition calculate_compteurs_faible_activite (rs : list reading) (seuil_pct : Q)
  : list faible_row :=
  match calculate_dmja rs with
  | [] => []
  | d =>
      match median_of (map dmja d) with
      | None => []
      | Some mediane =>
          let seuil := (mediane * (seuil_pct / 100))%Q in
          map (fun x => mkFaible x mediane seuil_pct) (filter (fun x => Qltb (dmja x) seuil) d)
      end
  end.

(* ------------------------------------------------------------------ *)
(** ** [metrics.calculate_ratio_weekend_semaine] *)

(** [.dt.dayofweek] of a day number (Monday is 0; day 0 is a Thursday). *)
Definition dayofweek (d : Z) : Z := (d + 3) mod 7.

Definition est_weekend (t : Z) : bool :=
  let w := dayofweek (day_of_ts t) in Z.eqb w 5 || Z.eqb w 6.

(** [Series.sum()] of the counts. *)
Definition count_sum (rs : list reading) : Z :=
  fold_right Z.add 0
    (flat_map (fun r => match comptage_horaire r with Some c => [c] | None => [] end) rs).

Record ratio_row := mkRatio {
  debit_weekend : Z;
  debit_semaine : Z;
  ratio_weekend_semaine : Q;
  difference_pct : Q }.

Definition calculate_ratio_weekend_semaine (rs : list reading) : list ratio_row :=
  match rs with
  | [] => []
  | _ =>
      let frame := dated_rows rs in
      let weekend r := match date_heure r with Some t => est_weekend t | None => false end in
      let we := count_sum (filter weekend frame) in
      let se := count_sum (filter (fun r => negb (weekend r)) frame) in
      let ratio := if Z.ltb 0 se then (inject_Z we / inject_Z se)%Q else 0%Q in
      [mkRatio we se (round_dec ratio 3) (round_dec ((ratio - 1) * 100) 2)]
  end.

(* ------------------------------------------------------------------ *)
(** ** [metrics.detect_congestion_cyclable] *)

Record congestion := mkCongestion {
  cg_reading : reading;
  cg_debit_moyen : Q;
  cg_seuil_pct : Q;
  depassement_pct : xq }.

(** The rows of [congestions]: a reading above [seuil_pct]% of its
    counter's mean, with [((comptage / debit_moyen) - 1) * 100] rounded. *)
Definition congestions (rs : list reading) (seuil_pct : Q) : list congestion :=
  flat_map (fun r =>
    match comptage_horaire r, meanQ (counts_of (compteur_id r) rs) with
    | Some c, Some m =>
        if Qltb (m * (seuil_pct / 100)) (inject_Z c)
        then [mkCongestion r m seuil_pct
                (xmap (fun q => round_dec ((q - 1) * 100) 2) (xdiv (inject_Z c) m))]
        else []
    | _, _ => []
    end) rs.

(** [a <= b] on non-NaN floats. *)
Definition xq_leb (a b : xq) : bool :=
  match a, b with
  | XNegInf, _ => true
  | _, XPosInf => true
  | XFin x, XFin y => Qle_bool x y
  | _, _ => false
  end.

Definition is_xnan (x : xq) : bool := match x with XNaN => true | _ => false end.

Fixpoint ins_xdesc {A : Type} (f : A -> xq) (x : A) (l : list A) : list A :=
  match l with
  | [] => [x]
  | y :: t => if xq_leb (f x) (f y) then y :: ins_xdesc f x t else x :: l
  end.

(** [nlargest(n, col)] (keep="first"): the non-NaN rows in decreasing
    order, ties in row order, then the NaN rows. *)
Definition nlargest_x {A : Type} (n : Z) (f : A -> xq) (l : list A) : list A :=
  firstn (Z.to_nat n)
    (fold_left (fun acc x => ins_xdesc f x acc) (filter (fun a => negb (is_xnan (f a))) l) [] ++
     filter (fun a => is_xnan (f a)) l).

Definition detect_congestion_cyclable (rs : list reading) (seuil_pct : Q) (max_results : Z)
  : list congestion :=
  match rs with
  | [] => []
  | _ =>
      let result := congestions rs seuil_pct in
      if Z.ltb max_results (Z.of_nat (length result))
      then nlargest_x max_results depassement_pct result
      else result
  end.

(* ------------------------------------------------------------------ *)
(** ** [metrics.calculate_evolution_temporelle] *)

(** The proleptic Gregorian date (year, month, day) of a day number. *)
Definition civil_from_days (z : Z) : Z * Z * Z :=
  let z := z + 719468 in
  let era := z / 146097 in
  let doe := z - era * 146097 in
  let yoe := (doe - doe / 1460 + doe / 36524 - doe / 146096) / 365 in
  let doy := doe - (365 * yoe + yoe / 4 - yoe / 100) in
  let mp := (5 * doy + 2) / 153 in
  let d := doy - (153 * mp + 2) / 5 + 1 in
  let m := if Z.ltb mp 10 then mp + 3 else mp - 9 in
  (yoe + era * 400 + (if Z.leb m 2 then 1 else 0), m, d).

Fixpoint zeros (n : nat) : string :=
  match n with O => "" | S k => String "0" (zeros k) end.

(** A non-negative integer written on at least [w] digits. *)
Definition zpad (w : nat) (n : Z) : string :=
  let s := py_str_int n in zeros (w - String.length s) ++ s.

Definition iso_date (d : Z) : string :=
  let '(y, m, dd) := civil_from_days d in
  zpad 4 y ++ "-" ++ zpad 2 m ++ "-" ++ zpad 2 dd.

(** [str(ts.to_period("W"))]: the Monday-to-Sunday week, as
    ["YYYY-MM-DD/YYYY-MM-DD"]. *)
Definition week_label (d : Z) : string :=
  let start := d - dayofweek d in iso_date start ++ "/" ++ iso_date (start + 6).

(** [str(ts.to_period("M"))]: ["YYYY-MM"]. *)
Definition month_label (d : Z) : string :=
  let '(y, m, _) := civil_from_days d in zpad 4 y ++ "-" ++ zpad 2 m.

(** The [periode] column for a supported period name. *)
Definition period_key (periode : string) : option (Z -> value) :=
  if String.eqb periode "jour" then Some (fun t => VDate (day_of_ts t))
  else if String.eqb periode "semaine" then Some (fun t => VStr (week_label (day_of_ts t)))
  else if String.eqb periode "mois" then Some (fun t => VStr (month_label (day_of_ts t)))
  else None.

Record evolution_row := mkEvolution {
  periode : value;
  ev_debit_total : Q;
  debit_precedent : option Q;
  variation_absolue : option Q;
  taux_croissance_pct : xq }.

(** The rows after [shift(1)]: each period with the total of the period
    before it ([prev]). *)
Fixpoint evolution_from (prev : option Q) (l : list (value * Q)) : list evolution_row :=
  match l with
  | [] => []
  | (k, s) :: t =>
      let variation := match prev with Some p => Some (s - p)%Q | None => None end in
      let taux := match prev, variation with
                  | Some p, Some v => xmap (fun q => round_dec (q * 100) 2) (xdiv v p)
                  | _, _ => XNaN
                  end in
      mkEvolution k s prev variation taux :: evolution_from (Some s) t
  end.

Definition calculate_evolution_temporelle (rs : list reading) (periode_ : string)
  : list evolution_row :=
  match rs with
  | [] => []
  | _ =>
      let frame := dated_rows rs in
      match period_key periode_ with
      | None => []
      | Some pk =>
          let key r := match date_heure r with Some t => pk t | None => VNull end in
          let totals :=
            map (fun k => (k, sumQ (flat_map (fun r =>
                                  if value_eqb (key r) k
                                  then match comptage_horaire r with
                                       | Some c => [inject_Z c]
                                       | None => []
                                       end
                                  else []) frame)))
                (group_keys (map key frame)) in
          evolution_from None totals
      end
  end.

(* ------------------------------------------------------------------ *)
(** ** [aggregation.aggregate_traffic_incidents] *)

(** A disruption: [updated_at] after [pd.to_datetime(..., errors="coerce")]
    ([None] for NaT) and its [severity] ([None] for NaN). *)
Record incident := mkIncident { updated_at : option Z; severity : option string }.

Record incident_day := mkIncidentDay {
  inc_jour : Z;
  incidents_par_gravite : list Z;
  nb_incidents_total : Z }.

Record incident_pivot := mkPivot { pivot_cols : list string; pivot_rows : list incident_day }.

(** [gravite]: the severity, ["unknown"] when missing or NaN. *)
Definition gravite (has_severity : bool) (i : incident) : string :=
  if has_severity then match severity i with Some s => s | None => "unknown" end
  else "unknown".

Definition incident_day_of (i : incident) : Z :=
  match updated_at i with Some t => day_of_ts t | None => 0 end.

(** [aggregate_traffic_incidents(df)] for a frame with columns [cols]: the
    day-by-severity counts of [groupby(["jour", "gravite"]).size()], one
    column per severity seen ([unstack(fill_value=0)]), and their row sum. *)
Definition aggregate_traffic_incidents (cols : list string) (rs : list incident)
  : result incident_pivot :=
  if negb (existsb (String.eqb "updated_at") cols)
  then Raise (ValueError_missing ["updated_at"]) else
  let has_severity := existsb (String.eqb "severity") cols in
  let frame := filter (fun i => match updated_at i with Some _ => true | None => false end) rs in
  let gs := flat_map (fun k => match k with VStr g => [g] | _ => [] end)
              (group_keys (map (fun i => VStr (gravite has_severity i)) frame)) in
  let ds := group_keys (map (fun i => VDate (incident_day_of i)) frame) in
  let count d g := Z.of_nat (length (filter (fun i => Z.eqb (incident_day_of i) d &&
                                                     String.eqb (gravite has_severity i) g) frame)) in
  Ok (mkPivot ("jour" :: map (fun g => ("incidents_" ++ g)%string) gs ++ ["nb_incidents_total"])
        (map (fun k => let d := date_num k in
                       let cs := map (count d) gs in
                       mkIncidentDay d cs (fold_right Z.add 0 cs)) ds)).

(** The required columns that [cols] lacks, in the order of [required]
    (the message of the [ValueError] prints them as a set). *)
Definition missing_cols (required cols : list string) : list string :=
  filter (fun c => negb (existsb (String.eqb c) cols)) required.

(* ------------------------------------------------------------------ *)
(** ** [aggregation.aggregate_comptage_troncon] *)

(** A row of the per-section counts ([None] is NaN). *)
Record troncon_obs := mkTronconObs {
  site_id : option string;
  t_date : option Z;
  t_comptage_horaire : option Q }.

Record troncon_row := mkTronconRow {
  tr_site_id : string;
  tr_date : Z;
  tr_comptage_total : Q;
  heures_mesurees : Z }.

Definition site_key (o : troncon_obs) : value :=
  match site_id o with Some s => VStr s | None => VNull end.

Definition t_date_key (o : troncon_obs) : value :=
  match t_date o with Some d => VDate d | None => VNull end.

(** [groupby(["site_id", "date"]).agg(comptage_total=sum,
    heures_mesurees=count)]: rows with a null key are dropped, groups come
    in (site, date) order. *)
Definition aggregate_comptage_troncon (cols : list string) (rs : list troncon_obs)
  : result (list troncon_row) :=
  match missing_cols ["site_id"; "date"; "comptage_horaire"] cols with
  | (_ :: _) as missing => Raise (ValueError_missing missing)
  | [] =>
      let keyed := filter (fun o => negb (is_null (site_key o)) && negb (is_null (t_date_key o))) rs in
      Ok (flat_map (fun k =>
            match k with
            | VStr s =>
                let mine := filter (fun o => value_eqb (site_key o) k) keyed in
                map (fun dk =>
                       let l := flat_map (fun o => if value_eqb (t_date_key o) dk
                                                   then match t_comptage_horaire o with
                                                        | Some c => [c]
                                                        | None => []
                                                        end
                                                   else []) mine in
                       mkTronconRow s (date_num dk) (sumQ l) (Z.of_nat (length l)))
                    (group_keys (map t_date_key mine))
            | _ => []
            end) (group_keys (map site_key keyed)))
  end.

(* ------------------------------------------------------------------ *)
(** ** [aggregation.aggregate_validations] *)

Record validation_obs := mkValidationObs {
  v_date : option Z;
  code_ligne : option string;
  v_nb_validations : option Q }.

Record validation_row := mkValidationRow {
  vr_date : Z;
  vr_code_ligne : string;
  nb_validations : Q }.

Definition v_date_key (o : validation_obs) : value :=
  match v_date o with Some d => VDate d | None => VNull end.

Definition ligne_key (o : validation_obs) : value :=
  match code_ligne o with Some s => VStr s | None => VNull end.

(** [groupby(["date", "code_ligne"]).agg(nb_validations=sum)]. *)
Definition aggregate_validations (cols : list string) (rs : list validation_obs)
  : result (list validation_row) :=
  match missing_cols ["date"; "code_ligne"; "nb_validations"] cols with
  | (_ :: _) as missing => Raise (ValueError_missing missing)
  | [] =>
      let keyed := filter (fun o => negb (is_null (v_date_key o)) && negb (is_null (ligne_key o))) rs in
      Ok (flat_map (fun dk =>
            let mine := filter (fun o => value_eqb (v_date_key o) dk) keyed in
            flat_map (fun k =>
              match k with
              | VStr s =>
                  [mkValidationRow (date_num dk) s
                     (sumQ (flat_map (fun o => if value_eqb (ligne_key o) k
                                               then match v_nb_validations o with
                                                    | Some c => [c]
                                                    | None => []
                                                    end
                                               else []) mine))]
              | _ => []
              end) (group_keys (map ligne_key mine)))
          (group_keys (map v_date_key keyed)))
  end.

(* ------------------------------------------------------------------ *)
(** ** [aggregation.correlate_meteo_velo] *)

(** A weather row: [datetime] parsed in seconds, a pre-existing [date]
    column (day number), [tempmax] and [precip] ([None] is NaN/NaT). *)
Record weather_obs := mkWeatherObs {
  w_datetime : option Z;
  w_date : option Z;
  tempmax : option Q;
  precip : option Q }.

(** [DataFrame.corr()] on two columns: pairs with a NaN are left out. *)
Definition pearson_pairs (ps : list (Q * option Q)) : cell :=
  let ok := flat_map (fun p => match snd p with Some y => [(fst p, y)] | None => [] end) ps in
  pearson (map fst ok) (map snd ok).

Definition meteo_cols : list string :=
  ["date"; "total_velos"; "temperature_max"; "precipitation"].

(** [correlate_meteo_velo(df_weather, df_comptage)]; [wcols] are the
    columns of [df_weather]. The weather [date] is taken from [datetime]
    when that column exists, else from a [date] column; with neither,
    [groupby("date")] raises [KeyError]. *)
Definition correlate_meteo_velo (wcols : list string) (ws : list weather_obs)
  (rs : list reading) : result cframe :=
  match ws, rs with
  | [], _ | _, [] => Ok (mkCFrame [] [])
  | _, _ =>
      let has c := existsb (String.eqb c) wcols in
      let wday o := if has "datetime"
                     then match w_datetime o with Some t => VDate (day_of_ts t) | None => VNull end
                     else match w_date o with Some d => VDate d | None => VNull end in
      (* comptage_daily *)
      let cdays := group_keys (map date_key rs) in
      if has "tempmax" && has "precip" then
        if negb (has "datetime" || has "date") then Raise (KeyError "date") else
        let wdays := group_keys (map wday ws) in
        let common := filter (fun d => existsb (value_eqb d) wdays) cdays in
        let row_of d :=
          let mine := filter (fun o => value_eqb (wday o) d) ws in
          (d, total_velos_on rs (date_num d),
           meanQ (flat_map (fun o => match tempmax o with Some x => [x] | None => [] end) mine),
           sumQ (flat_map (fun o => match precip o with Some x => [x] | None => [] end) mine)) in
        let rows := map row_of common in
        let cells '(d, tv, tm, pr) :=
          [("date", CDate (date_num d)); ("total_velos", CInt tv);
           ("temperature_max", match tm with Some x => CNum x | None => CNaN end);
           ("precipitation", CNum pr)] in
        match rows with
        | [] => Ok (mkCFrame meteo_cols [])
        | _ =>
            let ct := pearson_pairs (map (fun '(_, tv, tm, _) => (inject_Z tv, tm)) rows) in
            let cp := pearson_pairs (map (fun '(_, tv, _, pr) => (inject_Z tv, Some pr)) rows) in
            Ok (mkCFrame (meteo_cols ++ ["correlation_temperature"; "correlation_precipitation"])
                  (map (fun x => cells x ++ [("correlation_temperature", ct);
                                             ("correlation_precipitation", cp)]) rows))
        end
      else Ok (mkCFrame [] [])
  end.

(* ------------------------------------------------------------------ *)
(** ** [aggregation.correlate_qualite_validations] *)

Definition correlate_qualite_validations (df_qualite df_validations : frame) : frame :=
  if frame_empty df_qualite || frame_empty df_validations then empty_frame else
  if negb (has_col "date" df_validations && has_col "nb_validations" df_validations)
  then empty_frame else
  (* validations_daily, computed and not used afterwards *)
  let _validations_daily :=
    map (fun k => [("date", k);
                   ("total_validations", col_sum "nb_validations" (rows_with "date" k (frows df_validations)))])
        (group_keys (map (fun r => get r "date") (frows df_validations))) in
  match find (fun c => has_col c df_qualite) ["date"; "trimestre"; "periode"] with
  | None => empty_frame
  | Some date_col =>
      if has_col "score_qualite" df_qualite || has_col "ponctualite" df_qualite then
        let score_col := if has_col "score_qualite" df_qualite then "score_qualite" else "ponctualite" in
        mkFrame ["periode"; "score_moyen_qualite"]
          (map (fun k => [("periode", k);
                          ("score_moyen_qualite", col_mean score_col (rows_with date_col k (frows df_qualite)))])
               (group_keys (map (fun r => get r date_col) (frows df_qualite))))
      else empty_frame
  end.

(** * Properties *)

(* ------------------------------------------------------------------ *)
(** ** Missing prerequisite columns *)

(** A weather relation with [datetime], [tempmax] and [tempmin] but no
    [precip]. *)
Definition weather_no_precip : frame :=
  mkFrame ["datetime"; "tempmax"; "tempmin"; "windspeed"]
    [[("datetime", VTime 1735689600); ("tempmax", VNum 8); ("tempmin", VNum 2);
      ("windspeed", VNum 10)]].

(** C1 (counterexample): [aggregate_weather_daily] on a relation lacking
    [precip] does not return an empty relation: it raises [ValueError]. *)
Lemma C1_weather_missing_column_raises :
  ~ (exists out, aggregate_weather_daily weather_no_precip = Ok out /\
                 frame_empty out = true).
Proof.
  intros [out [H _]]. vm_compute in H. discriminate H.
Qed.

Lemma weather_missing_spec (df : frame) :
  forall missing, filter (fun c => negb (has_col c df)) weather_required = missing ->
  forall c, In c missing <-> In c weather_required /\ has_col c df = false.
Proof.
  intros missing <- c. rewrite filter_In. destruct (has_col c df); simpl; intuition.
Qed.

(** C1 (amended): [calculate_debit_journalier] returns the empty relation
    when its input is empty or lacks [compteur_id] or [date_heure], while
    [aggregate_weather_daily] raises [ValueError] naming exactly the
    columns of {datetime, tempmax, tempmin, precip} that are absent, as
    soon as one of them is absent. *)
Theorem C1_missing_columns_policy :
  (forall df n m,
      frame_empty df = true \/ has_col "compteur_id" df = false \/
      has_col "date_heure" df = false ->
      calculate_debit_journalier df n m = Ok empty_frame) /\
  (forall df c,
      In c weather_required -> has_col c df = false ->
      exists missing,
        aggregate_weather_daily df = Raise (ValueError_missing missing) /\
        (forall c', In c' missing <-> In c' weather_required /\ has_col c' df = false)).
Proof.
  split.
  - intros df n m H. unfold calculate_debit_journalier.
    destruct H as [H | [H | H]]; rewrite H; simpl;
      [reflexivity | | ]; rewrite ?Bool.orb_true_r; reflexivity.
  - intros df c Hin Hc.
    exists (filter (fun c => negb (has_col c df)) weather_required).
    split.
    + unfold aggregate_weather_daily.
      destruct (filter (fun c => negb (has_col c df)) weather_required) eqn:E.
      * exfalso. assert (In c (@nil string)) as [].
        rewrite <- E, filter_In, Hc. auto.
      * reflexivity.
    + apply weather_missing_spec. reflexivity.
Qed.

Lemma C1_missing_columns_policy_witness :
  (frame_empty empty_frame = true \/ has_col "compteur_id" empty_frame = false \/
   has_col "date_heure" empty_frame = false) /\
  calculate_debit_journalier empty_frame 50 60 = Ok empty_frame /\
  In "precip" weather_required /\ has_col "precip" weather_no_precip = false /\
  exists missing,
    aggregate_weather_daily weather_no_precip = Raise (ValueError_missing missing) /\
    (forall c', In c' missing <-> In c' weather_required /\ has_col c' weather_no_precip = false).
Proof.
  split; [left; reflexivity |].
  split; [apply (proj1 C1_missing_columns_policy); left; reflexivity |].
  split; [simpl; tauto |].
  split; [reflexivity |].
  apply (proj2 C1_missing_columns_policy weather_no_precip "precip");
    [simpl; tauto | reflexivity].
Defined.

(* ------------------------------------------------------------------ *)
(** ** Public-works sentinels *)

(** C9: on an empty public-works relation [calculate_chantiers_actifs]
    returns the one-row relation [nb_chantiers_actifs = 0] and
    [calculate_score_criticite_chantiers] the one-row relation
    [nb_chantiers = 0, score_criticite = 0.0]; both are non-empty, unlike
    the empty relation that a counter metric such as
    [calculate_debit_journalier] returns on the same input. *)
Theorem C9_empty_works_sentinels :
  forall clk df date_reference,
    frame_empty df = true ->
    calculate_chantiers_actifs clk df date_reference =
      mkFrame ["nb_chantiers_actifs"] [[("nb_chantiers_actifs", VInt 0)]] /\
    calculate_score_criticite_chantiers df =
      mkFrame ["nb_chantiers"; "score_criticite"]
        [[("nb_chantiers", VInt 0); ("score_criticite", VNum 0)]] /\
    frame_empty (calculate_chantiers_actifs clk df date_reference) = false /\
    frame_empty (calculate_score_criticite_chantiers df) = false /\
    calculate_debit_journalier df 50 60 = Ok empty_frame.
Proof.
  intros clk df dr H.
  unfold calculate_chantiers_actifs, calculate_score_criticite_chantiers.
  rewrite H. repeat split.
  unfold calculate_debit_journalier. rewrite H. reflexivity.
Qed.

Lemma C9_empty_works_sentinels_witness :
  frame_empty (mkFrame ["date_debut"; "date_fin"] []) = true /\
  calculate_chantiers_actifs (mkClock 0 0) (mkFrame ["date_debut"; "date_fin"] []) None =
    mkFrame ["nb_chantiers_actifs"] [[("nb_chantiers_actifs", VInt 0)]].
Proof.
  split; [reflexivity |].
  apply (C9_empty_works_sentinels (mkClock 0 0) (mkFrame ["date_debut"; "date_fin"] []) None).
  reflexivity.
Defined.

(* ------------------------------------------------------------------ *)
(** ** Which aggregates [build_kpis] joins *)

(** An aggregate takes part in the join when it is non-empty, is not the
    previous [daily_kpis] result and has a [jour] or [date] column. *)
Definition kpi_source (entry : string * frame) : bool :=
  let '(key, df) := entry in
  negb (frame_empty df) && negb (String.eqb key "daily_kpis") &&
  (has_col "jour" df || has_col "date" df).

Lemma normalize_none (df : frame) :
  normalize df = None <-> has_col "jour" df = false /\ has_col "date" df = false.
Proof.
  unfold normalize.
  destruct (has_col "jour" df) eqn:J; [| destruct (has_col "date" df) eqn:D].
  - destruct (is_datetime_col _ _); split; try discriminate; intros [H _]; discriminate.
  - destruct (is_datetime_col _ _); split; try discriminate; intros [_ H]; discriminate.
  - split; auto.
Qed.

Lemma normalized_aggregates_filter_acc (aggs acc : list (string * frame)) :
  fold_left (fun acc '(key, df) =>
               if frame_empty df || String.eqb key "daily_kpis" then acc
               else match normalize df with
                    | Some d => dict_set key d acc
                    | None => acc
                    end) aggs acc =
  fold_left (fun acc '(key, df) =>
               if frame_empty df || String.eqb key "daily_kpis" then acc
               else match normalize df with
                    | Some d => dict_set key d acc
                    | None => acc
                    end) (filter kpi_source aggs) acc.
Proof.
  revert acc; induction aggs as [| [k df] t IH]; intros acc; simpl; [reflexivity |].
  destruct (frame_empty df) eqn:E; simpl.
  - apply IH.
  - destruct (String.eqb k "daily_kpis") eqn:K; simpl.
    + apply IH.
    + destruct (has_col "jour" df || has_col "date" df) eqn:H; simpl.
      * rewrite E, K. simpl. apply IH.
      * apply Bool.orb_false_iff in H. apply normalize_none in H. rewrite H. apply IH.
Qed.

Lemma normalized_aggregates_filter (aggs : list (string * frame)) :
  normalized_aggregates aggs = normalized_aggregates (filter kpi_source aggs).
Proof. apply normalized_aggregates_filter_acc. Qed.

(** C10: [build_kpis] only joins the aggregates that are non-empty, are
    not stored under [daily_kpis] and have a [jour] or [date] column: the
    others are dropped without trace, and when none qualifies the result
    is the empty relation. *)
Theorem C10_build_kpis_sources :
  forall aggregates,
    build_kpis aggregates = build_kpis (filter kpi_source aggregates) /\
    (forallb (fun e => negb (kpi_source e)) aggregates = true ->
     build_kpis aggregates = empty_frame).
Proof.
  intros aggs. split.
  - unfold build_kpis. rewrite normalized_aggregates_filter. reflexivity.
  - intros H. unfold build_kpis. rewrite normalized_aggregates_filter.
    replace (filter kpi_source aggs) with (@nil (string * frame)); [reflexivity |].
    induction aggs as [| e t IH]; simpl in *; [reflexivity |].
    apply andb_true_iff in H as [H1 H2].
    destruct (kpi_source e); [discriminate | auto].
Qed.

Lemma C10_build_kpis_sources_witness :
  forallb (fun e => negb (kpi_source e))
    [("daily_kpis", weather_no_precip); ("velib_realtime", empty_frame)] = true /\
  build_kpis [("daily_kpis", weather_no_precip); ("velib_realtime", empty_frame)] = empty_frame.
Proof.
  split; [reflexivity |].
  apply (proj2 (C10_build_kpis_sources
                  [("daily_kpis", weather_no_precip); ("velib_realtime", empty_frame)])).
  reflexivity.
Defined.

(* ------------------------------------------------------------------ *)
(** ** The outer join of [build_kpis] on day-keyed aggregates *)

Definition days (df : frame) : list value := map jour (frows df).

(** An aggregate keyed by calendar day: it has a [jour] column, every row
    carries a date there, and no day occurs twice. *)
Definition day_keyed (df : frame) : Prop :=
  In "jour" (fcols df) /\
  Forall (fun r => exists d, jour r = VDate d) (frows df) /\
  NoDup (days df).

(** Key insertion of the merge, on dates. *)
Fixpoint zins (d : Z) (zs : list Z) : list Z :=
  match zs with
  | [] => [d]
  | z :: t => if Z.eqb d z then zs else if Z.ltb d z then d :: zs else z :: zins d t
  end.

Lemma insert_mkey_dates (d : Z) (zs : list Z) :
  insert_mkey (VDate d) (map VDate zs) = map VDate (zins d zs).
Proof.
  induction zs as [| z t IH]; simpl; [reflexivity |].
  unfold key_match, merge_ltb; simpl. rewrite Bool.orb_false_r.
  destruct (Z.eqb d z); [reflexivity |].
  destruct (Z.ltb d z); simpl; [reflexivity | now rewrite IH].
Qed.

Lemma zins_in (d : Z) (zs : list Z) (x : Z) : In x (zins d zs) <-> x = d \/ In x zs.
Proof.
  induction zs as [| z t IH]; simpl.
  - split; intros [H | H]; auto; contradiction.
  - destruct (Z.eqb_spec d z); [subst; simpl; intuition |].
    destruct (Z.ltb d z); simpl; [intuition congruence |]. rewrite IH. intuition congruence.
Qed.

Lemma zins_hd (z d : Z) (t : list Z) : HdRel Z.lt z t -> z < d -> HdRel Z.lt z (zins d t).
Proof.
  intros H Hlt. destruct t as [| y t]; simpl; [constructor; lia |].
  inversion H; subst.
  destruct (Z.eqb d y); [constructor; lia |].
  destruct (Z.ltb d y); constructor; lia.
Qed.

Lemma zins_sorted (d : Z) (zs : list Z) : Sorted Z.lt zs -> Sorted Z.lt (zins d zs).
Proof.
  induction zs as [| z t IH]; intros H; simpl; [repeat constructor |].
  inversion H as [| ? ? Ht Hhd]; subst.
  destruct (Z.eqb_spec d z); [assumption |].
  destruct (Z.ltb_spec d z); [constructor; [assumption | constructor; lia] |].
  constructor; [now apply IH | apply zins_hd; [assumption | lia]].
Qed.

Lemma sorted_lt_nodup (zs : list Z) : Sorted Z.lt zs -> NoDup zs.
Proof.
  intros H. apply Sorted_StronglySorted in H; [| intros ???; lia].
  induction H as [| z t _ IH Hall]; constructor; auto.
  intros Hin. rewrite Forall_forall in Hall. specialize (Hall z Hin). lia.
Qed.

Definition merge_zkeys (zs : list Z) : list Z :=
  fold_left (fun acc z => zins z acc) zs [].

Lemma merge_keys_dates_acc (zs acc : list Z) :
  fold_left (fun acc k => insert_mkey k acc) (map VDate zs) (map VDate acc) =
  map VDate (fold_left (fun acc z => zins z acc) zs acc).
Proof.
  revert acc; induction zs as [| z t IH]; intros acc; simpl; [reflexivity |].
  rewrite insert_mkey_dates. apply IH.
Qed.

Lemma merge_zkeys_spec_acc (zs acc : list Z) :
  Sorted Z.lt acc ->
  Sorted Z.lt (fold_left (fun acc z => zins z acc) zs acc) /\
  (forall x, In x (fold_left (fun acc z => zins z acc) zs acc) <-> In x acc \/ In x zs).
Proof.
  revert acc; induction zs as [| z t IH]; intros acc Hs; simpl.
  - split; [assumption | tauto].
  - destruct (IH (zins z acc) (zins_sorted z acc Hs)) as [H1 H2].
    split; [assumption |]. intros x. rewrite H2, zins_in. simpl. intuition congruence.
Qed.


Lemma dates_as_map (vs : list value) :
  Forall (fun v => exists d, v = VDate d) vs -> vs = map VDate (map date_num vs).
Proof.
  induction 1 as [| v t [d ->] _ IH]; simpl; [reflexivity |]. now rewrite <- IH.
Qed.

Lemma nodup_map_vdate (zs : list Z) : NoDup zs -> NoDup (map VDate zs).
Proof.
  induction 1 as [| z t Hz _ IH]; simpl; constructor; auto.
  intros Hin. apply in_map_iff in Hin as [y [E Hy]]. injection E as ->. contradiction.
Qed.

Lemma merge_keys_dates (vs : list value) :
  Forall (fun v => exists d, v = VDate d) vs ->
  NoDup (merge_keys vs) /\ Forall (fun v => exists d, v = VDate d) (merge_keys vs) /\
  (forall v, In v (merge_keys vs) <-> In v vs).
Proof.
  intros H. rewrite (dates_as_map vs H). unfold merge_keys.
  change (@nil value) with (map VDate (@nil Z)).
  rewrite merge_keys_dates_acc.
  destruct (merge_zkeys_spec_acc (map date_num vs) [] (Sorted_nil _)) as [Hs Hin].
  split; [| split].
  - apply nodup_map_vdate. now apply sorted_lt_nodup.
  - apply Forall_forall. intros v Hv. apply in_map_iff in Hv as [z [<- _]]. eauto.
  - intros v. split.
    + intros Hv. apply in_map_iff in Hv as [z [<- Hz]].
      apply Hin in Hz as [[] | Hz]. now apply in_map.
    + intros Hv. apply in_map_iff in Hv as [z [<- Hz]]. apply in_map. apply Hin. now right.
Qed.

Lemma get_merged_jour (lcols rcols : list string) (rn : string -> string) (l r : option row) :
  In "jour" lcols ->
  jour (merged_row lcols rcols rn l r) =
  match l with Some x => jour x | None => match r with Some x => jour x | None => VNull end end.
Proof.
  intros Hin. unfold merged_row, jour.
  induction lcols as [| c t IH]; [contradiction |].
  cbn [map app]. destruct (String.eqb_spec c "jour") as [-> | Hne]; cbn [get].
  - rewrite String.eqb_refl. destruct l; [reflexivity |]. destruct r; reflexivity.
  - destruct (String.eqb_spec "jour" c); [congruence |].
    apply IH. destruct Hin as [E | H]; [congruence | exact H].
Qed.

Lemma rows_on_spec (d : Z) (rs : list row) :
  Forall (fun r => exists d, jour r = VDate d) rs ->
  forall r, In r (rows_on (VDate d) rs) <-> In r rs /\ jour r = VDate d.
Proof.
  intros Hall r. unfold rows_on. rewrite filter_In.
  split; intros [Hr H]; split; auto;
    rewrite Forall_forall in Hall; destruct (Hall r Hr) as [d' E]; rewrite E in *;
    unfold key_match in *; simpl in *.
  - rewrite Bool.orb_false_r in H. apply Z.eqb_eq in H. now subst.
  - injection H as ->. now rewrite Z.eqb_refl.
Qed.

Lemma rows_on_at_most_one (d : Z) (rs : list row) :
  Forall (fun r => exists d, jour r = VDate d) rs -> NoDup (map jour rs) ->
  rows_on (VDate d) rs = [] \/ exists r, rows_on (VDate d) rs = [r] /\ jour r = VDate d.
Proof.
  induction rs as [| x t IH]; intros Hall Hnd; [now left |].
  inversion Hall as [| ? ? [dx Ex] Ht]; subst. inversion Hnd as [| ? ? Hx Hndt]; subst.
  change (rows_on (VDate d) (x :: t)) with
    (if key_match (jour x) (VDate d) then x :: rows_on (VDate d) t else rows_on (VDate d) t).
  rewrite Ex. unfold key_match. cbn [value_eqb is_null andb]. rewrite Bool.orb_false_r.
  destruct (Z.eqb_spec dx d) as [-> | Hne].
  - right. exists x. split; [| exact Ex]. f_equal.
    destruct (rows_on (VDate d) t) as [| y u] eqn:F; [reflexivity | exfalso].
    assert (Hy : In y (rows_on (VDate d) t)) by (rewrite F; now left).
    apply (rows_on_spec d t Ht) in Hy as [Hy Ey]. apply Hx. rewrite Ex, <- Ey.
    now apply in_map.
  - apply IH; assumption.
Qed.

Lemma combine_on_days (lcols rcols : list string) (rn : string -> string)
  (k : value) (ls rs : list row) :
  In "jour" lcols ->
  (ls = [] \/ exists l, ls = [l] /\ jour l = k) ->
  (rs = [] \/ exists r, rs = [r] /\ jour r = k) ->
  (ls <> [] \/ rs <> []) ->
  map jour (combine_on lcols rcols rn ls rs) = [k].
Proof.
  intros Hj Hl Hr Hne.
  destruct Hl as [-> | [l [-> El]]]; destruct Hr as [-> | [r [-> Er]]]; simpl;
    rewrite ?get_merged_jour by exact Hj; try congruence.
  destruct Hne as [[] | []]; reflexivity.
Qed.

Lemma flat_map_singletons (g : value -> list value) (ks : list value) :
  Forall (fun k => g k = [k]) ks -> flat_map g ks = ks.
Proof. induction 1 as [| k t E _ IH]; simpl; [reflexivity | now rewrite E, IH]. Qed.

Lemma map_flat_map' {A B C : Type} (f : B -> C) (g : A -> list B) (l : list A) :
  map f (flat_map g l) = flat_map (fun x => map f (g x)) l.
Proof. induction l as [| x t IH]; simpl; [reflexivity | now rewrite map_app, IH]. Qed.

Lemma days_dates (df : frame) :
  Forall (fun r => exists d, jour r = VDate d) (frows df) <->
  Forall (fun v => exists d, v = VDate d) (days df).
Proof. unfold days. now rewrite Forall_map. Qed.

(** One step of the join keeps the table day-keyed and its days are the
    union of the days of both sides. *)
Lemma merge_outer_day_keyed (left right : frame) (key : string) :
  day_keyed left -> day_keyed right ->
  day_keyed (merge_outer left right key) /\
  (forall v, In v (days (merge_outer left right key)) <-> In v (days left) \/ In v (days right)).
Proof.
  intros [Jl [Dl Nl]] [Jr [Dr Nr]].
  assert (Dall : Forall (fun v => exists d, v = VDate d) (days left ++ days right))
    by (apply Forall_app; split; now apply days_dates).
  destruct (merge_keys_dates _ Dall) as [Nk [Dk Ik]].
  assert (Hdays : days (merge_outer left right key) =
                  merge_keys (map jour (frows left) ++ map jour (frows right))).
  { unfold days, merge_outer. simpl. rewrite map_flat_map'.
    apply flat_map_singletons. unfold days in Dk, Ik.
    apply Forall_forall. intros k Hk.
    pose proof (proj1 (Ik k) Hk) as Hk'.
    rewrite Forall_forall in Dk. destruct (Dk k Hk) as [d ->].
    apply combine_on_days; [exact Jl | | | ].
    - destruct (rows_on_at_most_one d _ Dl Nl) as [E | [l [E El]]]; rewrite E; eauto.
    - destruct (rows_on_at_most_one d _ Dr Nr) as [E | [r [E Er]]]; rewrite E; eauto.
    - apply in_app_or in Hk' as [H | H]; apply in_map_iff in H as [r [Er Hr]].
      + left. intros E. assert (Hin : In r (rows_on (VDate d) (frows left)))
          by (apply rows_on_spec; auto). rewrite E in Hin. exact Hin.
      + right. intros E. assert (Hin : In r (rows_on (VDate d) (frows right)))
          by (apply rows_on_spec; auto). rewrite E in Hin. exact Hin. }
  split; [split; [| split] |].
  - unfold merge_outer. simpl. apply in_or_app. now left.
  - apply days_dates. rewrite Hdays. exact Dk.
  - rewrite Hdays. exact Nk.
  - intros v. rewrite Hdays, Ik. unfold days. split; [apply in_app_or | apply in_or_app].
Qed.

(** The entries that the normalisation loop keeps. *)
Definition norm_entry (e : string * frame) : list (string * frame) :=
  let '(key, df) := e in
  if frame_empty df || String.eqb key "daily_kpis" then []
  else match normalize df with Some d => [(key, d)] | None => [] end.

Lemma dict_set_fresh {A : Type} (k : string) (v : A) (d : list (string * A)) :
  ~ In k (map fst d) -> dict_set k v d = d ++ [(k, v)].
Proof.
  induction d as [| [k' v'] t IH]; simpl; intros H; [reflexivity |].
  destruct (String.eqb_spec k k'); [subst; tauto |]. f_equal. apply IH. tauto.
Qed.

Lemma norm_entry_keys (aggs : list (string * frame)) (k : string) :
  In k (map fst (flat_map norm_entry aggs)) -> In k (map fst aggs).
Proof.
  induction aggs as [| [k' df] t IH]; simpl; [tauto |].
  rewrite map_app, in_app_iff. intros [H | H]; [| right; auto].
  left. destruct (frame_empty df || String.eqb k' "daily_kpis"); [contradiction |].
  destruct (normalize df); simpl in H; tauto.
Qed.

Lemma norm_entry_nodup (aggs : list (string * frame)) :
  NoDup (map fst aggs) -> NoDup (map fst (flat_map norm_entry aggs)).
Proof.
  induction aggs as [| [k df] t IH]; simpl; intros H; [constructor |].
  inversion H as [| ? ? Hk Ht]; subst. rewrite map_app.
  destruct (frame_empty df || String.eqb k "daily_kpis"); simpl; [auto |].
  destruct (normalize df); simpl; [| auto].
  constructor; [| auto]. intros Hin. apply Hk. now apply norm_entry_keys.
Qed.

Lemma normalized_aggregates_acc (aggs acc : list (string * frame)) :
  NoDup (map fst acc ++ map fst aggs) ->
  fold_left (fun acc '(key, df) =>
               if frame_empty df || String.eqb key "daily_kpis" then acc
               else match normalize df with
                    | Some d => dict_set key d acc
                    | None => acc
                    end) aggs acc = acc ++ flat_map norm_entry aggs.
Proof.
  revert acc; induction aggs as [| [k df] t IH]; intros acc Hnd; simpl.
  - now rewrite app_nil_r.
  - destruct (frame_empty df || String.eqb k "daily_kpis"); simpl.
    + apply IH. now apply NoDup_remove_1 in Hnd.
    + destruct (normalize df) as [d |]; simpl.
      * rewrite dict_set_fresh.
        -- rewrite IH, <- app_assoc; [reflexivity |].
           rewrite map_app, <- app_assoc. exact Hnd.
        -- intros Hin. apply NoDup_remove_2 in Hnd. apply Hnd. apply in_or_app. now left.
      * apply IH. now apply NoDup_remove_1 in Hnd.
Qed.

Lemma normalized_aggregates_eq (aggs : list (string * frame)) :
  NoDup (map fst aggs) -> normalized_aggregates aggs = flat_map norm_entry aggs.
Proof. intros H. unfold normalized_aggregates. now rewrite normalized_aggregates_acc. Qed.

Lemma in_norm_entry (aggs : list (string * frame)) (k : string) (n : frame) :
  In (k, n) (flat_map norm_entry aggs) <->
  exists df, In (k, df) aggs /\ frame_empty df = false /\
             String.eqb k "daily_kpis" = false /\ normalize df = Some n.
Proof.
  rewrite in_flat_map. split.
  - intros [[k' df] [Hin H]]. simpl in H. exists df.
    destruct (frame_empty df) eqn:E; simpl in H; [contradiction |].
    destruct (String.eqb k' "daily_kpis") eqn:K; [contradiction |].
    destruct (normalize df) eqn:N; simpl in H; [| contradiction].
    destruct H as [H | []]. injection H as -> ->. auto.
  - intros [df [Hin [E [K N]]]]. exists (k, df). split; [exact Hin |].
    simpl. rewrite E, K, N. now left.
Qed.

(** Joining the remaining aggregates into a day-keyed base. *)
Lemma fold_merge_day_keyed (rest : list (string * frame)) (base : frame) :
  day_keyed base -> Forall (fun e => day_keyed (snd e)) rest ->
  day_keyed (fold_left (fun b '(key, df) => merge_outer b df key) rest base) /\
  (forall v, In v (days (fold_left (fun b '(key, df) => merge_outer b df key) rest base)) <->
             In v (days base) \/ exists k n, In (k, n) rest /\ In v (days n)).
Proof.
  revert base; induction rest as [| [k n] t IH]; intros base Hb Hr; simpl.
  - split; [exact Hb |]. intros v. split; [tauto |]. intros [H | [? [? [[] _]]]]. exact H.
  - inversion Hr as [| ? ? Hn Ht]; subst. simpl in Hn.
    destruct (merge_outer_day_keyed base n k Hb Hn) as [Hm Im].
    destruct (IH _ Hm Ht) as [H1 H2]. split; [exact H1 |].
    intros v. rewrite H2, Im. split.
    + intros [[H | H] | [k' [n' [Hin H]]]]; [left; exact H | | ].
      * right. exists k, n. auto.
      * right. exists k', n'. auto.
    + intros [H | [k' [n' [[E | Hin] H]]]]; [left; left; exact H | | ].
      * injection E as -> ->. left. right. exact H.
      * right. exists k', n'. auto.
Qed.

Lemma fold_skip_first (first_key : string) (rest : list (string * frame)) (base : frame) :
  ~ In first_key (map fst rest) ->
  fold_left (fun base_df '(key, df) =>
               if String.eqb key first_key then base_df else merge_outer base_df df key)
            rest base =
  fold_left (fun b '(key, df) => merge_outer b df key) rest base.
Proof.
  revert base; induction rest as [| [k n] t IH]; intros base H; simpl; [reflexivity |].
  simpl in H. destruct (String.eqb_spec k first_key); [subst; tauto |]. apply IH. tauto.
Qed.

Lemma firstn_merged_none (lcols rcols : list string) (rn : string -> string) (r : option row) :
  Forall (fun cv => fst cv = "jour" \/ snd cv = VNull)
         (firstn (length lcols) (merged_row lcols rcols rn None r)).
Proof.
  induction lcols as [| c t IH]; simpl; [constructor |].
  constructor; [| exact IH].
  destruct (String.eqb_spec c "jour"); simpl; auto.
Qed.

Lemma skipn_merged_none (lcols rcols : list string) (rn : string -> string) (l : option row) :
  Forall (fun cv => snd cv = VNull) (skipn (length lcols) (merged_row lcols rcols rn l None)).
Proof.
  induction lcols as [| c t IH]; simpl; [| exact IH].
  apply Forall_map. apply Forall_forall. reflexivity.
Qed.

(** In one join step, a row whose day is missing from one side carries
    nulls in every column that comes from that side. *)
Lemma merge_outer_null_padding (left right : frame) (key : string) :
  day_keyed left -> day_keyed right ->
  forall r, In r (frows (merge_outer left right key)) ->
    (~ In (jour r) (days right) ->
     Forall (fun cv => snd cv = VNull) (skipn (length (fcols left)) r)) /\
    (~ In (jour r) (days left) ->
     Forall (fun cv => fst cv = "jour" \/ snd cv = VNull) (firstn (length (fcols left)) r)).
Proof.
  intros [Jl [Dl Nl]] [Jr [Dr Nr]] r Hr.
  assert (Dall : Forall (fun v => exists d, v = VDate d) (days left ++ days right))
    by (apply Forall_app; split; now apply days_dates).
  destruct (merge_keys_dates _ Dall) as [_ [Dk _]].
  unfold merge_outer in Hr. simpl in Hr. apply in_flat_map in Hr as [k [Hk Hr]].
  rewrite Forall_forall in Dk. destruct (Dk k Hk) as [d ->].
  assert (InL : forall l, In l (rows_on (VDate d) (frows left)) -> In (jour l) (days left))
    by (intros l Hl; apply (rows_on_spec d _ Dl) in Hl as [Hl _]; now apply in_map).
  assert (InR : forall x, In x (rows_on (VDate d) (frows right)) -> In (jour x) (days right))
    by (intros x Hx; apply (rows_on_spec d _ Dr) in Hx as [Hx _]; now apply in_map).
  assert (EqL : forall l, In l (rows_on (VDate d) (frows left)) -> jour l = VDate d)
    by (intros l Hl; now apply (rows_on_spec d _ Dl) in Hl as [_ Hl]).
  assert (EqR : forall x, In x (rows_on (VDate d) (frows right)) -> jour x = VDate d)
    by (intros x Hx; now apply (rows_on_spec d _ Dr) in Hx as [_ Hx]).
  unfold combine_on in Hr.
  destruct (rows_on (VDate d) (frows left)) as [| l ls] eqn:EL;
    destruct (rows_on (VDate d) (frows right)) as [| x xs] eqn:ER.
  - contradiction.
  - apply in_map_iff in Hr as [x0 [<- Hx0]].
    rewrite get_merged_jour by exact Jl.
    split; [intros H; exfalso; apply H; now apply InR | intros _; apply firstn_merged_none].
  - apply in_map_iff in Hr as [l0 [<- Hl0]].
    rewrite get_merged_jour by exact Jl.
    split; [intros _; apply skipn_merged_none | intros H; exfalso; apply H; now apply InL].
  - apply in_flat_map in Hr as [l0 [Hl0 Hr]]. apply in_map_iff in Hr as [x0 [<- Hx0]].
    rewrite get_merged_jour by exact Jl.
    split; intros H; exfalso; apply H.
    + rewrite (EqL l0 Hl0), <- (EqR x0 Hx0). now apply InR.
    + now apply InL.
Qed.

Lemma normalize_shape (df n : frame) :
  normalize df = Some n ->
  length (frows n) = length (frows df) /\
  fcols n = map (fun c => if has_col "jour" df then c
                          else if String.eqb c "date" then "jour" else c) (fcols df).
Proof.
  unfold normalize. intros H.
  destruct (has_col "jour" df) eqn:J; [| destruct (has_col "date" df) eqn:D].
  - destruct (is_datetime_col "jour" df); injection H as <-; simpl;
      rewrite ?length_map; split; auto; symmetry; apply map_id.
  - destruct (is_datetime_col "jour" (rename_col "date" "jour" df));
      injection H as <-; simpl; rewrite ?length_map; split; auto.
  - discriminate.
Qed.

(** Two aggregates as [_build_aggregates] produces them: validations per
    day and per line (two rows for the same day) and the weather of that
    day. *)
Definition validations_two_lines : frame :=
  mkFrame ["date"; "code_ligne"; "nb_validations"]
    [[("date", VDate 20089); ("code_ligne", VStr "A"); ("nb_validations", VInt 100)];
     [("date", VDate 20089); ("code_ligne", VStr "B"); ("nb_validations", VInt 50)]].

Definition weather_one_day : frame :=
  mkFrame ["jour"; "temperature_max"]
    [[("jour", VTime (20089 * 86400)); ("temperature_max", VNum 8)]].

(** C6 (counterexample): a day present twice in one aggregate (two lines
    of validations on 2025-01-01) gives two rows for that day in the
    merged table, not one; and a single aggregate stored under
    [daily_kpis] is not returned, the result is empty. *)
Lemma C6_join_repeats_days :
  days (build_kpis [("validations_daily", validations_two_lines);
                    ("weather_daily", weather_one_day)]) = [VDate 20089; VDate 20089] /\
  build_kpis [("daily_kpis", validations_two_lines)] = empty_frame /\
  length (frows validations_two_lines) = 2%nat.
Proof. split; [| split]; vm_compute; reflexivity. Qed.

(** The column blocks of the joined table: all the columns of the first
    aggregate, then the non-key columns of each later one, in join order. *)
Definition kpi_blocks (ns : list frame) : list nat :=
  match ns with
  | [] => []
  | n0 :: rest =>
      length (fcols n0) ::
      map (fun n => length (filter (fun c => negb (String.eqb c "jour")) (fcols n))) rest
  end.

(** A row cut into consecutive blocks of the given lengths. *)
Fixpoint split_blocks (ls : list nat) (r : row) : list row :=
  match ls with
  | [] => []
  | l :: t => firstn l r :: split_blocks t (skipn l r)
  end.

Definition sum_nat (ls : list nat) : nat := fold_right Nat.add 0%nat ls.

Lemma split_blocks_app (ls : list nat) (m : nat) (x y : row) :
  length x = sum_nat ls ->
  split_blocks (ls ++ [m]) (x ++ y) = split_blocks ls x ++ [firstn m y].
Proof.
  revert x; induction ls as [| l t IH]; intros x Hx; simpl in *.
  - destruct x; [reflexivity | discriminate].
  - rewrite firstn_app, skipn_app.
    replace (l - length x)%nat with 0%nat by lia. rewrite firstn_O, app_nil_r.
    replace (l - length x)%nat with 0%nat by lia. rewrite skipn_O.
    f_equal. apply IH. rewrite length_skipn. lia.
Qed.

Lemma split_blocks_length (ls : list nat) (x : row) : length (split_blocks ls x) = length ls.
Proof. revert x; induction ls; intros x; simpl; auto. Qed.

Lemma split_blocks_incl (ls : list nat) (x : row) (i : nat) cv :
  In cv (nth i (split_blocks ls x) []) -> In cv x.
Proof.
  revert x i; induction ls as [| l t IH]; intros x i H; simpl in H.
  - destruct i; contradiction.
  - destruct i as [| i].
    + rewrite <- (firstn_skipn l x). apply in_or_app. now left.
    + apply IH in H. rewrite <- (firstn_skipn l x). apply in_or_app. now right.
Qed.

Lemma kpi_blocks_snoc (ns : list frame) (n : frame) :
  ns <> [] ->
  kpi_blocks (ns ++ [n]) =
  kpi_blocks ns ++ [length (filter (fun c => negb (String.eqb c "jour")) (fcols n))].
Proof. destruct ns as [| n0 t]; [congruence |]. intros _. simpl. now rewrite map_app. Qed.

Lemma kpi_blocks_length (ns : list frame) : length (kpi_blocks ns) = length ns.
Proof. destruct ns; simpl; rewrite ?length_map; reflexivity. Qed.

Lemma get_aligned (l : row) :
  NoDup (map fst l) -> map (fun c => (c, get l c)) (map fst l) = l.
Proof.
  induction l as [| [c v] t IH]; intros H; simpl; [reflexivity |].
  inversion H as [| ? ? Hc Ht]; subst.
  rewrite String.eqb_refl. f_equal. rewrite <- IH at 2 by exact Ht.
  apply map_ext_in. intros c' Hc'. destruct (String.eqb_spec c' c); [subst; contradiction |].
  reflexivity.
Qed.

Lemma merged_row_cols (lcols rcols : list string) (rn : string -> string) (l r : option row) :
  map fst (merged_row lcols rcols rn l r) =
  lcols ++ map rn (filter (fun c => negb (String.eqb c "jour")) rcols).
Proof.
  unfold merged_row. rewrite map_app, !map_map. f_equal.
  rewrite <- (map_id lcols) at 2.
  apply map_ext. intros c. destruct (String.eqb c "jour"); reflexivity.
Qed.

Lemma merged_row_left (l : row) (rcols : list string) (rn : string -> string) (r : option row) :
  NoDup (map fst l) ->
  merged_row (map fst l) rcols rn (Some l) r =
  l ++ map (fun c => (rn c, match r with Some x => get x c | None => VNull end))
           (filter (fun c => negb (String.eqb c "jour")) rcols).
Proof.
  intros H. unfold merged_row. f_equal.
  transitivity (map (fun c => (c, get l c)) (map fst l)); [| exact (get_aligned l H)].
  apply map_ext. intros c.
  destruct (String.eqb_spec c "jour") as [-> | _]; reflexivity.
Qed.

Lemma merged_row_none_left (lcols rcols : list string) (rn : string -> string) (r : option row) :
  Forall (fun cv => fst cv = "jour" \/ snd cv = VNull)
    (firstn (length lcols) (merged_row lcols rcols rn None r)) /\
  firstn (length lcols) (merged_row lcols rcols rn None r) =
    map (fun c => (c, if String.eqb c "jour" then match r with Some x => get x "jour" | None => VNull end
                      else VNull)) lcols.
Proof.
  split; [apply firstn_merged_none |].
  unfold merged_row. rewrite firstn_app, length_map, Nat.sub_diag, firstn_O, app_nil_r.
  rewrite firstn_all2 by (rewrite length_map; lia).
  apply map_ext. intros c. destruct (String.eqb c "jour"); reflexivity.
Qed.

Lemma jour_not_suffixed (c key : string) : (c ++ "_" ++ key)%string <> "jour".
Proof.
  intros H.
  do 4 (destruct c as [| ? c]; [discriminate | injection H as _ H]).
  destruct c; discriminate.
Qed.

Lemma in_skipn_pairs {B : Type} (g : string -> B) (k : nat) (l : list string) (cv : string * B) :
  In cv (skipn k (map (fun c => (c, g c)) l)) -> In (fst cv) (skipn k l).
Proof.
  revert l; induction k as [| k IH]; intros l H; simpl in *.
  - apply in_map_iff in H as [c [<- Hc]]. exact Hc.
  - destruct l as [| c t]; [contradiction |]. exact (IH t H).
Qed.

Lemma sum_nat_app (a b : list nat) : sum_nat (a ++ b) = (sum_nat a + sum_nat b)%nat.
Proof. induction a as [| x t IH]; simpl; [reflexivity | rewrite IH; lia]. Qed.

Lemma nodup_app_l {A : Type} (a b : list A) : NoDup (a ++ b) -> NoDup a.
Proof.
  induction a as [| x t IH]; simpl; intros H; [constructor |].
  inversion H as [| ? ? Hx Ht]; subst. constructor; [| auto].
  intros Hin. apply Hx. apply in_or_app. now left.
Qed.

(** What the join keeps along the aggregates [n0 :: rest] already joined:
    the table is day-keyed, its columns are laid out in the blocks of
    [kpi_blocks], the key column lies in the first block, and a row whose
    day is missing from one of the joined aggregates is aligned with the
    columns and carries nulls in that aggregate's block. *)
Definition pad_inv (acc n0 : frame) (rest : list frame) : Prop :=
  day_keyed acc /\
  length (fcols acc) = sum_nat (kpi_blocks (n0 :: rest)) /\
  ~ In "jour" (skipn (length (fcols n0)) (fcols acc)) /\
  forall r, In r (frows acc) -> forall i n, nth_error (n0 :: rest) i = Some n ->
    ~ In (jour r) (days n) ->
    map fst r = fcols acc /\
    Forall (fun cv => snd cv = VNull \/ (i = 0%nat /\ fst cv = "jour"))
           (nth i (split_blocks (kpi_blocks (n0 :: rest)) r) []).

Lemma pad_inv_base (n0 : frame) : day_keyed n0 -> pad_inv n0 n0 [].
Proof.
  intros Hd. split; [exact Hd | split; [simpl; lia | split]].
  - rewrite skipn_all. intros [].
  - intros r Hr i n Hi Hn. exfalso.
    destruct i as [| [| i]]; simpl in Hi; try discriminate.
    injection Hi as <-. apply Hn. now apply in_map.
Qed.

Lemma pad_inv_step (acc n0 : frame) (rest : list frame) (n : frame) (key : string) :
  pad_inv acc n0 rest -> day_keyed n -> NoDup (fcols (merge_outer acc n key)) ->
  pad_inv (merge_outer acc n key) n0 (rest ++ [n]).
Proof.
  intros (Hdk & Hlen & Hj & Hrows) Hn Hnd.
  set (rn := fun c => if existsb (String.eqb c) (fcols acc) then (c ++ "_" ++ key)%string else c).
  set (R := filter (fun c => negb (String.eqb c "jour")) (fcols n)).
  assert (Hcols : fcols (merge_outer acc n key) = fcols acc ++ map rn R) by reflexivity.
  assert (HndL : NoDup (fcols acc)) by (rewrite Hcols in Hnd; exact (nodup_app_l _ _ Hnd)).
  assert (HjR : ~ In "jour" (map rn R)).
  { intros Hin. apply in_map_iff in Hin as [c [Ec Hc]]. unfold R in Hc.
    apply filter_In in Hc as [_ Hc]. unfold rn in Ec.
    destruct (existsb _ _).
    - exact (jour_not_suffixed c key Ec).
    - subst c. rewrite String.eqb_refl in Hc. discriminate. }
  assert (HB : kpi_blocks (n0 :: rest ++ [n]) = kpi_blocks (n0 :: rest) ++ [length R])
    by (rewrite app_comm_cons; apply kpi_blocks_snoc; discriminate).
  assert (Hle : (length (fcols n0) <= length (fcols acc))%nat) by (rewrite Hlen; simpl; lia).
  destruct Hdk as [Jl [Dl Nl]]. pose proof Hn as [Jr [Dr Nr]].
  split; [| split; [| split]].
  - apply merge_outer_day_keyed; [split; auto | exact Hn].
  - rewrite Hcols, length_app, length_map, HB, sum_nat_app, Hlen. simpl. lia.
  - rewrite Hcols, skipn_app.
    replace (length (fcols n0) - length (fcols acc))%nat with 0%nat by lia.
    rewrite skipn_O. intros Hin. apply in_app_or in Hin as [H | H]; [exact (Hj H) | exact (HjR H)].
  - intros r Hr i m Hi Hnot.
    assert (Dall : Forall (fun v => exists d, v = VDate d) (days acc ++ days n))
      by (apply Forall_app; split; now apply days_dates).
    destruct (merge_keys_dates _ Dall) as [_ [Dk _]].
    unfold merge_outer in Hr. cbn [frows] in Hr. apply in_flat_map in Hr as [k [Hk Hr]].
    rewrite Forall_forall in Dk. destruct (Dk k Hk) as [d ->].
    assert (Hal : map fst r = fcols (merge_outer acc n key)).
    { unfold combine_on in Hr.
      destruct (rows_on (VDate d) (frows acc)), (rows_on (VDate d) (frows n));
        try contradiction;
        repeat match goal with
               | H : In _ (map _ _) |- _ => apply in_map_iff in H as [? [<- _]]
               | H : In _ (flat_map _ _) |- _ => apply in_flat_map in H as [? [_ H]]
               end;
        apply merged_row_cols. }
    split; [exact Hal |].
    assert (HX : r = firstn (length (fcols acc)) r ++ skipn (length (fcols acc)) r)
      by (symmetry; apply firstn_skipn).
    assert (HXl : length (firstn (length (fcols acc)) r) = sum_nat (kpi_blocks (n0 :: rest))).
    { rewrite length_firstn, <- Hlen. apply Nat.min_l.
      rewrite <- (length_map fst r), Hal, Hcols, length_app. lia. }
    assert (Hsplit : split_blocks (kpi_blocks (n0 :: rest ++ [n])) r =
                     split_blocks (kpi_blocks (n0 :: rest)) (firstn (length (fcols acc)) r) ++
                     [firstn (length R) (skipn (length (fcols acc)) r)]).
    { rewrite HB, HX at 1. apply split_blocks_app. exact HXl. }
    assert (HlenS : length (split_blocks (kpi_blocks (n0 :: rest)) (firstn (length (fcols acc)) r))
                    = length (n0 :: rest))
      by (rewrite split_blocks_length; apply kpi_blocks_length).
    assert (Hcase : (i < length (n0 :: rest) /\ nth_error (n0 :: rest) i = Some m)%nat \/
                    (i = length (n0 :: rest) /\ m = n)).
    { destruct (Nat.lt_ge_cases i (length (n0 :: rest))) as [Hlt | Hge].
      - left. split; [exact Hlt |]. rewrite app_comm_cons, nth_error_app1 in Hi by exact Hlt. exact Hi.
      - right. rewrite app_comm_cons, nth_error_app2 in Hi by exact Hge.
        destruct (i - length (n0 :: rest))%nat as [| j] eqn:E; [| destruct j; discriminate].
        injection Hi as <-. split; [lia | reflexivity]. }
    rewrite Hsplit.
    assert (InR : forall x, In x (rows_on (VDate d) (frows n)) -> In (jour x) (days n))
      by (intros x Hx; apply (rows_on_spec d _ Dr) in Hx as [Hx _]; now apply in_map).
    assert (EqL : forall l, In l (rows_on (VDate d) (frows acc)) -> jour l = VDate d)
      by (intros l Hl; now apply (rows_on_spec d _ Dl) in Hl as [_ Hl]).
    assert (EqR : forall x, In x (rows_on (VDate d) (frows n)) -> jour x = VDate d)
      by (intros x Hx; now apply (rows_on_spec d _ Dr) in Hx as [_ Hx]).
    assert (InAcc : forall l, In l (rows_on (VDate d) (frows acc)) -> In l (frows acc))
      by (intros l Hl; now apply (rows_on_spec d _ Dl) in Hl as [Hl _]).
    (* The right block, and the left blocks when the left row is missing. *)
    assert (Hleft_none : forall ro, r = merged_row (fcols acc) (fcols n) rn None ro ->
              (i < length (n0 :: rest))%nat ->
              Forall (fun cv => snd cv = VNull \/ (i = 0%nat /\ fst cv = "jour"))
                     (nth i (split_blocks (kpi_blocks (n0 :: rest)) (firstn (length (fcols acc)) r) ++
                             [firstn (length R) (skipn (length (fcols acc)) r)]) [])).
    { intros ro Er Hlt. rewrite app_nth1 by lia.
      destruct (merged_row_none_left (fcols acc) (fcols n) rn ro) as [HF HE].
      rewrite <- Er in HF, HE.
      apply Forall_forall. intros cv Hcv.
      assert (Hin := split_blocks_incl _ _ _ _ Hcv).
      rewrite Forall_forall in HF. destruct (HF cv Hin) as [Hjc | Hnull]; [| now left].
      destruct i as [| i]; [right; now split |].
      exfalso. simpl in Hcv. apply split_blocks_incl in Hcv.
      rewrite HE in Hcv. apply Hj. rewrite <- Hjc.
      apply (in_skipn_pairs _ _ _ _ Hcv). }
    assert (Hleft_some : forall l0 ro, In l0 (rows_on (VDate d) (frows acc)) ->
              r = merged_row (fcols acc) (fcols n) rn (Some l0) ro ->
              (i < length (n0 :: rest))%nat -> nth_error (n0 :: rest) i = Some m ->
              Forall (fun cv => snd cv = VNull \/ (i = 0%nat /\ fst cv = "jour"))
                     (nth i (split_blocks (kpi_blocks (n0 :: rest)) (firstn (length (fcols acc)) r) ++
                             [firstn (length R) (skipn (length (fcols acc)) r)]) [])).
    { intros l0 ro Hl0 Er Hlt Hi'.
      assert (Hj0 : jour r = jour l0) by (rewrite Er, get_merged_jour by exact Jl; reflexivity).
      rewrite Hj0 in Hnot.
      destruct (Hrows l0 (InAcc l0 Hl0) i m Hi' Hnot) as [Hfl Hbl].
      assert (Hfirst : firstn (length (fcols acc)) r = l0).
      { rewrite Er. rewrite <- Hfl. rewrite merged_row_left by (rewrite Hfl; exact HndL).
        rewrite length_map, firstn_app, Nat.sub_diag, firstn_O, app_nil_r. apply firstn_all. }
      rewrite Hfirst. rewrite app_nth1; [exact Hbl |].
      rewrite split_blocks_length, kpi_blocks_length. exact Hlt. }
    assert (Hlast : Forall (fun cv => snd cv = VNull) (skipn (length (fcols acc)) r) ->
              Forall (fun cv => snd cv = VNull \/ (i = 0%nat /\ fst cv = "jour"))
                     (nth (length (n0 :: rest))
                          (split_blocks (kpi_blocks (n0 :: rest)) (firstn (length (fcols acc)) r) ++
                           [firstn (length R) (skipn (length (fcols acc)) r)]) [])).
    { intros HF. rewrite app_nth2 by lia. rewrite HlenS, Nat.sub_diag. cbn [nth].
      apply Forall_forall. intros cv Hcv. left.
      rewrite Forall_forall in HF. apply HF.
      rewrite <- (firstn_skipn (length R) (skipn (length (fcols acc)) r)).
      apply in_or_app. now left. }
    unfold combine_on in Hr.
    destruct (rows_on (VDate d) (frows acc)) as [| l ls] eqn:EL;
    destruct (rows_on (VDate d) (frows n)) as [| x xs] eqn:ER.
    + contradiction.
    + apply in_map_iff in Hr as [x0 [Er Hx0]].
      destruct Hcase as [[Hlt _] | [-> ->]].
      * exact (Hleft_none (Some x0) (eq_sym Er) Hlt).
      * exfalso. apply Hnot. rewrite <- Er, get_merged_jour by exact Jl. apply InR. exact Hx0.
    + apply in_map_iff in Hr as [l0 [Er Hl0]].
      destruct Hcase as [[Hlt Hi'] | [-> ->]].
      * exact (Hleft_some l0 None Hl0 (eq_sym Er) Hlt Hi').
      * apply Hlast. rewrite <- Er. apply skipn_merged_none.
    + apply in_flat_map in Hr as [l0 [Hl0 Hr]]. apply in_map_iff in Hr as [x0 [Er Hx0]].
      destruct Hcase as [[Hlt Hi'] | [-> ->]].
      * exact (Hleft_some l0 (Some x0) Hl0 (eq_sym Er) Hlt Hi').
      * exfalso. apply Hnot. rewrite <- Er, get_merged_jour by exact Jl.
        rewrite (EqL l0 Hl0), <- (EqR x0 Hx0). apply InR. exact Hx0.
Qed.

Lemma fold_merge_cols (rest : list (string * frame)) (acc : frame) :
  exists s, fcols (fold_left (fun b '(key, df) => merge_outer b df key) rest acc) = fcols acc ++ s.
Proof.
  revert acc; induction rest as [| [k n] t IH]; intros acc; simpl.
  - exists []. now rewrite app_nil_r.
  - destruct (IH (merge_outer acc n k)) as [s Hs]. rewrite Hs.
    eexists. unfold merge_outer. cbn [fcols]. rewrite <- app_assoc. reflexivity.
Qed.

Lemma pad_inv_fold (rest0 : list (string * frame)) (acc n0 : frame) (rest : list frame) :
  pad_inv acc n0 rest -> Forall (fun e => day_keyed (snd e)) rest0 ->
  NoDup (fcols (fold_left (fun b '(key, df) => merge_outer b df key) rest0 acc)) ->
  pad_inv (fold_left (fun b '(key, df) => merge_outer b df key) rest0 acc) n0 (rest ++ map snd rest0).
Proof.
  revert acc rest; induction rest0 as [| [k n] t IH]; intros acc rest Hp Hd Hnd; simpl in *.
  - now rewrite app_nil_r.
  - inversion Hd as [| ? ? Hn Ht]; subst. simpl in Hn.
    replace (rest ++ n :: map snd t) with ((rest ++ [n]) ++ map snd t) by now rewrite <- app_assoc.
    apply IH; [| exact Ht | exact Hnd].
    apply pad_inv_step; [exact Hp | exact Hn |].
    destruct (fold_merge_cols t (merge_outer acc n k)) as [s Hs].
    rewrite Hs in Hnd. exact (nodup_app_l _ _ Hnd).
Qed.

Lemma build_kpis_null_padding :
  forall aggregates,
    NoDup (map fst aggregates) ->
    (forall key df n, In (key, df) aggregates -> normalize df = Some n -> day_keyed n) ->
    NoDup (fcols (build_kpis aggregates)) ->
    forall r, In r (frows (build_kpis aggregates)) ->
    forall i n, nth_error (map snd (normalized_aggregates aggregates)) i = Some n ->
      ~ In (jour r) (days n) ->
      map fst r = fcols (build_kpis aggregates) /\
      Forall (fun cv => snd cv = VNull \/ (i = 0%nat /\ fst cv = "jour"))
             (nth i (split_blocks (kpi_blocks (map snd (normalized_aggregates aggregates))) r) []).
Proof.
  intros aggs Hnd Hdk Hcols r Hr i n Hi Hnot.
  assert (Hall : forall k n, In (k, n) (flat_map norm_entry aggs) -> day_keyed n).
  { intros k m Hin. apply in_norm_entry in Hin as [df [Hin [_ [_ N]]]]. eauto. }
  assert (Hk := norm_entry_nodup aggs Hnd).
  rewrite normalized_aggregates_eq in Hi |- * by exact Hnd.
  unfold build_kpis in Hr, Hcols |- *. rewrite normalized_aggregates_eq in Hr, Hcols |- * by exact Hnd.
  destruct (flat_map norm_entry aggs) as [| [k0 b] rest] eqn:F; [contradiction |].
  cbn [fold_left] in Hr, Hcols |- *. rewrite String.eqb_refl in Hr, Hcols |- *.
  simpl in Hk. inversion Hk as [| ? ? Hk0 _]; subst.
  rewrite fold_skip_first in Hr, Hcols |- * by exact Hk0.
  assert (Hb : day_keyed b) by (apply (Hall k0); now left).
  assert (Hrd : Forall (fun e => day_keyed (snd e)) rest).
  { apply Forall_forall. intros [k m] Hin. apply (Hall k). now right. }
  destruct (pad_inv_fold rest b b [] (pad_inv_base b Hb) Hrd Hcols) as (_ & _ & _ & Hrows).
  exact (Hrows r Hr i n Hi Hnot).
Qed.

(** C6 (amended): (1) a single non-empty aggregate with a [jour] or
    [date] column, stored under any key but [daily_kpis], comes back
    normalised: [date] renamed to [jour] when there is no [jour], the same
    number of rows; (2) when the aggregates are keyed by day (at most one
    row per day, every day a date), the merged table has exactly one row
    per day of the union of the days of the joined aggregates; (3) when
    two such aggregates are joined, a row whose day is missing from one of
    them carries nulls in every column coming from that one; (4) the same
    holds for any number of joined aggregates whose joined column names
    are distinct: the merged columns come in one block per aggregate
    ([kpi_blocks]: all the columns of the first, then the non-key columns
    of each later one, in join order), and a row whose day is missing from
    the [i]-th aggregate is aligned with the columns and carries nulls in
    the [i]-th block (the key [jour] apart, in the first block). *)
Theorem C6_build_kpis_outer_join :
  (forall key df n,
      String.eqb key "daily_kpis" = false -> frame_empty df = false ->
      normalize df = Some n ->
      build_kpis [(key, df)] = n /\
      length (frows n) = length (frows df) /\
      fcols n = map (fun c => if has_col "jour" df then c
                              else if String.eqb c "date" then "jour" else c) (fcols df)) /\
  (forall aggregates,
      NoDup (map fst aggregates) ->
      (forall key df n, In (key, df) aggregates -> normalize df = Some n -> day_keyed n) ->
      NoDup (days (build_kpis aggregates)) /\
      (forall v, In v (days (build_kpis aggregates)) <->
                 exists key df n, In (key, df) aggregates /\ frame_empty df = false /\
                                  String.eqb key "daily_kpis" = false /\
                                  normalize df = Some n /\ In v (days n))) /\
  (forall k1 a k2 b na nb,
      k1 <> k2 ->
      frame_empty a = false -> String.eqb k1 "daily_kpis" = false -> normalize a = Some na ->
      frame_empty b = false -> String.eqb k2 "daily_kpis" = false -> normalize b = Some nb ->
      day_keyed na -> day_keyed nb ->
      forall r, In r (frows (build_kpis [(k1, a); (k2, b)])) ->
        (~ In (jour r) (days nb) ->
         Forall (fun cv => snd cv = VNull) (skipn (length (fcols na)) r)) /\
        (~ In (jour r) (days na) ->
         Forall (fun cv => fst cv = "jour" \/ snd cv = VNull) (firstn (length (fcols na)) r))) /\
  (forall aggregates,
      NoDup (map fst aggregates) ->
      (forall key df n, In (key, df) aggregates -> normalize df = Some n -> day_keyed n) ->
      NoDup (fcols (build_kpis aggregates)) ->
      forall r, In r (frows (build_kpis aggregates)) ->
      forall i n, nth_error (map snd (normalized_aggregates aggregates)) i = Some n ->
        ~ In (jour r) (days n) ->
        map fst r = fcols (build_kpis aggregates) /\
        Forall (fun cv => snd cv = VNull \/ (i = 0%nat /\ fst cv = "jour"))
               (nth i (split_blocks (kpi_blocks (map snd (normalized_aggregates aggregates))) r) [])).
Proof.
  split; [| split; [| split; [| exact build_kpis_null_padding]]].
  - intros key df n K E N.
    split; [| now apply normalize_shape].
    unfold build_kpis, normalized_aggregates. simpl. rewrite E, K. simpl. rewrite N.
    simpl. now rewrite String.eqb_refl.
  - intros aggs Hnd Hdk.
    assert (Hall : forall k n, In (k, n) (flat_map norm_entry aggs) -> day_keyed n).
    { intros k n Hin. apply in_norm_entry in Hin as [df [Hin [_ [_ N]]]]. eauto. }
    assert (Hk := norm_entry_nodup aggs Hnd).
    unfold build_kpis. rewrite normalized_aggregates_eq by exact Hnd.
    destruct (flat_map norm_entry aggs) as [| [k0 b] rest] eqn:F.
    + split; [constructor |]. intros v. split; [intros [] |].
      intros [key [df [n [Hin [E [K [N _]]]]]]].
      assert (Hin' : In (key, n) (flat_map norm_entry aggs)) by (apply in_norm_entry; eauto).
      rewrite F in Hin'. contradiction.
    + simpl. rewrite String.eqb_refl.
      simpl in Hk. inversion Hk as [| ? ? Hk0 _]; subst.
      rewrite fold_skip_first by exact Hk0.
      assert (Hb : day_keyed b) by (apply (Hall k0); now left).
      assert (Hr : Forall (fun e => day_keyed (snd e)) rest).
      { apply Forall_forall. intros [k n] Hin. apply (Hall k). now right. }
      destruct (fold_merge_day_keyed rest b Hb Hr) as [[_ [_ Nd]] Id].
      split; [exact Nd |]. intros v. rewrite Id. split.
      * intros H.
        assert (Hx : exists k n, In (k, n) ((k0, b) :: rest) /\ In v (days n)).
        { destruct H as [H | [k [n [Hin H]]]]; [exists k0, b | exists k, n]; simpl; auto. }
        destruct Hx as [k [n [Hin Hv]]]. rewrite <- F in Hin.
        apply in_norm_entry in Hin as [df [Hin [E [K N]]]]. exists k, df, n. auto.
      * intros [key [df [n [Hin [E [K [N Hv]]]]]]].
        assert (Hin' : In (key, n) (flat_map norm_entry aggs)) by (apply in_norm_entry; eauto).
        rewrite F in Hin'. destruct Hin' as [Eq | Hin'].
        -- injection Eq as -> ->. now left.
        -- right. exists key, n. auto.
  - intros k1 a k2 b na nb Hne E1 K1 N1 E2 K2 N2 Ha Hb r Hr.
    assert (Hbk : build_kpis [(k1, a); (k2, b)] = merge_outer na nb k2).
    { unfold build_kpis, normalized_aggregates. simpl.
      rewrite E1, K1, N1, E2, K2, N2. simpl.
      destruct (String.eqb_spec k2 k1); [congruence |]. simpl.
      rewrite String.eqb_refl. destruct (String.eqb_spec k2 k1); [congruence |]. reflexivity. }
    rewrite Hbk in Hr. exact (merge_outer_null_padding na nb k2 Ha Hb r Hr).
Qed.

Definition counts_two_days : frame :=
  mkFrame ["date"; "comptage_total"]
    [[("date", VDate 1); ("comptage_total", VInt 10)];
     [("date", VDate 3); ("comptage_total", VInt 30)]].

Definition counts_two_days_norm : frame :=
  mkFrame ["jour"; "comptage_total"]
    [[("jour", VDate 1); ("comptage_total", VInt 10)];
     [("jour", VDate 3); ("comptage_total", VInt 30)]].

Definition stations_two_days : frame :=
  mkFrame ["jour"; "nb_stations"]
    [[("jour", VDate 1); ("nb_stations", VInt 5)];
     [("jour", VDate 2); ("nb_stations", VInt 6)]].

Ltac solve_day_keyed :=
  split; [simpl; tauto |
  split; [repeat constructor; eexists; reflexivity |
          unfold days; simpl; repeat (constructor; [simpl; intuition discriminate |]); constructor]].

Lemma kpi_inputs_day_keyed :
  forall key df n,
    In (key, df) [("comptage_velo_daily", counts_two_days); ("velib_realtime", stations_two_days)] ->
    normalize df = Some n -> day_keyed n.
Proof.
  intros key df n Hin N. simpl in Hin.
  destruct Hin as [E | [E | []]]; injection E as <- <-; vm_compute in N;
    injection N as <-; solve_day_keyed.
Qed.

(** A third day-keyed aggregate: the weather of days 1 and 3. *)
Definition weather_days_1_3 : frame :=
  mkFrame ["jour"; "temperature_max"]
    [[("jour", VDate 1); ("temperature_max", VNum 8)];
     [("jour", VDate 3); ("temperature_max", VNum 11)]].

Definition kpi_inputs3 : list (string * frame) :=
  [("comptage_velo_daily", counts_two_days); ("velib_realtime", stations_two_days);
   ("weather_daily", weather_days_1_3)].

Lemma kpi_inputs3_day_keyed :
  forall key df n, In (key, df) kpi_inputs3 -> normalize df = Some n -> day_keyed n.
Proof.
  intros key df n Hin N. simpl in Hin.
  destruct Hin as [E | [E | [E | []]]]; injection E as <- <-; vm_compute in N;
    injection N as <-; solve_day_keyed.
Qed.

Lemma C6_build_kpis_outer_join_witness :
  build_kpis [("comptage_velo_daily", counts_two_days)] = counts_two_days_norm /\
  NoDup (days (build_kpis [("comptage_velo_daily", counts_two_days);
                           ("velib_realtime", stations_two_days)])) /\
  (forall r, In r (frows (build_kpis [("comptage_velo_daily", counts_two_days);
                                      ("velib_realtime", stations_two_days)])) ->
     (~ In (jour r) (days stations_two_days) ->
      Forall (fun cv => snd cv = VNull) (skipn (length (fcols counts_two_days_norm)) r)) /\
     (~ In (jour r) (days counts_two_days_norm) ->
      Forall (fun cv => fst cv = "jour" \/ snd cv = VNull)
             (firstn (length (fcols counts_two_days_norm)) r))) /\
  exists r, In r (frows (build_kpis kpi_inputs3)) /\ jour r = VDate 2 /\
    map fst r = fcols (build_kpis kpi_inputs3) /\
    Forall (fun cv => snd cv = VNull \/ (2%nat = 0%nat /\ fst cv = "jour"))
           (nth 2 (split_blocks (kpi_blocks (map snd (normalized_aggregates kpi_inputs3))) r) []).
Proof.
  destruct C6_build_kpis_outer_join as [P1 [P2 [P3 P4]]].
  split; [| split; [| split]].
  - exact (proj1 (P1 "comptage_velo_daily" counts_two_days counts_two_days_norm
                     eq_refl eq_refl eq_refl)).
  - refine (proj1 (P2 _ _ kpi_inputs_day_keyed)).
    simpl. repeat (constructor; [simpl; intuition discriminate |]). constructor.
  - apply (P3 "comptage_velo_daily" counts_two_days "velib_realtime" stations_two_days
              counts_two_days_norm stations_two_days);
      try reflexivity; [discriminate | solve_day_keyed | solve_day_keyed].
  - exists (nth 1 (frows (build_kpis kpi_inputs3)) []).
    assert (Hin : In (nth 1 (frows (build_kpis kpi_inputs3)) []) (frows (build_kpis kpi_inputs3)))
      by (apply nth_In; vm_compute; lia).
    assert (Hj : jour (nth 1 (frows (build_kpis kpi_inputs3)) []) = VDate 2)
      by (vm_compute; reflexivity).
    split; [exact Hin | split; [exact Hj |]].
    refine (P4 kpi_inputs3 _ kpi_inputs3_day_keyed _ _ Hin 2%nat weather_days_1_3 _ _).
    + simpl. repeat (constructor; [simpl; intuition discriminate |]). constructor.
    + vm_compute. repeat (constructor; [simpl; intuition discriminate |]). constructor.
    + vm_compute. reflexivity.
    + rewrite Hj. vm_compute. intuition discriminate.
Defined.

(* ------------------------------------------------------------------ *)
(** ** Coordinate resolution (C3) *)

Lemma derived_trans : forall r1 r2 r3, derived r1 r2 -> derived r2 r3 -> derived r1 r3.
Proof.
  intros r1 r2 r3 [[H1 [H2 H3]] H4] [[G1 [G2 G3]] G4].
  split; [repeat split; congruence |].
  intros a b Ha Hb. destruct (H4 a b Ha Hb) as [Ha' Hb']. exact (G4 a b Ha' Hb').
Qed.

Lemma derived_refl : forall r, derived r r.
Proof. intro r. split; [repeat split | auto]. Qed.

Lemma fill_coords_derived : forall r c, derived r (fill_coords r c).
Proof.
  intros r c. split; [repeat split |].
  intros a b Ha Hb. unfold fill_coords; cbn. rewrite Ha, Hb. auto.
Qed.

Lemma merge_fill_out : forall tbl rs r',
  In r' (merge_fill tbl rs) -> exists r, In r rs /\ derived r r'.
Proof.
  intros tbl rs r' Hin. destruct tbl as [| e tbl'].
  - exists r'. split; [exact Hin | apply derived_refl].
  - unfold merge_fill in Hin. apply in_flat_map in Hin as [r [Hr Hin]].
    exists r. split; [exact Hr |].
    destruct (filter _ (e :: tbl')) as [| m ms].
    + destruct Hin as [<- | []]. apply derived_refl.
    + apply in_map_iff in Hin as [m' [<- _]]. apply fill_coords_derived.
Qed.

Lemma merge_fill_in : forall tbl rs r,
  In r rs -> exists r', In r' (merge_fill tbl rs) /\ derived r r'.
Proof.
  intros tbl rs r Hr. destruct tbl as [| e tbl'].
  - exists r. split; [exact Hr | apply derived_refl].
  - unfold merge_fill.
    destruct (filter (fun e0 => String.eqb (fst e0) (compteur_id r)) (e :: tbl'))
      as [| m ms] eqn:Hf.
    + exists r. split; [| apply derived_refl].
      apply in_flat_map. exists r. split; [exact Hr |]. rewrite Hf. left; reflexivity.
    + exists (fill_coords r (snd m)). split; [| apply fill_coords_derived].
      apply in_flat_map. exists r. split; [exact Hr |]. rewrite Hf. left; reflexivity.
Qed.

Lemma assign_fallback_resolved : forall r,
  latitude (assign_fallback r) <> None /\ longitude (assign_fallback r) <> None.
Proof.
  intro r. unfold assign_fallback.
  destruct (latitude r) eqn:Ha, (longitude r) eqn:Hb; cbn;
    rewrite ?Ha, ?Hb; split; discriminate.
Qed.

Lemma assign_fallback_derived : forall r, derived r (assign_fallback r).
Proof.
  intro r. unfold assign_fallback.
  destruct (latitude r) eqn:Ha, (longitude r) eqn:Hb;
    try apply derived_refl;
    (split; [repeat split | intros a b Ha' Hb'; congruence]).
Qed.

(** C3 (counterexample): a reading whose latitude is known and whose
    longitude is null, with no bikes feed and no reference entry, comes out
    of [_enrich_comptage_with_coordinates] with a different latitude: the
    fallback overwrites both coordinates of a half-known pair. *)
Definition reading_half_known : reading :=
  mkReading "100003096" (Some 1704067200) (Some 12) (Some (4885 # 100)) None.

Lemma C3_half_known_latitude_overwritten :
  exists q, map latitude (enrich_comptage_with_coordinates [] [] [reading_half_known]) = [Some q] /\
            latitude reading_half_known = Some (4885 # 100) /\
            ~ (q == 4885 # 100)%Q.
Proof.
  exists (fallback_latitude "100003096"). split; [| split].
  - reflexivity.
  - reflexivity.
  - unfold Qeq. vm_compute. discriminate.
Qed.

Lemma merge_fill_nil : forall tbl, merge_fill tbl [] = [].
Proof. intros [| e t]; reflexivity. Qed.

Lemma assign_fallback_half : forall r,
  (latitude r = None /\ longitude r <> None) \/ (latitude r <> None /\ longitude r = None) ->
  assign_fallback r =
  mkReading (compteur_id r) (date_heure r) (comptage_horaire r)
            (Some (fallback_latitude (compteur_id r))) (Some (fallback_longitude (compteur_id r))).
Proof.
  intros r H. unfold assign_fallback.
  destruct (latitude r), (longitude r); try reflexivity;
    exfalso; destruct H as [[H1 H2] | [H1 H2]]; congruence.
Qed.

(** C3 (amended): for every bikes feed, reference payload and reading
    relation, after coordinate resolution (bikes merge, reference merge,
    fallback) every row has a non-null latitude and longitude; every output
    row comes from an input row with the same id, timestamp and count and
    keeps the coordinates of that row when both were non-null; every input
    row has such an output row; and a row with exactly one null coordinate
    after the two merges comes out with both fallback coordinates, its
    non-null coordinate replaced. *)
Theorem C3_coordinates_resolved :
  forall bikes payload rs,
    (forall r', In r' (enrich_comptage_with_coordinates bikes payload rs) ->
                latitude r' <> None /\ longitude r' <> None) /\
    (forall r', In r' (enrich_comptage_with_coordinates bikes payload rs) ->
                exists r, In r rs /\ derived r r') /\
    (forall r, In r rs ->
               exists r', In r' (enrich_comptage_with_coordinates bikes payload rs) /\
                          derived r r') /\
    (forall r2, In r2 (merge_fill (load_reference_coordinates payload)
                         (merge_fill (extract_coordinates_from_bikes bikes) rs)) ->
       (latitude r2 = None /\ longitude r2 <> None) \/
       (latitude r2 <> None /\ longitude r2 = None) ->
       In (mkReading (compteur_id r2) (date_heure r2) (comptage_horaire r2)
                     (Some (fallback_latitude (compteur_id r2)))
                     (Some (fallback_longitude (compteur_id r2))))
          (enrich_comptage_with_coordinates bikes payload rs)).
Proof.
  intros bikes payload rs.
  assert (Hout : enrich_comptage_with_coordinates bikes payload rs =
                 map assign_fallback (merge_fill (load_reference_coordinates payload)
                                        (merge_fill (extract_coordinates_from_bikes bikes) rs))).
  { unfold enrich_comptage_with_coordinates.
    destruct rs; [now rewrite !merge_fill_nil | reflexivity]. }
  rewrite Hout. split; [| split; [| split]].
  - intros r' Hin. apply in_map_iff in Hin as [r [<- _]]. apply assign_fallback_resolved.
  - intros r' Hin. apply in_map_iff in Hin as [r2 [<- Hr2]].
    apply merge_fill_out in Hr2 as [r1 [Hr1 D2]].
    apply merge_fill_out in Hr1 as [r [Hr D1]].
    exists r. split; [exact Hr |].
    eapply derived_trans; [eapply derived_trans; eassumption | apply assign_fallback_derived].
  - intros r Hr.
    destruct (merge_fill_in (extract_coordinates_from_bikes bikes) rs r Hr) as [r1 [Hr1 D1]].
    destruct (merge_fill_in (load_reference_coordinates payload) _ r1 Hr1) as [r2 [Hr2 D2]].
    exists (assign_fallback r2). split; [apply in_map; exact Hr2 |].
    eapply derived_trans; [eapply derived_trans; eassumption | apply assign_fallback_derived].
  - intros r2 Hr2 Hh. rewrite <- (assign_fallback_half r2 Hh). apply in_map. exact Hr2.
Qed.

(* ------------------------------------------------------------------ *)
(** ** The fallback hash (C4) *)

Lemma add32_range : forall x y, 0 <= Sha256.add32 x y < 2 ^ 32.
Proof. intros. unfold Sha256.add32. apply Z.mod_pos_bound. lia. Qed.

Lemma compress_fold_range : forall bs hs,
  Forall (fun w => 0 <= w < 2 ^ 32) hs ->
  Forall (fun w => 0 <= w < 2 ^ 32) (fold_left Sha256.compress bs hs).
Proof.
  induction bs as [| b bs IH]; intros hs Hh; [exact Hh |].
  cbn [fold_left]. apply IH. unfold Sha256.compress.
  apply Forall_forall. intros w Hw. apply in_map_iff in Hw as [[x y] [<- _]].
  apply add32_range.
Qed.

Lemma digest_words_range : forall msg,
  Forall (fun w => 0 <= w < 2 ^ 32) (Sha256.digest_words msg).
Proof.
  intro msg. apply compress_fold_range.
  assert (Hb : forallb (fun w => (0 <=? w) && (w <? 2 ^ 32)) Sha256.H0 = true)
    by (vm_compute; reflexivity).
  apply Forall_forall. intros w Hw. rewrite forallb_forall in Hb.
  specialize (Hb w Hw). apply andb_true_iff in Hb as [A B].
  apply Z.leb_le in A. apply Z.ltb_lt in B. lia.
Qed.

Lemma digest_prefix64_range : forall v o, 0 <= digest_prefix64 v o < 2 ^ 64.
Proof.
  intros v o. unfold digest_prefix64.
  pose proof (digest_words_range (utf8_bytes (v ++ py_str_int o))) as H.
  destruct (Sha256.digest_words _) as [| w0 [| w1 t]]; try lia.
  inversion H as [| ? ? H0 H1]; subst. inversion H1; subst. nia.
Qed.

Lemma to_double_int_range : forall n, 0 <= n < 2 ^ 64 ->
  0 <= to_double_int n <= 2 ^ 64 /\ (to_double_int n = 2 ^ 64 <-> 2 ^ 64 - 1024 <= n).
Proof.
  intros n Hn. unfold to_double_int.
  destruct (Z.ltb_spec n (2 ^ 53)) as [Hs | Hs]; [lia |].
  assert (Hl : 53 <= Z.log2 n <= 63).
  { split.
    - apply Z.log2_le_pow2; lia.
    - apply Z.lt_succ_r, Z.log2_lt_pow2; lia. }
  assert (Hsp := Z.log2_spec n ltac:(lia)).
  assert (He : exists e, Z.log2 n - 52 = e /\ 1 <= e <= 11) by (eexists; split; [reflexivity | lia]).
  destruct He as [e [He Hr]]. rewrite He.
  replace (Z.log2 n) with (e + 52) in Hsp by lia.
  rewrite Z.shiftr_div_pow2 by lia. rewrite !Z.shiftl_mul_pow2 by lia.
  assert (Hc : e = 1 \/ e = 2 \/ e = 3 \/ e = 4 \/ e = 5 \/ e = 6 \/ e = 7 \/ e = 8 \/
               e = 9 \/ e = 10 \/ e = 11) by lia.
  destruct Hc as [-> | [-> | [-> | [-> | [-> | [-> | [-> | [-> | [-> | [-> | ->]]]]]]]]]];
    cbn in Hsp |- *;
    match goal with |- context [n / ?p] =>
      pose proof (Z.div_mod n p ltac:(lia)); pose proof (Z.mod_pos_bound n p ltac:(lia));
      set (q := n / p) in *; set (r := n mod p) in *
    end;
    repeat match goal with
    | |- context [Z.ltb ?a ?b] => destruct (Z.ltb_spec a b)
    | |- context [Z.even ?a] => destruct (Z.even a) eqn:?
    end; try lia.
all: match goal with
     | H : Z.even _ = true |- _ => apply Z.even_spec in H as [? ?]; lia
     end.
Qed.

(** X1: [_hash_to_unit(value, offset)] lies in [0, 1]; it equals 1 exactly
    when the first 16 hex digits of the digest, read as an integer, are at
    least 2^64 - 1024, since [float()] rounds that integer up to 2^64. *)
Lemma hash_to_unit_bounds : forall v o,
  (0 <= hash_to_unit v o <= 1)%Q /\
  ((hash_to_unit v o == 1)%Q <-> 2 ^ 64 - 1024 <= digest_prefix64 v o).
Proof.
  intros v o.
  destruct (to_double_int_range _ (digest_prefix64_range v o)) as [[HD0 HD1] HDe].
  unfold hash_to_unit.
  set (D := to_double_int (digest_prefix64 v o)) in *.
  assert (HP : (0 < inject_Z (2 ^ 64))%Q) by (vm_compute; reflexivity).
  split; [split |].
  - apply Qle_shift_div_l; [exact HP |]. rewrite Qmult_0_l.
    change 0%Q with (inject_Z 0). rewrite <- Zle_Qle. exact HD0.
  - apply Qle_shift_div_r; [exact HP |]. rewrite Qmult_1_l.
    rewrite <- Zle_Qle. exact HD1.
  - rewrite <- HDe. split.
    + intro H. apply inject_Z_injective.
      rewrite <- (Qmult_1_l (inject_Z (2 ^ 64))). rewrite <- H.
      field. intro Hc. rewrite Hc in HP. discriminate.
    + intro H. rewrite H. field. vm_compute. discriminate.
Qed.

(** X2: a fallback coordinate lies in the closed Paris box
    [48.80, 48.90] x [2.25, 2.42]. *)
Lemma fallback_bounds : forall v,
  (lat_min <= fallback_latitude v <= lat_max)%Q /\ (lon_min <= fallback_longitude v <= lon_max)%Q.
Proof.
  intro v. unfold fallback_latitude, fallback_longitude, lat_min, lat_max, lon_min, lon_max.
  destruct (hash_to_unit_bounds v 0) as [[A B] _].
  destruct (hash_to_unit_bounds v 1) as [[C D] _].
  split; split; lra.
Qed.

(* ------------------------------------------------------------------ *)
(** ** The clock in [calculate_all_metrics] (C2) *)

Definition reading_jan1 : reading :=
  mkReading "100003096" (Some 1704067200) (Some 12) (Some (4885 # 100)) (Some (235 # 100)).

(** C2 (counterexample): the same reading relation, no bikes feed, no
    reference and no public works, run at two wall-clock times 10 hours and
    48 hours after the last reading: [compteurs_defaillants] is empty in the
    first run and holds the counter in the second. *)
Lemma C2_clock_changes_output :
  map (fun e => (fst e, length (frows (snd e))))
      (all_metrics_clock_entries (mkClock 1704103200 1704103200) false [] []
         [reading_jan1] None) = [("compteurs_defaillants", 0%nat)] /\
  map (fun e => (fst e, length (frows (snd e))))
      (all_metrics_clock_entries (mkClock 1704240000 1704240000) false [] []
         [reading_jan1] None) = [("compteurs_defaillants", 1%nat)].
Proof. split; vm_compute; reflexivity. Qed.

(** C2 (amended): [calculate_all_metrics] reads the wall clock itself. Its
    clock-dependent entries are the same in two runs on the same inputs
    whose clock readings agree; [compteurs_defaillants] depends only on the
    UTC reading for time-zone-aware dates and only on the local reading for
    naive ones; [calculate_chantiers_actifs] does not depend on the clock
    when the relation lacks [date_debut] or [date_fin], or when a reference
    date is passed. *)
Theorem C2_clock_determines_output :
  (forall clk1 clk2 tz bikes payload rs ch,
      now_local clk1 = now_local clk2 -> now_utc clk1 = now_utc clk2 ->
      all_metrics_clock_entries clk1 tz bikes payload rs ch =
      all_metrics_clock_entries clk2 tz bikes payload rs ch) /\
  (forall clk1 clk2 rs seuil,
      now_utc clk1 = now_utc clk2 ->
      detect_compteurs_defaillants clk1 true rs seuil =
      detect_compteurs_defaillants clk2 true rs seuil) /\
  (forall clk1 clk2 rs seuil,
      now_local clk1 = now_local clk2 ->
      detect_compteurs_defaillants clk1 false rs seuil =
      detect_compteurs_defaillants clk2 false rs seuil) /\
  (forall clk1 clk2 df,
      has_col "date_debut" df && has_col "date_fin" df = false ->
      calculate_chantiers_actifs clk1 df None = calculate_chantiers_actifs clk2 df None) /\
  (forall clk1 clk2 df d,
      calculate_chantiers_actifs clk1 df (Some d) = calculate_chantiers_actifs clk2 df (Some d)).
Proof.
  split; [| split; [| split; [| split]]].
  - intros [l1 u1] [l2 u2] tz bikes payload rs ch Hl Hu. cbn in Hl, Hu. subst. reflexivity.
  - intros [l1 u1] [l2 u2] rs seuil Hu. cbn in Hu. subst. reflexivity.
  - intros [l1 u1] [l2 u2] rs seuil Hl. cbn in Hl. subst. reflexivity.
  - intros clk1 clk2 df H. unfold calculate_chantiers_actifs. rewrite H. reflexivity.
  - intros clk1 clk2 df d. reflexivity.
Qed.

Definition chantiers_no_dates : frame :=
  mkFrame ["arrondissement"] [[("arrondissement", VInt 75011)]].

Lemma C2_clock_determines_output_witness :
  all_metrics_clock_entries (mkClock 1704103200 1704103200) false [] [] [reading_jan1] None =
  all_metrics_clock_entries (mkClock 1704103200 1704103200) false [] [] [reading_jan1] None /\
  detect_compteurs_defaillants (mkClock 0 1704240000) true [reading_jan1] 24 =
  detect_compteurs_defaillants (mkClock 1704103200 1704240000) true [reading_jan1] 24 /\
  detect_compteurs_defaillants (mkClock 1704240000 0) false [reading_jan1] 24 =
  detect_compteurs_defaillants (mkClock 1704240000 1704103200) false [reading_jan1] 24 /\
  calculate_chantiers_actifs (mkClock 0 0) chantiers_no_dates None =
  calculate_chantiers_actifs (mkClock 1704240000 1704240000) chantiers_no_dates None.
Proof.
  split; [| split; [| split]].
  - apply (proj1 C2_clock_determines_output); reflexivity.
  - apply (proj1 (proj2 C2_clock_determines_output)); reflexivity.
  - apply (proj1 (proj2 (proj2 C2_clock_determines_output))); reflexivity.
  - apply (proj1 (proj2 (proj2 (proj2 C2_clock_determines_output)))); vm_compute; reflexivity.
Defined.

(* ------------------------------------------------------------------ *)
(** ** Descending sort and [nlargest] *)

Section SortDesc.
Context {A : Type} (f : A -> Q).

Definition desc (a b : A) : Prop := (f b <= f a)%Q.

Lemma ins_desc_perm : forall x l, Permutation (x :: l) (ins_desc f x l).
Proof.
  intros x l. induction l as [| y t IH]; cbn; [reflexivity |].
  destruct (Qle_bool (f x) (f y)); [| reflexivity].
  rewrite perm_swap. constructor. exact IH.
Qed.

Lemma sort_desc_perm : forall l, Permutation l (sort_desc f l).
Proof.
  intro l. unfold sort_desc.
  assert (H : forall acc, Permutation (l ++ acc) (fold_left (fun acc x => ins_desc f x acc) l acc)).
  { induction l as [| x t IH]; intro acc; cbn; [reflexivity |].
    rewrite <- IH. rewrite <- ins_desc_perm. apply Permutation_middle. }
  rewrite <- H. rewrite app_nil_r. reflexivity.
Qed.

Lemma ins_desc_hd : forall a x l, HdRel desc a l -> desc a x -> HdRel desc a (ins_desc f x l).
Proof.
  intros a x l Hl Hx. destruct l as [| y t]; cbn; [constructor; exact Hx |].
  destruct (Qle_bool (f x) (f y)); constructor; [inversion Hl; assumption | exact Hx].
Qed.

Lemma ins_desc_sorted : forall x l, Sorted desc l -> Sorted desc (ins_desc f x l).
Proof.
  intros x l. induction l as [| y t IH]; intro Hs; cbn; [repeat constructor |].
  destruct (Qle_bool (f x) (f y)) eqn:Hxy.
  - inversion Hs as [| ? ? Ht Hh]; subst. constructor; [exact (IH Ht) |].
    apply ins_desc_hd; [exact Hh |]. unfold desc. apply Qle_bool_iff. exact Hxy.
  - constructor; [exact Hs |]. constructor. unfold desc.
    apply Qlt_le_weak, Qnot_le_lt. intro H. apply Qle_bool_iff in H. congruence.
Qed.

Lemma sort_desc_sorted : forall l, Sorted desc (sort_desc f l).
Proof.
  intro l. unfold sort_desc.
  assert (H : forall acc, Sorted desc acc ->
               Sorted desc (fold_left (fun acc x => ins_desc f x acc) l acc)).
  { induction l as [| x t IH]; intros acc Ha; cbn; [exact Ha |].
    apply IH, ins_desc_sorted, Ha. }
  apply H. constructor.
Qed.

Lemma desc_trans : Transitive desc.
Proof. intros a b c H1 H2. unfold desc in *. eapply Qle_trans; eassumption. Qed.

Lemma strongly_sorted_app : forall l1 l2 a b,
  StronglySorted desc (l1 ++ l2) -> In a l1 -> In b l2 -> desc a b.
Proof.
  induction l1 as [| x t IH]; intros l2 a b Hs Ha Hb; [destruct Ha |].
  inversion Hs as [| ? ? Hs' Hf]; subst. destruct Ha as [<- | Ha].
  - rewrite Forall_forall in Hf. apply Hf, in_or_app. right; exact Hb.
  - exact (IH l2 a b Hs' Ha Hb).
Qed.

(** [nlargest(n)]: [min(n, len)] elements, a permutation of the list once
    the rest is added, and none of the rest above a kept one. *)
Lemma nlargest_spec : forall n l,
  length (nlargest n f l) = Nat.min (Z.to_nat n) (length l) /\
  exists dropped, Permutation l (nlargest n f l ++ dropped) /\
    forall a b, In a (nlargest n f l) -> In b dropped -> (f b <= f a)%Q.
Proof.
  intros n l. unfold nlargest. split.
  - rewrite length_firstn, <- (Permutation_length (sort_desc_perm l)). reflexivity.
  - exists (skipn (Z.to_nat n) (sort_desc f l)). split.
    + rewrite firstn_skipn. apply sort_desc_perm.
    + intros a b Ha Hb.
      apply (strongly_sorted_app (firstn (Z.to_nat n) (sort_desc f l)) (skipn (Z.to_nat n) (sort_desc f l)) a b); [| exact Ha | exact Hb].
      rewrite firstn_skipn. apply Sorted_StronglySorted; [exact desc_trans | apply sort_desc_sorted].
Qed.

End SortDesc.

Lemma Qltb_false : forall x y, (y <= x)%Q -> Qltb x y = false.
Proof. intros x y H. unfold Qltb. apply Qle_bool_iff in H. rewrite H. reflexivity. Qed.

Lemma Qltb_true : forall x y, (x < y)%Q -> Qltb x y = true.
Proof.
  intros x y H. unfold Qltb. destruct (Qle_bool y x) eqn:E; [| reflexivity].
  apply Qle_bool_iff in E. exfalso. apply (Qlt_not_le x y H E).
Qed.

Lemma Q2R_16 : Q2R 16 = 16%R.
Proof. unfold Q2R. simpl. field. Qed.

Lemma Q2R_zero : Q2R 0 = 0%R.
Proof. unfold Q2R. simpl. field. Qed.

Lemma zdev_at_mean : forall rs r v m,
  comptage_horaire r = Some v -> meanQ (counts_of (compteur_id r) rs) = Some m ->
  (inject_Z v == m)%Q -> (zdev (zscore_of rs r) == 0)%Q.
Proof.
  intros rs r v m Hv Hm Heq. unfold zscore_of. rewrite Hv, Hm.
  destruct (var_sample _) as [s2 |]; [destruct (Qeq_bool s2 0) |]; cbn; try reflexivity.
  rewrite Heq. ring.
Qed.

Lemma zscore_four : forall rs r v m s2,
  comptage_horaire r = Some v -> meanQ (counts_of (compteur_id r) rs) = Some m ->
  var_sample (counts_of (compteur_id r) rs) = Some s2 ->
  (m < inject_Z v)%Q -> ((inject_Z v - m) * (inject_Z v - m) == 16 * s2)%Q ->
  zscore_of rs r = mkZ (inject_Z v - m) s2 /\ ~ (s2 == 0)%Q.
Proof.
  intros rs r v m s2 Hv Hm Hs Hlt Heq.
  assert (Hd : (0 < inject_Z v - m)%Q) by (apply Qlt_minus_iff in Hlt; exact Hlt).
  assert (Hnz : ~ (s2 == 0)%Q).
  { intro H0. rewrite H0 in Heq.
    pose proof (Qmult_lt_0_compat _ _ Hd Hd) as Hp. rewrite Heq in Hp. discriminate Hp. }
  split; [| exact Hnz].
  unfold zscore_of. rewrite Hv, Hm, Hs.
  destruct (Qeq_bool s2 0) eqn:E; [| reflexivity].
  apply Qeq_bool_iff in E. contradiction.
Qed.

Lemma anomalies_in : forall rs s a, In a (anomalies rs s) ->
  In (an_reading a) rs /\ an_zscore a = zscore_of rs (an_reading a) /\
  abs_gt (zscore_of rs (an_reading a)) s = true.
Proof.
  intros rs s a Ha. unfold anomalies in Ha. apply in_flat_map in Ha as [r [Hr Ha]].
  destruct (abs_gt (zscore_of rs r) s) eqn:E; [| destruct Ha].
  destruct Ha as [<- | []]. cbn. auto.
Qed.

Lemma detect_incl : forall rs s n a,
  In a (detect_anomalies_zscore rs s n) -> In a (anomalies rs s).
Proof.
  intros rs s n a Ha. unfold detect_anomalies_zscore in Ha. destruct rs as [| r0 rs0]; [destruct Ha |].
  destruct (Z.ltb n _); [| exact Ha].
  destruct (nlargest_spec (fun a => zabs_sq (an_zscore a)) n (anomalies (r0 :: rs0) s))
    as [_ [dropped [Hp _]]].
  apply (Permutation_in _ (Permutation_sym Hp)). apply in_or_app. left; exact Ha.
Qed.

(* ------------------------------------------------------------------ *)
(** ** Z-score anomalies (C5) *)

(** C5: with threshold 3, a reading whose count equals its counter's mean
    has z-score 0, is not flagged and is in no output; a reading at its
    counter's mean plus four standard deviations (the deviation is positive
    and its square is 16 times the variance) has z-score 4 and is flagged
    [pic_exceptionnel]; and the output holds [min(len, max_results)] of the
    flagged rows, none of the left-out ones above a kept one in absolute
    z-score. *)
Theorem C5_zscore_anomalies :
  (forall rs r v m,
      comptage_horaire r = Some v -> meanQ (counts_of (compteur_id r) rs) = Some m ->
      (inject_Z v == m)%Q ->
      zscore_value (zscore_of rs r) = 0%R /\
      abs_gt (zscore_of rs r) 3 = false /\
      forall max_results, ~ In r (map an_reading (detect_anomalies_zscore rs 3 max_results))) /\
  (forall rs r v m s2,
      In r rs -> comptage_horaire r = Some v ->
      meanQ (counts_of (compteur_id r) rs) = Some m ->
      var_sample (counts_of (compteur_id r) rs) = Some s2 ->
      (m < inject_Z v)%Q -> ((inject_Z v - m) * (inject_Z v - m) == 16 * s2)%Q ->
      zscore_value (zscore_of rs r) = 4%R /\
      In (mkAnomaly r (Some m) (Some s2) (zscore_of rs r) "pic_exceptionnel") (anomalies rs 3)) /\
  (forall rs seuil max_results,
      length (detect_anomalies_zscore rs seuil max_results) =
        Nat.min (length (anomalies rs seuil)) (Z.to_nat (Z.max 0 max_results)) /\
      exists dropped,
        Permutation (anomalies rs seuil) (detect_anomalies_zscore rs seuil max_results ++ dropped) /\
        forall a b, In a (detect_anomalies_zscore rs seuil max_results) -> In b dropped ->
                    (zabs_sq (an_zscore b) <= zabs_sq (an_zscore a))%Q).
Proof.
  split; [| split].
  - intros rs r v m Hv Hm Heq.
    pose proof (zdev_at_mean rs r v m Hv Hm Heq) as Hz.
    assert (Hab : abs_gt (zscore_of rs r) 3 = false).
    { unfold abs_gt. rewrite (Qltb_false 3 0) by discriminate. cbn [orb].
      apply Qltb_false. unfold zabs_sq. rewrite Hz. rewrite Qmult_0_l.
      unfold Qdiv. rewrite Qmult_0_l. discriminate. }
    split; [| split; [exact Hab |]].
    + unfold zscore_value. rewrite (Qeq_eqR _ _ Hz), Q2R_zero. unfold Rdiv. ring.
    + intros n Hin. apply in_map_iff in Hin as [a [Ha Hin]].
      apply detect_incl, anomalies_in in Hin as [_ [_ Hg]]. rewrite Ha in Hg. congruence.
  - intros rs r v m s2 Hr Hv Hm Hs Hlt Heq.
    destruct (zscore_four rs r v m s2 Hv Hm Hs Hlt Heq) as [Hz Hnz].
    set (d := (inject_Z v - m)%Q) in *.
    assert (Hd : (0 < d)%Q) by (apply Qlt_minus_iff in Hlt; exact Hlt).
    split.
    + rewrite Hz. unfold zscore_value. cbn [zdev zvar].
      assert (HD : (0 < Q2R d)%R) by (rewrite <- Q2R_zero; apply Qlt_Rlt; exact Hd).
      assert (Hs2 : (s2 == d * d / 16)%Q).
      { rewrite Heq. field. }
      rewrite (Qeq_eqR _ _ Hs2), Q2R_div by discriminate. rewrite Q2R_mult, Q2R_16.
      replace (Q2R d * Q2R d / 16)%R with ((Q2R d / 4) * (Q2R d / 4))%R by field.
      rewrite sqrt_square.
      * field. apply Rgt_not_eq. exact HD.
      * apply Rlt_le. unfold Rdiv. apply Rmult_lt_0_compat; [exact HD |].
        apply Rinv_0_lt_compat. apply IZR_lt. lia.
    + unfold anomalies. apply in_flat_map. exists r. split; [exact Hr |].
      assert (Hsq : (zabs_sq (zscore_of rs r) == 16)%Q).
      { rewrite Hz. unfold zabs_sq. cbn [zdev zvar]. rewrite Heq. field. exact Hnz. }
      assert (Hab : abs_gt (zscore_of rs r) 3 = true).
      { unfold abs_gt. apply orb_true_intro. right. apply Qltb_true. rewrite Hsq. reflexivity. }
      rewrite Hab, Hm, Hs, Hz. cbn [zdev]. rewrite (Qltb_true 0 d Hd).
      left. reflexivity.
  - intros rs seuil n. unfold detect_anomalies_zscore.
    destruct rs as [| r0 rs0].
    + split; [reflexivity |]. exists []. split; [reflexivity | intros a b []].
    + set (all := anomalies (r0 :: rs0) seuil).
      destruct (Z.ltb_spec n (Z.of_nat (length all))) as [Hn | Hn].
      * destruct (nlargest_spec (fun a => zabs_sq (an_zscore a)) n all) as [Hl Hx].
        split; [| exact Hx]. rewrite Hl. lia.
      * split; [lia |]. exists []. rewrite app_nil_r. split; [reflexivity | intros a b _ []].
Qed.

(** Eighteen readings of one counter: 17, 1 and sixteen 0; mean 1,
    variance 16, so 17 is the mean plus four standard deviations. *)
Definition reading_count (v : Z) : reading :=
  mkReading "100003096" (Some 1704067200) (Some v) (Some (4885 # 100)) (Some (235 # 100)).

Definition reading_group18 : list reading :=
  reading_count 17 :: reading_count 1 :: repeat (reading_count 0) 16.

Lemma C5_zscore_anomalies_witness :
  (exists m s2,
     meanQ (counts_of "100003096" reading_group18) = Some m /\
     var_sample (counts_of "100003096" reading_group18) = Some s2 /\
     zscore_value (zscore_of reading_group18 (reading_count 17)) = 4%R /\
     In (mkAnomaly (reading_count 17) (Some m) (Some s2)
           (zscore_of reading_group18 (reading_count 17)) "pic_exceptionnel")
        (anomalies reading_group18 3)) /\
  zscore_value (zscore_of reading_group18 (reading_count 1)) = 0%R /\
  ~ In (reading_count 1) (map an_reading (detect_anomalies_zscore reading_group18 3 200)).
Proof.
  destruct (meanQ (counts_of "100003096" reading_group18)) as [m |] eqn:Hm;
    [| vm_compute in Hm; discriminate Hm].
  destruct (var_sample (counts_of "100003096" reading_group18)) as [s2 |] eqn:Hs;
    [| vm_compute in Hs; discriminate Hs].
  pose proof Hm as Hm'. pose proof Hs as Hs'.
  vm_compute in Hm', Hs'. injection Hm' as <-. injection Hs' as <-.
  split; [| split].
  - exists (18 # 18)%Q. eexists. split; [reflexivity | split; [exact Hs |]].
    apply (proj1 (proj2 C5_zscore_anomalies) reading_group18 (reading_count 17) 17);
      first [left; reflexivity | reflexivity | exact Hm | exact Hs | vm_compute; reflexivity].
  - apply (proj1 C5_zscore_anomalies reading_group18 (reading_count 1) 1 (18 # 18));
      first [reflexivity | exact Hm | vm_compute; reflexivity].
  - apply (proj1 C5_zscore_anomalies reading_group18 (reading_count 1) 1 (18 # 18));
      first [reflexivity | exact Hm | vm_compute; reflexivity].
Defined.

(* ------------------------------------------------------------------ *)
(** ** Cycling corridors (C7) *)

(** C7: [identify_corridors_cyclables] at percentile 75 returns the rows of
    [calculate_dmja] whose dmja is strictly above the 75th percentile
    (linear interpolation) of the dmja values, each once, in descending
    order of dmja, with that percentile as [seuil_dmja]. *)
Theorem C7_corridors_above_percentile : forall rs,
  let d := calculate_dmja rs in
  let seuil := quantile_linear (map dmja d) (75 / 100)%Q in
  Permutation (filter (fun x => Qltb seuil (dmja x)) d)
              (map corridor_row (identify_corridors_cyclables rs 75)) /\
  Sorted (fun a b => dmja (corridor_row b) <= dmja (corridor_row a))%Q
         (identify_corridors_cyclables rs 75) /\
  Forall (fun c => seuil_dmja c = seuil /\ corridor_percentile c = 75%Q)
         (identify_corridors_cyclables rs 75).
Proof.
  intro rs. cbv zeta. unfold identify_corridors_cyclables.
  destruct (calculate_dmja rs) as [| x d] eqn:E.
  - cbn. split; [constructor | split; constructor].
  - set (seuil := quantile_linear (map dmja (x :: d)) (75 / 100)%Q).
    set (L := map (fun y => mkCorridor y 75 seuil) (filter (fun y => Qltb seuil (dmja y)) (x :: d))).
    split; [| split].
    + rewrite <- (Permutation_map corridor_row (sort_desc_perm (fun c => dmja (corridor_row c)) L)).
      unfold L. rewrite map_map. cbn [corridor_row]. rewrite map_id. reflexivity.
    + exact (sort_desc_sorted (fun c => dmja (corridor_row c)) L).
    + apply Forall_forall. intros c Hc.
      apply (Permutation_in _ (Permutation_sym (sort_desc_perm _ L))) in Hc.
      unfold L in Hc. apply in_map_iff in Hc as [y [<- _]]. split; reflexivity.
Qed.

(* ------------------------------------------------------------------ *)
(** ** Public works against bike traffic (C8) *)

Definition chantier_jan2024 : chantier := mkChantier (Some 19700) (Some 19800).

(** C8 (counterexample): one dated reading and one public work covering its
    day give a one-row join, and the result has no correlation, mean or
    standard-deviation column at all. *)
Lemma C8_single_day_no_coefficient :
  correlate_chantiers_velo [reading_jan1] [chantier_jan2024] =
  Ok (mkCFrame ["date"; "total_velos"; "nb_chantiers_actifs"]
        [[("date", CDate 19723); ("total_velos", CInt 12); ("nb_chantiers_actifs", CInt 1)]]).
Proof. vm_compute. reflexivity. Qed.

Lemma meanQ_some : forall l, l <> [] -> exists m, meanQ l = Some m.
Proof. intros [| x t] H; [congruence | eexists; reflexivity]. Qed.

Lemma var_sample_some : forall l, (2 <= length l)%nat -> exists v, var_sample l = Some v.
Proof.
  intros l H. unfold var_sample. destruct (meanQ_some l) as [m Hm]; [intros ->; cbn in H; lia |].
  rewrite Hm. destruct (Nat.ltb_spec (length l) 2); [lia |]. eexists; reflexivity.
Qed.

(** C8 (amended): for non-empty readings and public works, with at least
    one reading that has a date, the call returns one row per reading date,
    in date order, with the day's bike total and the number of public works
    whose interval contains the day. The result has only
    these three columns when there is one date. With two or more dates it
    adds, on every row, the Pearson coefficient of the two daily series
    and the mean and standard deviation of the bike series. *)
Theorem C8_correlation_columns :
  forall rs chs, rs <> [] -> chs <> [] -> reading_days rs <> [] ->
     exists f, correlate_chantiers_velo rs chs = Ok f /\
       map (fun r => cget r "date") (crows f) = map (fun d => Some (CDate d)) (reading_days rs) /\
       Forall (fun r => forall d, cget r "date" = Some (CDate d) ->
                 cget r "total_velos" = Some (CInt (total_velos_on rs d)) /\
                 cget r "nb_chantiers_actifs" = Some (CInt (nb_chantiers_on chs d))) (crows f) /\
       (length (reading_days rs) = 1%nat -> ccols f = base_cols) /\
       ((2 <= length (reading_days rs))%nat ->
          ccols f = base_cols ++ stats_cols /\
          exists m v, meanQ (daily_totals rs) = Some m /\ var_sample (daily_totals rs) = Some v /\
            Forall (fun r =>
              cget r "correlation_chantiers_velo" = Some (pearson (daily_totals rs) (daily_counts rs chs)) /\
              cget r "moyenne_velos" = Some (CNum m) /\
              cget r "ecart_type_velos" = Some (CReal (sqrt (Q2R v)))) (crows f)).
Proof.
  intros [| r0 rs0] [| c0 chs0] H1 H2 Hd; try congruence.
  set (rs := r0 :: rs0) in *. set (chs := c0 :: chs0) in *.
  unfold correlate_chantiers_velo. fold rs chs.
  assert (Hlen : length (daily_totals rs) = length (reading_days rs))
    by (unfold daily_totals; apply length_map).
  destruct (reading_days rs) as [| d0 ds] eqn:E; [congruence |].
  rewrite length_map.
  set (mk := fun d => [("date", CDate d); ("total_velos", CInt (total_velos_on rs d));
                       ("nb_chantiers_actifs", CInt (nb_chantiers_on chs d))]).
  destruct (Nat.ltb_spec 1 (length (d0 :: ds))) as [Hn | Hn].
  + destruct (meanQ_some (daily_totals rs)) as [m Hm];
      [intro Hx; rewrite Hx in Hlen; discriminate |].
    destruct (var_sample_some (daily_totals rs)) as [v Hv]; [rewrite Hlen; exact Hn |].
    rewrite Hm, Hv.
    eexists. split; [reflexivity |]. cbn [crows ccols].
    split; [| split; [| split]].
    * rewrite !map_map. apply map_ext. intro d. reflexivity.
    * apply Forall_forall. intros r Hr. apply in_map_iff in Hr as [x [<- Hx]].
      apply in_map_iff in Hx as [d [<- _]]. intros d' Hd'. cbn in Hd'.
      injection Hd' as <-. split; reflexivity.
    * intro H. cbn in H, Hn. lia.
    * intros _. split; [reflexivity |]. exists m, v. split; [reflexivity | split; [reflexivity |]].
      apply Forall_forall. intros r Hr. apply in_map_iff in Hr as [x [<- Hx]].
      apply in_map_iff in Hx as [d [<- _]]. split; [| split]; reflexivity.
  + eexists. split; [reflexivity |]. cbn [crows ccols].
    split; [| split; [| split]].
    * rewrite map_map. apply map_ext. intro d. reflexivity.
    * apply Forall_forall. intros r Hr. apply in_map_iff in Hr as [d [<- _]].
      intros d' Hd'. cbn in Hd'. injection Hd' as <-. split; reflexivity.
    * intros _. reflexivity.
    * intro H. lia.
Qed.

Definition reading_jan2 : reading :=
  mkReading "100003096" (Some 1704153600) (Some 30) (Some (4885 # 100)) (Some (235 # 100)).
Lemma C8_correlation_columns_witness :
  (exists f, correlate_chantiers_velo [reading_jan1; reading_jan2] [chantier_jan2024] = Ok f /\
             ccols f = base_cols ++ stats_cols) /\
  (exists f, correlate_chantiers_velo [reading_jan1] [chantier_jan2024] = Ok f /\
             ccols f = base_cols).
Proof.
  split.
  - destruct (C8_correlation_columns [reading_jan1; reading_jan2] [chantier_jan2024])
      as [f [Hf [_ [_ [_ H2]]]]]; [discriminate | discriminate | vm_compute; discriminate |].
    exists f. split; [exact Hf |]. apply H2. vm_compute. lia.
  - destruct (C8_correlation_columns [reading_jan1] [chantier_jan2024])
      as [f [Hf [_ [_ [H1 _]]]]]; [discriminate | discriminate | vm_compute; discriminate |].
    exists f. split; [exact Hf |]. apply H1. vm_compute. reflexivity.
Defined.

(** * Further properties of the metrics and aggregations *)

Section Keys.
Context {A : Type} (eqb ltb : A -> A -> bool).
Hypothesis eqb_eq : forall a b, eqb a b = true <-> a = b.
Hypothesis ltb_irrefl : forall a, ltb a a = false.
Hypothesis ltb_trans : forall a b c, ltb a b = true -> ltb b c = true -> ltb a c = true.
Hypothesis ltb_total : forall a b, a <> b -> ltb a b = false -> ltb b a = true.

Fixpoint kins (x : A) (l : list A) : list A :=
  match l with
  | [] => [x]
  | y :: t => if eqb x y then l else if ltb x y then x :: l else y :: kins x t
  end.

Definition kkeys (l : list A) : list A := fold_left (fun acc x => kins x acc) l [].

Definition klt (a b : A) : Prop := ltb a b = true.

Lemma kins_in (x z : A) (l : list A) : In z (kins x l) <-> z = x \/ In z l.
Proof.
  induction l as [| y t IH]; simpl; [intuition congruence |].
  destruct (eqb x y) eqn:E; [apply eqb_eq in E; subst; simpl; intuition congruence |].
  destruct (ltb x y); simpl; [intuition congruence |]. rewrite IH. intuition congruence.
Qed.

Lemma kins_sorted (x : A) (l : list A) : StronglySorted klt l -> StronglySorted klt (kins x l).
Proof.
  induction l as [| y t IH]; intros H; simpl; [repeat constructor |].
  inversion H as [| ? ? Ht Hf]; subst.
  destruct (eqb x y) eqn:E; [exact H |].
  destruct (ltb x y) eqn:L.
  - constructor; [exact H |]. constructor; [exact L |].
    rewrite Forall_forall in *. intros z Hz. unfold klt. eapply ltb_trans; [exact L | apply Hf, Hz].
  - constructor; [now apply IH |]. rewrite Forall_forall in *. intros z Hz.
    apply kins_in in Hz as [-> | Hz]; [| now apply Hf].
    unfold klt. apply ltb_total; [| exact L].
    intros ->. rewrite (proj2 (eqb_eq y y) eq_refl) in E. discriminate.
Qed.

Lemma kkeys_spec (l : list A) :
  StronglySorted klt (kkeys l) /\ (forall z, In z (kkeys l) <-> In z l).
Proof.
  unfold kkeys.
  assert (G : forall acc, StronglySorted klt acc ->
            StronglySorted klt (fold_left (fun acc x => kins x acc) l acc) /\
            (forall z, In z (fold_left (fun acc x => kins x acc) l acc) <-> In z acc \/ In z l)).
  { induction l as [| x t IH]; intros acc Hs; simpl; [split; [exact Hs | intros; simpl; tauto] |].
    destruct (IH (kins x acc) (kins_sorted x acc Hs)) as [H1 H2]. split; [exact H1 |].
    intros z. rewrite H2, kins_in. simpl. intuition congruence. }
  destruct (G [] (SSorted_nil _)) as [H1 H2]. split; [exact H1 |]. intros z. rewrite H2. simpl. tauto.
Qed.

Lemma sorted_klt_nodup (l : list A) : StronglySorted klt l -> NoDup l.
Proof.
  induction 1 as [| a t _ IH Hf]; constructor; [| exact IH].
  intros Hin. rewrite Forall_forall in Hf. specialize (Hf a Hin). unfold klt in Hf.
  rewrite ltb_irrefl in Hf. discriminate.
Qed.

Lemma kkeys_nodup (l : list A) : NoDup (kkeys l).
Proof. apply sorted_klt_nodup, kkeys_spec. Qed.

Lemma sumQ_app (a b : list Q) : (sumQ (a ++ b) == sumQ a + sumQ b)%Q.
Proof. induction a as [| x t IH]; simpl; [ring |]. rewrite IH. ring. Qed.

Lemma sumQ_map_ext {C : Type} (f g : C -> Q) (l : list C) :
  (forall x, f x == g x)%Q -> (sumQ (map f l) == sumQ (map g l))%Q.
Proof. intros H. induction l as [| x t IH]; simpl; [reflexivity |]. rewrite H, IH. reflexivity. Qed.

Lemma sumQ_map_add {C : Type} (f g : C -> Q) (l : list C) :
  (sumQ (map (fun x => f x + g x) l) == sumQ (map f l) + sumQ (map g l))%Q.
Proof. induction l as [| x t IH]; simpl; [ring |]. rewrite IH. ring. Qed.

Lemma sum_hit_none (x : A) (v : list Q) (ks : list A) :
  ~ In x ks -> (sumQ (map (fun k => sumQ (if eqb x k then v else [])) ks) == 0)%Q.
Proof.
  induction ks as [| k t IH]; intros Hn; simpl; [reflexivity |].
  destruct (eqb x k) eqn:E.
  - apply eqb_eq in E. subst. exfalso. apply Hn. now left.
  - simpl. rewrite IH; [reflexivity |]. intros H. apply Hn. now right.
Qed.

Lemma sum_hit_one (x : A) (v : list Q) (ks : list A) :
  NoDup ks -> In x ks -> (sumQ (map (fun k => sumQ (if eqb x k then v else [])) ks) == sumQ v)%Q.
Proof.
  induction ks as [| k t IH]; intros Hnd Hin; [destruct Hin |].
  inversion Hnd as [| ? ? Hk Ht]; subst. simpl.
  destruct (eqb x k) eqn:E.
  - apply eqb_eq in E. subst. rewrite sum_hit_none by exact Hk. ring.
  - destruct Hin as [Ek | Hin].
    + assert (eqb x k = true) by (apply eqb_eq; congruence). congruence.
    + simpl. rewrite IH by assumption. ring.
Qed.

(** Summing per key over a key list with no duplicate that covers every
    key gives the total. *)
Lemma sum_over_keys {B : Type} (key : B -> A) (w : B -> list Q) (ks : list A) (l : list B) :
  NoDup ks -> (forall b, In b l -> w b <> [] -> In (key b) ks) ->
  (sumQ (map (fun k => sumQ (flat_map (fun b => if eqb (key b) k then w b else []) l)) ks)
   == sumQ (flat_map w l))%Q.
Proof.
  intros Hnd Hcov.
  induction l as [| b t IH].
  - cbn [flat_map]. rewrite (sumQ_map_ext _ (fun _ => 0%Q)) by reflexivity.
    clear. induction ks as [| k ks' IHk]; [reflexivity |]. cbn [map].
    change (sumQ (0%Q :: map (fun _ => 0%Q) ks')) with (0 + sumQ (map (fun _ => 0%Q) ks'))%Q.
    rewrite IHk. reflexivity.
  - cbn [flat_map]. rewrite sumQ_app.
    rewrite (sumQ_map_ext (fun k => sumQ (flat_map (fun b0 => if eqb (key b0) k then w b0 else []) (b :: t)))
               (fun k => sumQ (if eqb (key b) k then w b else []) +
                         sumQ (flat_map (fun b0 => if eqb (key b0) k then w b0 else []) t))%Q)
      by (intros k; simpl; apply sumQ_app).
    rewrite sumQ_map_add, IH by (intros b0 Hb0; apply Hcov; now right).
    apply Qplus_inj_r.
    destruct (w b) as [| q qs] eqn:Ew.
    + clear. induction ks as [| k ks' IHk]; [reflexivity |]. cbn [map].
      destruct (eqb (key b) k);
        change (sumQ (sumQ [] :: map (fun k => sumQ (if eqb (key b) k then [] else [])) ks'))
          with (0 + sumQ (map (fun k => sumQ (if eqb (key b) k then [] else [])) ks'))%Q;
        rewrite IHk; reflexivity.
    + rewrite <- Ew. apply sum_hit_one; [exact Hnd |]. apply Hcov; [now left | congruence].
Qed.
End Keys.

Lemma str_compare_refl (s : string) : String.compare s s = Eq.
Proof.
  induction s as [| c s IH]; simpl; [reflexivity |].
  unfold Ascii.compare. rewrite N.compare_refl. exact IH.
Qed.

Lemma str_compare_lt_trans (a b c : string) :
  String.compare a b = Lt -> String.compare b c = Lt -> String.compare a c = Lt.
Proof.
  revert b c. induction a as [| x a IH]; intros b c H1 H2;
    destruct b as [| y b]; destruct c as [| z c]; simpl in *; try discriminate; try reflexivity.
  unfold Ascii.compare in *.
  destruct (N.compare (N_of_ascii x) (N_of_ascii y)) eqn:E1; try discriminate;
  destruct (N.compare (N_of_ascii y) (N_of_ascii z)) eqn:E2; try discriminate.
  - apply N.compare_eq_iff in E1, E2. rewrite E1, E2, N.compare_refl. eauto.
  - apply N.compare_eq_iff in E1. rewrite E1, E2. reflexivity.
  - apply N.compare_eq_iff in E2. rewrite <- E2, E1. reflexivity.
  - 
    replace (N.compare (N_of_ascii x) (N_of_ascii z)) with Lt; [reflexivity |].
    symmetry. apply N.compare_lt_iff. rewrite N.compare_lt_iff in E1, E2. lia.
Qed.

Lemma str_ltb_irrefl (s : string) : String.ltb s s = false.
Proof. unfold String.ltb. now rewrite str_compare_refl. Qed.

Lemma str_ltb_trans (a b c : string) :
  String.ltb a b = true -> String.ltb b c = true -> String.ltb a c = true.
Proof.
  unfold String.ltb. destruct (String.compare a b) eqn:E1; try discriminate.
  destruct (String.compare b c) eqn:E2; try discriminate.
  now rewrite (str_compare_lt_trans a b c E1 E2).
Qed.

Lemma str_ltb_total (a b : string) : a <> b -> String.ltb a b = false -> String.ltb b a = true.
Proof.
  unfold String.ltb. intros Hne. rewrite (String.compare_antisym b a).
  destruct (String.compare a b) eqn:E; simpl; try discriminate; try reflexivity.
  apply String.compare_eq_iff in E. contradiction.
Qed.

Lemma z_ltb_total (a b : Z) : a <> b -> Z.ltb a b = false -> Z.ltb b a = true.
Proof. intros. apply Z.ltb_ge in H0. apply Z.ltb_lt. lia. Qed.

Lemma z_ltb_trans (a b c : Z) : Z.ltb a b = true -> Z.ltb b c = true -> Z.ltb a c = true.
Proof. rewrite !Z.ltb_lt. lia. Qed.

(** [group_keys] on keys of one kind is the key insertion on the payloads. *)
Section Embed.
Context {A : Type} (inj : A -> value) (eqb ltb : A -> A -> bool).
Hypothesis inj_eqb : forall a b, value_eqb (inj a) (inj b) = eqb a b.
Hypothesis inj_ltb : forall a b, value_ltb (inj a) (inj b) = ltb a b.
Hypothesis inj_null : forall a, is_null (inj a) = false.

Lemma insert_key_inj (x : A) (l : list A) :
  insert_key (inj x) (map inj l) = map inj (kins eqb ltb x l).
Proof.
  induction l as [| y t IH]; simpl; [reflexivity |].
  rewrite inj_eqb, inj_ltb. destruct (eqb x y); [reflexivity |].
  destruct (ltb x y); [reflexivity |]. simpl. now rewrite IH.
Qed.

Lemma group_keys_inj (l : list A) : group_keys (map inj l) = map inj (kkeys eqb ltb l).
Proof.
  unfold group_keys, kkeys.
  assert (G : forall acc, fold_left (fun acc k => if is_null k then acc else insert_key k acc)
                            (map inj l) (map inj acc) =
                          map inj (fold_left (fun acc x => kins eqb ltb x acc) l acc)).
  { induction l as [| x t IH]; intros acc; simpl; [reflexivity |].
    rewrite inj_null, insert_key_inj. apply IH. }
  exact (G []).
Qed.
End Embed.

Lemma group_keys_str (l : list string) :
  group_keys (map VStr l) = map VStr (kkeys String.eqb String.ltb l).
Proof. apply group_keys_inj; reflexivity. Qed.

Lemma group_keys_date (l : list Z) :
  group_keys (map VDate l) = map VDate (kkeys Z.eqb Z.ltb l).
Proof. apply group_keys_inj; reflexivity. Qed.

Lemma group_keys_int (l : list Z) :
  group_keys (map VInt l) = map VInt (kkeys Z.eqb Z.ltb l).
Proof. apply group_keys_inj; reflexivity. Qed.

Lemma kkeys_str_spec (l : list string) :
  StronglySorted (fun a b => String.ltb a b = true) (kkeys String.eqb String.ltb l) /\
  NoDup (kkeys String.eqb String.ltb l) /\
  (forall z, In z (kkeys String.eqb String.ltb l) <-> In z l).
Proof.
  destruct (kkeys_spec String.eqb String.ltb String.eqb_eq str_ltb_trans str_ltb_total l) as [H1 H2].
  split; [exact H1 | split; [| exact H2]].
  eapply sorted_klt_nodup; [exact str_ltb_irrefl | exact H1].
Qed.

Lemma kkeys_z_spec (l : list Z) :
  StronglySorted (fun a b => Z.ltb a b = true) (kkeys Z.eqb Z.ltb l) /\
  NoDup (kkeys Z.eqb Z.ltb l) /\
  (forall z, In z (kkeys Z.eqb Z.ltb l) <-> In z l).
Proof.
  destruct (kkeys_spec Z.eqb Z.ltb Z.eqb_eq z_ltb_trans z_ltb_total l) as [H1 H2].
  split; [exact H1 | split; [| exact H2]].
  eapply sorted_klt_nodup; [exact Z.ltb_irrefl | exact H1].
Qed.

Lemma sumQ_perm (a b : list Q) : Permutation a b -> (sumQ a == sumQ b)%Q.
Proof.
  induction 1; simpl; try reflexivity.
  - rewrite IHPermutation. reflexivity.
  - ring.
  - rewrite IHPermutation1. exact IHPermutation2.
Qed.

Lemma flat_map_app_perm {B C : Type} (f g : B -> list C) (l : list B) :
  Permutation (flat_map (fun x => f x ++ g x) l) (flat_map f l ++ flat_map g l).
Proof.
  induction l as [| x t IH]; simpl; [reflexivity |].
  rewrite <- !app_assoc. apply Permutation_app_head.
  rewrite IH. apply Permutation_app_swap_app.
Qed.

Section Keys2.
Context {A : Type} (eqb : A -> A -> bool).
Hypothesis eqb_eq : forall a b, eqb a b = true <-> a = b.

Lemma hit_none {C : Type} (x : A) (v : list C) (ks : list A) :
  ~ In x ks -> flat_map (fun k => if eqb x k then v else []) ks = [].
Proof.
  induction ks as [| k t IH]; intros Hn; simpl; [reflexivity |].
  destruct (eqb x k) eqn:E.
  - apply eqb_eq in E. subst. exfalso. apply Hn. now left.
  - apply IH. intros H. apply Hn. now right.
Qed.

Lemma hit_one {C : Type} (x : A) (v : list C) (ks : list A) :
  NoDup ks -> In x ks -> flat_map (fun k => if eqb x k then v else []) ks = v.
Proof.
  induction ks as [| k t IH]; intros Hnd Hin; [destruct Hin |].
  inversion Hnd as [| ? ? Hk Ht]; subst. simpl.
  destruct (eqb x k) eqn:E.
  - apply eqb_eq in E. subst. rewrite hit_none by exact Hk. apply app_nil_r.
  - destruct Hin as [Ek | Hin].
    + assert (eqb x k = true) by (apply eqb_eq; congruence). congruence.
    + exact (IH Ht Hin).
Qed.

Lemma hit_empty {C : Type} (x : A) (ks : list A) :
  flat_map (fun k => if eqb x k then ([] : list C) else []) ks = [].
Proof. induction ks as [| k t IH]; simpl; [reflexivity |]. destruct (eqb x k); exact IH. Qed.

(** Regrouping per key, over a key list with no duplicate covering every
    key, only reorders the payloads. *)
Lemma flat_map_keys_perm {B C : Type} (key : B -> A) (w : B -> list C) (ks : list A) (l : list B) :
  NoDup ks -> (forall b, In b l -> w b <> [] -> In (key b) ks) ->
  Permutation (flat_map (fun k => flat_map (fun b => if eqb (key b) k then w b else []) l) ks)
              (flat_map w l).
Proof.
  intros Hnd Hcov. induction l as [| b t IH].
  - simpl. clear. induction ks; simpl; auto.
  - simpl. etransitivity; [apply flat_map_app_perm |]. apply Permutation_app.
    + destruct (w b) as [| c cs] eqn:Ew; [rewrite hit_empty; reflexivity |].
      rewrite <- Ew. rewrite hit_one; [reflexivity | exact Hnd |].
      apply Hcov; [now left | congruence].
    + apply IH. intros b0 Hb0. apply Hcov. now right.
Qed.
End Keys2.

(* ------------------------------------------------------------------ *)
(** Bounds of the reductions. *)

Lemma fold_Qmin_spec (t : list Q) (x : Q) :
  (forall y, In y (x :: t) -> fold_left Qmin t x <= y)%Q /\ In (fold_left Qmin t x) (x :: t).
Proof.
  revert x. induction t as [| y t IH]; intros x; cbn [fold_left].
  - split; [intros y [<- | []]; apply Qle_refl | now left].
  - destruct (IH (Qmin x y)) as [H1 H2]. split.
    + intros z Hz. destruct Hz as [<- | [<- | Hz]].
      * eapply Qle_trans; [apply H1; now left | apply Q.le_min_l].
      * eapply Qle_trans; [apply H1; now left | apply Q.le_min_r].
      * apply H1. now right.
    + destruct H2 as [E | H2]; [| right; right; exact H2].
      rewrite <- E. unfold Qmin, GenericMinMax.gmin. destruct (Qcompare x y); [now left | now left | right; now left].
Qed.

Lemma fold_Qmax_spec (t : list Q) (x : Q) :
  (forall y, In y (x :: t) -> y <= fold_left Qmax t x)%Q /\ In (fold_left Qmax t x) (x :: t).
Proof.
  revert x. induction t as [| y t IH]; intros x; cbn [fold_left].
  - split; [intros y [<- | []]; apply Qle_refl | now left].
  - destruct (IH (Qmax x y)) as [H1 H2]. split.
    + intros z Hz. destruct Hz as [<- | [<- | Hz]].
      * eapply Qle_trans; [apply Q.le_max_l | apply H1; now left].
      * eapply Qle_trans; [apply Q.le_max_r | apply H1; now left].
      * apply H1. now right.
    + destruct H2 as [E | H2]; [| right; right; exact H2].
      rewrite <- E. unfold Qmax, GenericMinMax.gmax. destruct (Qcompare x y); [now left | right; now left | now left].
Qed.

Lemma min_of_spec (l : list Q) (m : Q) :
  min_of l = Some m -> In m l /\ (forall y, In y l -> m <= y)%Q.
Proof.
  destruct l as [| x t]; simpl; intros H; [discriminate |]. injection H as <-.
  destruct (fold_Qmin_spec t x). split; assumption.
Qed.

Lemma max_of_spec (l : list Q) (m : Q) :
  max_of l = Some m -> In m l /\ (forall y, In y l -> y <= m)%Q.
Proof.
  destruct l as [| x t]; simpl; intros H; [discriminate |]. injection H as <-.
  destruct (fold_Qmax_spec t x). split; assumption.
Qed.

Lemma sumQ_lower (l : list Q) (lo : Q) :
  (forall y, In y l -> lo <= y)%Q -> (inject_Z (Z.of_nat (length l)) * lo <= sumQ l)%Q.
Proof.
  induction l as [| x t IH]; intros H; [change (0 * lo <= 0)%Q; lra |].
  change (sumQ (x :: t)) with (x + sumQ t)%Q. change (length (x :: t)) with (S (length t)).
  rewrite Nat2Z.inj_succ, <- Z.add_1_l, inject_Z_plus. change (inject_Z 1) with 1%Q.
  assert (lo <= x)%Q by (apply H; now left).
  assert (inject_Z (Z.of_nat (length t)) * lo <= sumQ t)%Q by (apply IH; intros; apply H; now right).
  lra.
Qed.

Lemma sumQ_upper (l : list Q) (hi : Q) :
  (forall y, In y l -> y <= hi)%Q -> (sumQ l <= inject_Z (Z.of_nat (length l)) * hi)%Q.
Proof.
  induction l as [| x t IH]; intros H; [change (0 <= 0 * hi)%Q; lra |].
  change (sumQ (x :: t)) with (x + sumQ t)%Q. change (length (x :: t)) with (S (length t)).
  rewrite Nat2Z.inj_succ, <- Z.add_1_l, inject_Z_plus. change (inject_Z 1) with 1%Q.
  assert (x <= hi)%Q by (apply H; now left).
  assert (sumQ t <= inject_Z (Z.of_nat (length t)) * hi)%Q by (apply IH; intros; apply H; now right).
  lra.
Qed.

Lemma length_pos_Q {C : Type} (l : list C) : l <> [] -> (0 < inject_Z (Z.of_nat (length l)))%Q.
Proof.
  intros H. destruct l as [| x t]; [congruence |]. change 0%Q with (inject_Z 0).
  rewrite <- Zlt_Qlt. simpl length. lia.
Qed.

Lemma meanQ_spec (l : list Q) (m : Q) :
  meanQ l = Some m -> l <> [] /\ (sumQ l == m * inject_Z (Z.of_nat (length l)))%Q.
Proof.
  unfold meanQ. destruct l as [| x t]; intros H; [discriminate |].
  assert (Hm : m = (sumQ (x :: t) / inject_Z (Z.of_nat (length (x :: t))))%Q) by congruence.
  subst m. split; [discriminate |].
  assert (Hp : (0 < inject_Z (Z.of_nat (length (x :: t))))%Q) by (apply length_pos_Q; discriminate).
  set (n := inject_Z (Z.of_nat (length (x :: t)))) in *. set (s := sumQ (x :: t)).
  assert (Hn : ~ (n == 0)%Q) by (intros E; rewrite E in Hp; exact (Qlt_irrefl 0 Hp)).
  field. exact Hn.
Qed.

Lemma meanQ_bounds (l : list Q) (m lo hi : Q) :
  meanQ l = Some m -> (forall y, In y l -> lo <= y <= hi)%Q -> (lo <= m <= hi)%Q.
Proof.
  intros Hm Hb. destruct (meanQ_spec l m Hm) as [Hne Hs].
  pose proof (length_pos_Q l Hne) as Hn.
  pose proof (sumQ_lower l lo (fun y Hy => proj1 (Hb y Hy))) as H1.
  pose proof (sumQ_upper l hi (fun y Hy => proj2 (Hb y Hy))) as H2.
  rewrite Hs in H1, H2. split.
  - apply (Qmult_le_r _ _ _ Hn). rewrite (Qmult_comm lo). exact H1.
  - apply (Qmult_le_r _ _ _ Hn). rewrite (Qmult_comm hi). exact H2.
Qed.

Lemma median_of_bounds (l : list Q) (md lo hi : Q) :
  median_of l = Some md -> (forall y, In y l -> lo <= y <= hi)%Q -> (lo <= md <= hi)%Q.
Proof.
  unfold median_of. intros H Hb.
  set (s := sort_desc (fun x => x) l) in H.
  assert (Hs : forall y, In y s -> (lo <= y <= hi)%Q).
  { intros y Hy. apply Hb. apply (Permutation_in y (Permutation_sym (sort_desc_perm (fun x => x) l))). exact Hy. }
  assert (Hn : forall i, (i < length s)%nat -> (lo <= nth i s 0 <= hi)%Q).
  { intros i Hi. apply Hs, nth_In, Hi. }
  destruct (length s) as [| n] eqn:El; [discriminate |].
  assert (A1 : (S n / 2 < S n)%nat) by (apply Nat.div_lt; lia).
  assert (A2 : (S n / 2 - 1 < S n)%nat) by lia.
  destruct (Hn _ A1) as [B1 B2]. destruct (Hn _ A2) as [C1 C2].
  destruct (Nat.odd (S n)).
  - assert (E : md = nth (S n / 2) s 0%Q) by congruence. subst md. split; assumption.
  - assert (E : md = ((nth (S n / 2 - 1) s 0 + nth (S n / 2) s 0) / 2)%Q) by congruence.
    subst md. split.
    + apply Qle_shift_div_l; [reflexivity | lra].
    + apply Qle_shift_div_r; [reflexivity | lra].
Qed.

Lemma flat_map_vstr {C : Type} (F : string -> C) (l : list string) :
  flat_map (fun k => match k with VStr id => [F id] | _ => [] end) (map VStr l) = map F l.
Proof. induction l as [| x t IH]; simpl; [reflexivity | now rewrite IH]. Qed.

Lemma compteur_keys_eq (rs : list reading) :
  compteur_keys rs = map VStr (kkeys String.eqb String.ltb (map compteur_id rs)).
Proof.
  unfold compteur_keys. rewrite <- group_keys_str, map_map. reflexivity.
Qed.

Definition count_of (r : reading) : list Q :=
  match comptage_horaire r with Some c => [inject_Z c] | None => [] end.

Lemma counts_of_eq (id : string) (rs : list reading) :
  counts_of id rs = flat_map (fun r => if String.eqb (compteur_id r) id then count_of r else []) rs.
Proof. reflexivity. Qed.

Lemma debit_horaire_eq (rs : list reading) :
  calculate_debit_horaire rs =
  map (fun id => let l := counts_of id rs in
                 mkDH id (meanQ l) (median_of l) (min_of l) (max_of l) (sumQ l) (Z.of_nat (length l)))
      (kkeys String.eqb String.ltb (map compteur_id rs)).
Proof.
  destruct rs as [| r rs]; [reflexivity |].
  unfold calculate_debit_horaire. rewrite compteur_keys_eq. apply flat_map_vstr.
Qed.

Lemma sum_lengths {B C : Type} (f : B -> list C) (l : list B) :
  fold_right Z.add 0 (map (fun x => Z.of_nat (length (f x))) l) = Z.of_nat (length (flat_map f l)).
Proof.
  induction l as [| x t IH]; simpl; [reflexivity |]. rewrite IH, length_app. lia.
Qed.

Lemma sumQ_flat_map {B : Type} (f : B -> list Q) (l : list B) :
  (sumQ (map (fun x => sumQ (f x)) l) == sumQ (flat_map f l))%Q.
Proof.
  induction l as [| x t IH]; [reflexivity |].
  change (sumQ (flat_map f (x :: t))) with (sumQ (f x ++ flat_map f t)).
  rewrite sumQ_app, <- IH. reflexivity.
Qed.

Lemma length_count_of (rs : list reading) :
  length (flat_map count_of rs) =
  length (filter (fun r => match comptage_horaire r with Some _ => true | None => false end) rs).
Proof.
  induction rs as [| r t IH]; simpl; [reflexivity |].
  unfold count_of at 1. destruct (comptage_horaire r); simpl; congruence.
Qed.

Lemma counts_regroup (rs : list reading) :
  Permutation (flat_map (fun id => counts_of id rs) (kkeys String.eqb String.ltb (map compteur_id rs)))
              (flat_map count_of rs).
Proof.
  destruct (kkeys_str_spec (map compteur_id rs)) as [_ [Hnd Hin]].
  apply (flat_map_keys_perm String.eqb String.eqb_eq compteur_id count_of); [exact Hnd |].
  intros b Hb _. apply Hin, in_map, Hb.
Qed.

(** X3: each row of [calculate_debit_horaire] either has no count (0
    measurements, NaN statistics, total 0) or has min <= median <= max,
    min <= mean <= max, and a total equal to mean times the number of
    measurements. *)
Theorem debit_horaire_stats (rs : list reading) (r : debit_horaire_row) :
  In r (calculate_debit_horaire rs) ->
  (nb_mesures r = 0 /\ debit_horaire_moyen r = None /\ debit_horaire_median r = None /\
   debit_horaire_min r = None /\ debit_horaire_max r = None /\ (debit_total r == 0)%Q) \/
  (0 < nb_mesures r /\
   exists mn md m mx, debit_horaire_min r = Some mn /\ debit_horaire_median r = Some md /\
     debit_horaire_moyen r = Some m /\ debit_horaire_max r = Some mx /\
     (mn <= md <= mx)%Q /\ (mn <= m <= mx)%Q /\
     (debit_total r == m * inject_Z (nb_mesures r))%Q).
Proof.
  rewrite debit_horaire_eq, in_map_iff. intros [id [<- _]]. cbn.
  set (l := counts_of id rs).
  destruct l as [| x t] eqn:El; [left; repeat split; reflexivity |]. right. split; [simpl; lia |].
  rewrite <- El.
  destruct (min_of l) as [mn |] eqn:Emn; [| rewrite El in Emn; discriminate].
  destruct (max_of l) as [mx |] eqn:Emx; [| rewrite El in Emx; discriminate].
  destruct (meanQ l) as [m |] eqn:Em; [| rewrite El in Em; discriminate].
  destruct (median_of l) as [md |] eqn:Emd.
  2:{ exfalso. unfold median_of in Emd. cbv zeta in Emd.
      pose proof (Permutation_length (sort_desc_perm (fun x => x) l)) as Hp.
      rewrite <- Hp, El in Emd. simpl in Emd. destruct (Nat.odd _); discriminate. }
  exists mn, md, m, mx. repeat split; try reflexivity.
  - apply min_of_spec in Emn as [_ H1]. apply max_of_spec in Emx as [_ H2].
    apply (proj1 (median_of_bounds l md mn mx Emd (fun y Hy => conj (H1 y Hy) (H2 y Hy)))).
  - apply min_of_spec in Emn as [_ H1]. apply max_of_spec in Emx as [_ H2].
    apply (proj2 (median_of_bounds l md mn mx Emd (fun y Hy => conj (H1 y Hy) (H2 y Hy)))).
  - apply min_of_spec in Emn as [_ H1]. apply max_of_spec in Emx as [_ H2].
    apply (proj1 (meanQ_bounds l m mn mx Em (fun y Hy => conj (H1 y Hy) (H2 y Hy)))).
  - apply min_of_spec in Emn as [_ H1]. apply max_of_spec in Emx as [_ H2].
    apply (proj2 (meanQ_bounds l m mn mx Em (fun y Hy => conj (H1 y Hy) (H2 y Hy)))).
  - apply meanQ_spec in Em as [_ Hs]. exact Hs.
Qed.

(** X4: one row per counter of the input, in increasing id order; the
    counts and sums add up to those of the input. *)
Theorem debit_horaire_per_counter (rs : list reading) :
  StronglySorted (fun a b => String.ltb a b = true) (map dh_compteur_id (calculate_debit_horaire rs)) /\
  (forall id, In id (map dh_compteur_id (calculate_debit_horaire rs)) <->
              exists r, In r rs /\ compteur_id r = id) /\
  fold_right Z.add 0 (map nb_mesures (calculate_debit_horaire rs)) =
    Z.of_nat (length (filter (fun r => match comptage_horaire r with Some _ => true | None => false end) rs)) /\
  (sumQ (map debit_total (calculate_debit_horaire rs)) ==
   sumQ (flat_map (fun r => match comptage_horaire r with Some c => [inject_Z c] | None => [] end) rs))%Q.
Proof.
  rewrite debit_horaire_eq. rewrite !map_map. cbn.
  destruct (kkeys_str_spec (map compteur_id rs)) as [Hs [Hnd Hin]].
  rewrite map_id. split; [exact Hs |]. split; [| split].
  - intros id. rewrite Hin, in_map_iff. firstorder.
  - rewrite sum_lengths, (Permutation_length (counts_regroup rs)). f_equal. apply length_count_of.
  - rewrite sumQ_flat_map. apply sumQ_perm, counts_regroup.
Qed.

Section EmbedOpt.
Context {A B : Type} (inj : A -> value) (eqb ltb : A -> A -> bool).
Hypothesis inj_eqb : forall a b, value_eqb (inj a) (inj b) = eqb a b.
Hypothesis inj_ltb : forall a b, value_ltb (inj a) (inj b) = ltb a b.
Hypothesis inj_null : forall a, is_null (inj a) = false.

(** [groupby] keys of an optional key: the null keys are dropped. *)
Lemma group_keys_opt (f : B -> option A) (l : list B) :
  group_keys (map (fun b => match f b with Some a => inj a | None => VNull end) l) =
  map inj (kkeys eqb ltb (flat_map (fun b => match f b with Some a => [a] | None => [] end) l)).
Proof.
  unfold group_keys, kkeys.
  assert (G : forall acc, fold_left (fun acc k => if is_null k then acc else insert_key k acc)
                            (map (fun b => match f b with Some a => inj a | None => VNull end) l) (map inj acc) =
                          map inj (fold_left (fun acc x => kins eqb ltb x acc)
                                     (flat_map (fun b => match f b with Some a => [a] | None => [] end) l) acc)).
  { induction l as [| x t IH]; intros acc; simpl; [reflexivity |].
    destruct (f x) as [a |]; simpl; [| apply IH].
    rewrite inj_null, (insert_key_inj inj eqb ltb inj_eqb inj_ltb). apply IH. }
  exact (G []).
Qed.
End EmbedOpt.

Lemma group_keys_date_opt {B : Type} (f : B -> option Z) (l : list B) :
  group_keys (map (fun b => match f b with Some a => VDate a | None => VNull end) l) =
  map VDate (kkeys Z.eqb Z.ltb (flat_map (fun b => match f b with Some a => [a] | None => [] end) l)).
Proof. apply group_keys_opt; reflexivity. Qed.

Lemma group_keys_str_opt {B : Type} (f : B -> option string) (l : list B) :
  group_keys (map (fun b => match f b with Some a => VStr a | None => VNull end) l) =
  map VStr (kkeys String.eqb String.ltb (flat_map (fun b => match f b with Some a => [a] | None => [] end) l)).
Proof. apply group_keys_opt; reflexivity. Qed.

Lemma flat_map_filter {B C : Type} (p : B -> bool) (w : B -> list C) (l : list B) :
  flat_map w (filter p l) = flat_map (fun b => if p b then w b else []) l.
Proof. induction l as [| x t IH]; simpl; [reflexivity |]. destruct (p x); simpl; congruence. Qed.

(** The day of a reading, and its count when it has a day. *)
Definition day_opt (r : reading) : option Z :=
  match date_heure r with Some t => Some (day_of_ts t) | None => None end.

Definition dated_count (r : reading) : list Q :=
  match date_heure r with Some _ => count_of r | None => [] end.

Lemma date_key_opt (r : reading) :
  date_key r = match day_opt r with Some a => VDate a | None => VNull end.
Proof. unfold date_key, day_opt. destruct (date_heure r); reflexivity. Qed.

Lemma day_counts_eq (d : Z) (rs : list reading) :
  day_counts (VDate d) rs =
  flat_map (fun r => if Z.eqb (match day_opt r with Some a => a | None => 0 end) d
                     then dated_count r else []) rs.
Proof.
  apply flat_map_ext. intros r. unfold date_key, day_opt, dated_count, count_of.
  destruct (date_heure r); simpl; [reflexivity |]. destruct d; reflexivity.
Qed.

Lemma dated_count_rows (rs : list reading) :
  flat_map dated_count rs = flat_map count_of (dated_rows rs).
Proof.
  unfold dated_rows. rewrite flat_map_filter. apply flat_map_ext. intros r.
  unfold dated_count, date_key. destruct (date_heure r); reflexivity.
Qed.

Lemma dated_count_dated (rs : list reading) :
  flat_map dated_count (dated_rows rs) = flat_map count_of (dated_rows rs).
Proof.
  unfold dated_rows. rewrite !flat_map_filter. apply flat_map_ext. intros r.
  unfold dated_count, date_key. destruct (date_heure r); reflexivity.
Qed.

Lemma days_regroup (rs : list reading) :
  Permutation (flat_map (fun d => day_counts (VDate d) rs)
                 (kkeys Z.eqb Z.ltb (flat_map (fun r => match day_opt r with Some a => [a] | None => [] end) rs)))
              (flat_map dated_count rs).
Proof.
  destruct (kkeys_z_spec (flat_map (fun r => match day_opt r with Some a => [a] | None => [] end) rs))
    as [_ [Hnd Hin]].
  rewrite (flat_map_ext _ _ (fun d => day_counts_eq d rs)).
  apply (flat_map_keys_perm Z.eqb Z.eqb_eq (fun r => match day_opt r with Some a => a | None => 0 end)
           dated_count); [exact Hnd |].
  intros r Hr Hne. apply Hin, in_flat_map. exists r. split; [exact Hr |].
  unfold dated_count, day_opt in *. destruct (date_heure r); [now left | congruence].
Qed.

Lemma dated_rows_ids (rs : list reading) :
  compteur_keys (dated_rows rs) = map VStr (kkeys String.eqb String.ltb (map compteur_id (dated_rows rs))).
Proof. apply compteur_keys_eq. Qed.

Lemma aggregate_comptage_velo_eq (rs : list reading) :
  aggregate_comptage_velo rs =
  flat_map (fun id =>
    let mine := filter (fun r => String.eqb (compteur_id r) id) (dated_rows rs) in
    map (fun d => let l := day_counts (VDate d) mine in
                  mkCJ id d (sumQ l) (meanQ l) (max_of l))
        (kkeys Z.eqb Z.ltb (flat_map (fun r => match day_opt r with Some a => [a] | None => [] end) mine)))
    (kkeys String.eqb String.ltb (map compteur_id (dated_rows rs))).
Proof.
  unfold aggregate_comptage_velo. rewrite compteur_keys_eq.
  induction (kkeys String.eqb String.ltb (map compteur_id (dated_rows rs))) as [| id t IH];
    [reflexivity |].
  simpl. rewrite IH. f_equal.
  rewrite (map_ext date_key (fun r => match day_opt r with Some a => VDate a | None => VNull end))
    by apply date_key_opt.
  rewrite group_keys_date_opt, map_map. reflexivity.
Qed.

(** X5: [aggregate_comptage_velo] keeps the total of the dated counts. *)
Theorem comptage_velo_total (rs : list reading) :
  (sumQ (map comptage_total (aggregate_comptage_velo rs)) ==
   sumQ (flat_map count_of (dated_rows rs)))%Q.
Proof.
  rewrite aggregate_comptage_velo_eq.
  rewrite <- dated_count_dated.
  set (frame := dated_rows rs).
  assert (E : forall id, (sumQ (map comptage_total
                 (map (fun d => let l := day_counts (VDate d) (filter (fun r => String.eqb (compteur_id r) id) frame) in
                                mkCJ id d (sumQ l) (meanQ l) (max_of l))
                    (kkeys Z.eqb Z.ltb (flat_map (fun r => match day_opt r with Some a => [a] | None => [] end)
                                          (filter (fun r => String.eqb (compteur_id r) id) frame))))) ==
               sumQ (flat_map (fun r => if String.eqb (compteur_id r) id then dated_count r else []) frame))%Q).
  { intros id. rewrite map_map. cbn [comptage_total]. rewrite sumQ_flat_map.
    rewrite (sumQ_perm _ _ (days_regroup _)). rewrite flat_map_filter. reflexivity. }
  assert (G : forall ids, (sumQ (map comptage_total (flat_map (fun id =>
      map (fun d => let l := day_counts (VDate d) (filter (fun r => String.eqb (compteur_id r) id) frame) in
                    mkCJ id d (sumQ l) (meanQ l) (max_of l))
          (kkeys Z.eqb Z.ltb (flat_map (fun r => match day_opt r with Some a => [a] | None => [] end)
                                (filter (fun r => String.eqb (compteur_id r) id) frame)))) ids)) ==
      sumQ (flat_map (fun id => flat_map (fun r => if String.eqb (compteur_id r) id then dated_count r else []) frame) ids))%Q).
  { induction ids as [| id t IH]; [reflexivity |].
    cbn [flat_map]. rewrite map_app, !sumQ_app, IH, E. reflexivity. }
  rewrite G.
  destruct (kkeys_str_spec (map compteur_id frame)) as [_ [Hnd Hin]].
  apply sumQ_perm, (flat_map_keys_perm String.eqb String.eqb_eq compteur_id dated_count); [exact Hnd |].
  intros r Hr _. apply Hin, in_map, Hr.
Qed.

Lemma in_kkeys_opt {B : Type} (f : B -> option Z) (l : list B) (d : Z) :
  In d (kkeys Z.eqb Z.ltb (flat_map (fun b => match f b with Some a => [a] | None => [] end) l)) ->
  exists b, In b l /\ f b = Some d.
Proof.
  intros H. destruct (kkeys_z_spec (flat_map (fun b => match f b with Some a => [a] | None => [] end) l)) as [_ [_ Hi]].
  apply Hi in H. apply in_flat_map in H as [b [Hb Hd]].
  exists b. split; [exact Hb |]. destruct (f b); [destruct Hd as [<- | []]; reflexivity | destruct Hd].
Qed.

Lemma mean_le_max (l : list Q) (m mx : Q) : meanQ l = Some m -> max_of l = Some mx -> (m <= mx)%Q.
Proof.
  intros Hm Hx. destruct l as [| x t]; [discriminate |].
  destruct (min_of (x :: t)) as [mn |] eqn:En; [| discriminate].
  apply min_of_spec in En as [_ H1]. apply max_of_spec in Hx as [_ H2].
  exact (proj2 (meanQ_bounds _ m mn mx Hm (fun y Hy => conj (H1 y Hy) (H2 y Hy)))).
Qed.

(** X6: each row of [aggregate_comptage_velo] is a (counter, day) of a dated
    reading; with no count that day its mean and max are NaN and its total
    0, otherwise its mean is at most its max. *)
Theorem comptage_velo_rows (rs : list reading) (c : comptage_jour) :
  In c (aggregate_comptage_velo rs) ->
  (exists r, In r rs /\ compteur_id r = cj_compteur_id c /\ day_opt r = Some (cj_jour c)) /\
  ((comptage_moyen c = None /\ comptage_max c = None /\ (comptage_total c == 0)%Q) \/
   (exists m mx, comptage_moyen c = Some m /\ comptage_max c = Some mx /\ (m <= mx)%Q)).
Proof.
  rewrite aggregate_comptage_velo_eq, in_flat_map. intros [id [_ Hc]].
  apply in_map_iff in Hc as [d [<- Hd]]. cbn.
  split.
  - apply in_kkeys_opt in Hd as [r [Hr Hdr]]. apply filter_In in Hr as [Hr Hid].
    exists r. split; [unfold dated_rows in Hr; apply filter_In in Hr; tauto |].
    split; [apply String.eqb_eq, Hid | exact Hdr].
  - destruct (day_counts (VDate d) (filter (fun r => String.eqb (compteur_id r) id) (dated_rows rs)))
      as [| x t] eqn:El.
    + left. repeat split; reflexivity.
    + right. rewrite <- El.
      destruct (meanQ _) as [m |] eqn:Em; [| rewrite El in Em; discriminate].
      destruct (max_of _) as [mx |] eqn:Ex; [| rewrite El in Ex; discriminate].
      exists m, mx. repeat split. exact (mean_le_max _ m mx Em Ex).
Qed.

Lemma round_half_even_bounds (x : Q) :
  Qfloor x <= round_half_even x <= Qfloor x + 1.
Proof.
  unfold round_half_even. destruct (Qcompare _ _); [destruct (Z.even _) | |]; lia.
Qed.

Lemma round_half_even_mono (x y : Q) : (x <= y)%Q -> round_half_even x <= round_half_even y.
Proof.
  intros H. pose proof (Qfloor_resp_le x y H) as Hf.
  destruct (Z.eq_dec (Qfloor x) (Qfloor y)) as [E | N].
  2:{ pose proof (round_half_even_bounds x). pose proof (round_half_even_bounds y). lia. }
  unfold round_half_even. cbv zeta. rewrite <- E.
  destruct (Qcompare_spec (x - inject_Z (Qfloor x)) (1 # 2));
  destruct (Qcompare_spec (y - inject_Z (Qfloor x)) (1 # 2));
  try (destruct (Z.even (Qfloor x)); lia); try lia; exfalso; lra.
Qed.

Lemma pow10_pos (d : Z) : 0 <= d -> (0 < inject_Z (10 ^ d))%Q.
Proof.
  intros Hd. change 0%Q with (inject_Z 0). rewrite <- Zlt_Qlt. apply Z.pow_pos_nonneg; lia.
Qed.

Lemma round_dec_mono (x y : Q) (d : Z) :
  0 <= d -> (x <= y)%Q -> (round_dec x d <= round_dec y d)%Q.
Proof.
  intros Hd H. pose proof (pow10_pos d Hd) as P. unfold round_dec, Qdiv.
  apply Qmult_le_compat_r; [| apply Qlt_le_weak, Qinv_lt_0_compat, P].
  rewrite <- Zle_Qle. apply round_half_even_mono.
  apply Qmult_le_compat_r; [exact H | apply Qlt_le_weak, P].
Qed.

Lemma filter_flat_map {B : Type} (p : B -> bool) (l : list B) :
  filter p l = flat_map (fun b => if p b then [b] else []) l.
Proof. induction l as [| x t IH]; simpl; [reflexivity |]. destruct (p x); simpl; congruence. Qed.

Lemma taux_eq (rs : list reading) (p : Z) :
  calculate_taux_disponibilite rs p =
  map (fun id =>
         let n := Z.of_nat (length (filter (fun r => String.eqb (compteur_id r) id) (dated_rows rs))) in
         mkTaux id n (24 * p)
           (xmap (fun q => round_dec (q * 100) 2) (xdiv (inject_Z n) (inject_Z (24 * p)))))
      (kkeys String.eqb String.ltb (map compteur_id (dated_rows rs))).
Proof.
  destruct rs as [| r t]; [reflexivity |].
  unfold calculate_taux_disponibilite. rewrite compteur_keys_eq. apply flat_map_vstr.
Qed.

(** X7: [calculate_taux_disponibilite] counts every dated reading once. *)
Theorem taux_disponibilite_total (rs : list reading) (periode_jours : Z) :
  fold_right Z.add 0 (map nb_enregistrements_reels (calculate_taux_disponibilite rs periode_jours)) =
  Z.of_nat (length (dated_rows rs)).
Proof.
  rewrite taux_eq, map_map. cbn [nb_enregistrements_reels].
  rewrite (sum_lengths (fun id => filter (fun r => String.eqb (compteur_id r) id) (dated_rows rs))).
  f_equal. rewrite (flat_map_ext _ (fun id => flat_map (fun r => if String.eqb (compteur_id r) id then [r] else [])
                                                     (dated_rows rs)))
    by (intros id; apply filter_flat_map).
  destruct (kkeys_str_spec (map compteur_id (dated_rows rs))) as [_ [Hnd Hin]].
  rewrite (Permutation_length (flat_map_keys_perm String.eqb String.eqb_eq compteur_id (fun r => [r]) _ _ Hnd
                                 (fun b Hb _ => proj2 (Hin _) (in_map _ _ _ Hb)))).
  clear. induction (dated_rows rs) as [| x t IH]; simpl; congruence.
Qed.

(** X8: every counter of [calculate_taux_disponibilite] has a dated reading;
    with [periode_jours = 0] its rate is [inf]; with a positive period and
    no more records than expected, its rate is between 0 and 100. *)
Theorem taux_disponibilite_rate (rs : list reading) (periode_jours : Z) (t : taux_row) :
  In t (calculate_taux_disponibilite rs periode_jours) ->
  1 <= nb_enregistrements_reels t /\ nb_enregistrements_attendus t = 24 * periode_jours /\
  (periode_jours = 0 -> taux_disponibilite_pct t = XPosInf) /\
  (0 < periode_jours -> nb_enregistrements_reels t <= 24 * periode_jours ->
   exists q, taux_disponibilite_pct t = XFin q /\ (0 <= q <= 100)%Q).
Proof.
  rewrite taux_eq, in_map_iff. intros [id [<- Hid]]. cbn [nb_enregistrements_reels nb_enregistrements_attendus taux_disponibilite_pct].
  destruct (kkeys_str_spec (map compteur_id (dated_rows rs))) as [_ [_ Hin]].
  apply Hin, in_map_iff in Hid as [r [Er Hr]].
  set (n := Z.of_nat (length (filter (fun r => String.eqb (compteur_id r) id) (dated_rows rs)))).
  assert (Hn : 1 <= n).
  { unfold n. destruct (filter (fun r => String.eqb (compteur_id r) id) (dated_rows rs)) eqn:Ef; [| simpl; lia].
    exfalso. assert (In r (filter (fun r => String.eqb (compteur_id r) id) (dated_rows rs)))
      by (apply filter_In; split; [exact Hr | apply String.eqb_eq, Er]).
    rewrite Ef in H. destruct H. }
  split; [exact Hn | split; [reflexivity | split]].
  - intros ->. unfold xdiv. replace (Qeq_bool (inject_Z (24 * 0)) 0) with true by reflexivity.
    rewrite Qltb_true; [reflexivity |].
    change 0%Q with (inject_Z 0). rewrite <- Zlt_Qlt. lia.
  - intros Hp Hle. unfold xdiv.
    assert (P : (0 < inject_Z (24 * periode_jours))%Q) by (change 0%Q with (inject_Z 0); rewrite <- Zlt_Qlt; lia).
    replace (Qeq_bool (inject_Z (24 * periode_jours)) 0) with false.
    2:{ symmetry. apply not_true_iff_false. intros E. apply Qeq_bool_eq in E.
        rewrite E in P. exact (Qlt_irrefl 0 P). }
    eexists. split; [reflexivity |].
    assert (A0 : (0 <= inject_Z n / inject_Z (24 * periode_jours) * 100)%Q).
    { apply Qmult_le_0_compat; [| discriminate]. apply Qle_shift_div_l; [exact P |].
      rewrite Qmult_0_l. change 0%Q with (inject_Z 0). rewrite <- Zle_Qle. lia. }
    assert (A1 : (inject_Z n / inject_Z (24 * periode_jours) * 100 <= 100)%Q).
    { assert (inject_Z n / inject_Z (24 * periode_jours) <= 1)%Q.
      { apply Qle_shift_div_r; [exact P |]. rewrite Qmult_1_l. rewrite <- Zle_Qle. exact Hle. }
      lra. }
    split.
    + apply Qle_trans with (round_dec 0 2); [vm_compute; discriminate |].
      apply round_dec_mono; [lia | exact A0].
    + apply Qle_trans with (round_dec 100 2); [apply round_dec_mono; [lia | exact A1] |].
      vm_compute; discriminate.
Qed.

Lemma count_sum_split (p : reading -> bool) (l : list reading) :
  count_sum (filter p l) + count_sum (filter (fun r => negb (p r)) l) = count_sum l.
Proof.
  unfold count_sum. induction l as [| x t IH]; simpl; [reflexivity |].
  destruct (p x); simpl; destruct (comptage_horaire x); simpl; lia.
Qed.

Lemma count_sum_nonneg (l : list reading) :
  (forall r c, In r l -> comptage_horaire r = Some c -> 0 <= c) -> 0 <= count_sum l.
Proof.
  unfold count_sum. induction l as [| x t IH]; intros H; simpl; [lia |].
  destruct (comptage_horaire x) eqn:E; simpl.
  - pose proof (H x z (or_introl eq_refl) E) as Hz. assert (0 <= fold_right Z.add 0 (flat_map (fun r => match comptage_horaire r with Some c => [c] | None => [] end) t))
      by (apply IH; intros; eapply H; [right |]; eassumption). lia.
  - apply IH. intros; eapply H; [right |]; eassumption.
Qed.

Lemma filter_incl_hyp {B : Type} (p : B -> bool) (l : list B) (P : B -> Prop) :
  (forall x, In x l -> P x) -> forall x, In x (filter p l) -> P x.
Proof. intros H x Hx. apply filter_In in Hx. apply H, Hx. Qed.

Lemma round_dec_0_3 : (round_dec 0 3 == 0)%Q.
Proof. vm_compute. reflexivity. Qed.

Lemma round_dec_m100_2 : (round_dec ((0 - 1) * 100) 2 == -100)%Q.
Proof. vm_compute. reflexivity. Qed.

(** X9: [calculate_ratio_weekend_semaine] gives one row whose weekend and
    weekday totals split the dated counts; with no weekday traffic the
    ratio is 0 and the difference -100%; with non-negative counts the ratio
    is non-negative and the difference at least -100%. *)
Theorem ratio_weekend_semaine_row (rs : list reading) :
  rs <> [] ->
  exists row, calculate_ratio_weekend_semaine rs = [row] /\
    debit_weekend row + debit_semaine row = count_sum (dated_rows rs) /\
    (debit_semaine row <= 0 -> (ratio_weekend_semaine row == 0)%Q /\ (difference_pct row == -100)%Q) /\
    ((forall r c, In r rs -> comptage_horaire r = Some c -> 0 <= c) ->
     (0 <= ratio_weekend_semaine row)%Q /\ (-100 <= difference_pct row)%Q).
Proof.
  intros Hne. destruct rs as [| r0 t0]; [congruence |].
  unfold calculate_ratio_weekend_semaine. eexists. split; [reflexivity |].
  cbn [debit_weekend debit_semaine ratio_weekend_semaine difference_pct].
  split; [apply count_sum_split |]. split.
  - intros Hse. destruct (0 <? _) eqn:E; [apply Z.ltb_lt in E; lia |].
    split; [exact round_dec_0_3 | exact round_dec_m100_2].
  - intros Hpos.
    assert (Hf : forall r c, In r (dated_rows (r0 :: t0)) -> comptage_horaire r = Some c -> 0 <= c).
    { intros r c Hr Hc. unfold dated_rows in Hr. apply filter_In in Hr. eapply Hpos; [apply Hr | exact Hc]. }
    assert (Hwe : 0 <= count_sum (filter (fun r => match date_heure r with
                                                   | Some t => est_weekend t
                                                   | None => false
                                                   end) (dated_rows (r0 :: t0))))
      by (apply count_sum_nonneg; intros r c Hr; apply filter_In in Hr; apply Hf, Hr).
    match goal with |- context [if 0 <? ?se then ?x else 0%Q] =>
      assert (Hr : (0 <= if 0 <? se then x else 0)%Q);
      [destruct (0 <? se) eqn:E; [| apply Qle_refl];
       apply Z.ltb_lt in E; apply Qle_shift_div_l; [change 0%Q with (inject_Z 0); rewrite <- Zlt_Qlt; exact E |];
       rewrite Qmult_0_l; change 0%Q with (inject_Z 0); rewrite <- Zle_Qle; exact Hwe
      | generalize dependent (if 0 <? se then x else 0%Q) ] end.
    intros ratio Hr. split.
    + rewrite <- round_dec_0_3. apply round_dec_mono; [lia | exact Hr].
    + rewrite <- round_dec_m100_2. apply round_dec_mono; [lia | lra].
Qed.

(* ------------------------------------------------------------------ *)
(** Peak hours. *)

Lemma hour_of_range (t : Z) : 0 <= hour_of t <= 23.
Proof.
  unfold hour_of. pose proof (Z.mod_pos_bound t 86400 ltac:(lia)).
  split; [apply Z.div_pos; lia |]. apply Z.lt_succ_r. apply Z.div_lt_upper_bound; lia.
Qed.

Definition hour_opt (r : reading) : option Z :=
  match date_heure r with Some t => Some (hour_of t) | None => None end.

Lemma debit_horaire_par_heure_eq (rs : list reading) :
  debit_horaire_par_heure rs =
  map (fun h => (h, meanQ (hour_counts h rs)))
      (kkeys Z.eqb Z.ltb (flat_map (fun r => match hour_opt r with Some a => [a] | None => [] end) rs)).
Proof.
  unfold debit_horaire_par_heure.
  rewrite (map_ext hour_key (fun r => match hour_opt r with Some a => VInt a | None => VNull end))
    by (intros r; unfold hour_key, hour_opt; destruct (date_heure r); reflexivity).
  rewrite (group_keys_opt VInt Z.eqb Z.ltb) by reflexivity.
  induction (kkeys Z.eqb Z.ltb _) as [| h t IH]; simpl; [reflexivity | now rewrite IH].
Qed.

Lemma ss_flat_map_sub {X Y : Type} (R : Z -> Z -> Prop) (f : X -> Z) (k : X -> list Y) (g : Y -> Z)
  (l : list X) :
  (forall x y, In y (k x) -> g y = f x) -> (forall x, (length (k x) <= 1)%nat) ->
  StronglySorted R (map f l) -> StronglySorted R (map g (flat_map k l)).
Proof.
  intros Hg Hk. induction l as [| x t IH]; simpl; intros Hs; [constructor |].
  inversion Hs as [| ? ? Hst Hf]; subst. rewrite map_app.
  specialize (Hk x). destruct (k x) as [| y [| y' ys]] eqn:Ek; simpl in Hk |- *; [apply IH, Hst | | lia].
  constructor; [apply IH, Hst |]. rewrite Forall_forall in *. intros z Hz.
  apply in_map_iff in Hz as [y0 [<- Hy0]]. apply in_flat_map in Hy0 as [x0 [Hx0 Hy0]].
  rewrite (Hg x y) by (rewrite Ek; now left). rewrite (Hg x0 y0 Hy0). apply Hf, in_map, Hx0.
Qed.

Lemma ss_impl {X : Type} (R S : X -> X -> Prop) (l : list X) :
  (forall a b, R a b -> S a b) -> StronglySorted R l -> StronglySorted S l.
Proof.
  intros H. induction 1; constructor; [assumption |]. eapply Forall_impl; [| eassumption]. exact (H a).
Qed.

Lemma heures_pointe_eq (rs : list reading) (seuil_pct : Q) :
  calculate_heures_pointe rs seuil_pct =
  match meanQ (flat_map (fun e => match snd e with Some m => [m] | None => [] end) (debit_horaire_par_heure rs)) with
  | None => []
  | Some g => flat_map (fun e => match snd e with
                                 | Some m => if Qltb (g * (seuil_pct / 100)) m then [mkHP (fst e) m seuil_pct g] else []
                                 | None => []
                                 end) (debit_horaire_par_heure rs)
  end.
Proof. destruct rs as [| r t]; reflexivity. Qed.

(** X10: the rows of [calculate_heures_pointe] come one per hour, in
    increasing hour order; each hour is in [0, 23], its mean is the mean
    of that hour and is above the threshold. *)
Theorem heures_pointe_rows (rs : list reading) (seuil_pct : Q) :
  StronglySorted Z.lt (map hp_heure (calculate_heures_pointe rs seuil_pct)) /\
  forall p, In p (calculate_heures_pointe rs seuil_pct) ->
    0 <= hp_heure p <= 23 /\
    In (hp_heure p, Some (hp_debit_moyen p)) (debit_horaire_par_heure rs) /\
    (hp_debit_global_moyen p * (seuil_pct / 100) < hp_debit_moyen p)%Q.
Proof.
  rewrite heures_pointe_eq.
  destruct (meanQ _) as [g |]; [| split; [constructor | intros p []]].
  split.
  - apply (ss_flat_map_sub Z.lt fst); [| |].
    + intros [h [m |]] y Hy; simpl in Hy; [| destruct Hy].
      destruct (Qltb _ m); [destruct Hy as [<- | []]; reflexivity | destruct Hy].
    + intros [h [m |]]; simpl; [destruct (Qltb _ m); simpl; lia | lia].
    + rewrite debit_horaire_par_heure_eq, map_map. simpl. rewrite map_id.
      eapply ss_impl; [| apply kkeys_z_spec]. intros a b H. apply Z.ltb_lt, H.
  - intros p Hp. apply in_flat_map in Hp as [[h [m |]] [He Hp]]; simpl in Hp; [| destruct Hp].
    destruct (Qltb (g * (seuil_pct / 100)) m) eqn:Lt; [| destruct Hp].
    destruct Hp as [<- | []]. cbn. split; [| split; [exact He |]].
    + rewrite debit_horaire_par_heure_eq in He. apply in_map_iff in He as [h' [E Hh]].
      injection E as <- _. destruct (kkeys_z_spec (flat_map (fun r => match hour_opt r with Some a => [a] | None => [] end) rs))
        as [_ [_ Hi]]. apply Hi, in_flat_map in Hh as [r [_ Hr]].
      unfold hour_opt in Hr. destruct (date_heure r); [| destruct Hr].
      destruct Hr as [<- | []]. apply hour_of_range.
    + unfold Qltb in Lt. apply negb_true_iff in Lt. apply Qnot_le_lt. intros H.
      apply Qle_bool_iff in H. congruence.
Qed.

Lemma meanQ_lower (l : list Q) (m lo : Q) :
  meanQ l = Some m -> (forall y, In y l -> lo <= y)%Q -> (lo <= m)%Q.
Proof.
  intros Hm Hb. destruct (meanQ_spec l m Hm) as [Hne Hs].
  pose proof (length_pos_Q l Hne) as Hn. pose proof (sumQ_lower l lo Hb) as H1.
  rewrite Hs in H1. apply (Qmult_le_r _ _ _ Hn). rewrite (Qmult_comm lo). exact H1.
Qed.

Lemma sumQ_lower_strict (l : list Q) (lo : Q) :
  l <> [] -> (forall y, In y l -> lo < y)%Q -> (inject_Z (Z.of_nat (length l)) * lo < sumQ l)%Q.
Proof.
  intros Hne H. destruct l as [| x t]; [congruence |].
  change (sumQ (x :: t)) with (x + sumQ t)%Q. change (length (x :: t)) with (S (length t)).
  rewrite Nat2Z.inj_succ, <- Z.add_1_l, inject_Z_plus. change (inject_Z 1) with 1%Q.
  assert (lo < x)%Q by (apply H; now left).
  assert (inject_Z (Z.of_nat (length t)) * lo <= sumQ t)%Q
    by (apply sumQ_lower; intros; apply Qlt_le_weak, H; now right).
  lra.
Qed.

Lemma filter_length_lt {B : Type} (p : B -> bool) (l : list B) (x : B) :
  In x l -> p x = false -> (length (filter p l) < length l)%nat.
Proof.
  induction l as [| y t IH]; intros Hx Hp; [destruct Hx |]. simpl.
  pose proof (filter_length_le p t) as Hle.
  destruct Hx as [-> | Hx]; [rewrite Hp; lia |]. specialize (IH Hx Hp). destruct (p y); simpl; lia.
Qed.

Lemma heures_pointe_length (dh : list (Z * option Q)) (g pct : Q) :
  length (flat_map (fun e => match snd e with
                             | Some m => if Qltb (g * (pct / 100)) m then [mkHP (fst e) m pct g] else []
                             | None => []
                             end) dh) =
  length (filter (Qltb (g * (pct / 100))) (flat_map (fun e => match snd e with Some m => [m] | None => [] end) dh)).
Proof.
  induction dh as [| [h [m |]] t IH]; simpl; [reflexivity | | exact IH].
  destruct (Qltb _ m); simpl; congruence.
Qed.

(** X11: with non-negative counts and a threshold of at least 100%, some
    hour with a mean is not a peak hour. *)
Theorem heures_pointe_not_all (rs : list reading) (seuil_pct : Q) :
  (forall r c, In r rs -> comptage_horaire r = Some c -> 0 <= c) ->
  (100 <= seuil_pct)%Q ->
  flat_map (fun e => match snd e with Some m => [m] | None => [] end) (debit_horaire_par_heure rs) <> [] ->
  (length (calculate_heures_pointe rs seuil_pct) <
   length (flat_map (fun e => match snd e with Some m => [m] | None => [] end) (debit_horaire_par_heure rs)))%nat.
Proof.
  intros Hpos Hpct Hne. rewrite heures_pointe_eq.
  set (means := flat_map (fun e => match snd e with Some m => [m] | None => [] end) (debit_horaire_par_heure rs)) in *.
  assert (Hm0 : forall m, In m means -> (0 <= m)%Q).
  { intros m Hm. unfold means in Hm. apply in_flat_map in Hm as [[h [m' |]] [He Hm]]; simpl in Hm; [| destruct Hm].
    destruct Hm as [<- | []]. rewrite debit_horaire_par_heure_eq in He. apply in_map_iff in He as [h' [E _]].
    injection E as _ Em. apply (meanQ_lower _ _ 0 Em). intros y Hy.
    unfold hour_counts in Hy. apply in_flat_map in Hy as [r [Hr Hy]].
    destruct (value_eqb _ _); [| destruct Hy]. destruct (comptage_horaire r) as [c |] eqn:Ec; [| destruct Hy].
    destruct Hy as [<- | []]. change 0%Q with (inject_Z 0). rewrite <- Zle_Qle. exact (Hpos r c Hr Ec). }
  destruct (meanQ means) as [g |] eqn:Eg.
  2:{ exfalso. unfold meanQ in Eg. destruct means; [congruence | discriminate]. }
  rewrite heures_pointe_length. fold means.
  assert (Hg : (0 <= g)%Q) by (apply (meanQ_lower means g 0 Eg Hm0)).
  destruct (meanQ_spec means g Eg) as [_ Hs].
  assert (Ex : exists m, In m means /\ Qltb (g * (seuil_pct / 100)) m = false).
  { destruct (existsb (fun m => negb (Qltb (g * (seuil_pct / 100)) m)) means) eqn:E.
    - apply existsb_exists in E as [m [Hm Hn]]. exists m. split; [exact Hm | now apply negb_true_iff in Hn].
    - exfalso. assert (Hall : forall m, In m means -> (g < m)%Q).
      { intros m Hm. assert (Hq : Qltb (g * (seuil_pct / 100)) m = true).
        { destruct (Qltb _ m) eqn:Q; [reflexivity |].
          assert (existsb (fun m => negb (Qltb (g * (seuil_pct / 100)) m)) means = true)
            by (apply existsb_exists; exists m; rewrite Q; split; [exact Hm | reflexivity]). congruence. }
        unfold Qltb in Hq. apply negb_true_iff in Hq.
        assert (Hlt : (g * (seuil_pct / 100) < m)%Q)
          by (apply Qnot_le_lt; intros H; apply Qle_bool_iff in H; congruence).
        assert (g <= g * (seuil_pct / 100))%Q.
        { assert (1 <= seuil_pct / 100)%Q by (apply Qle_shift_div_l; [reflexivity | lra]). nra. }
        lra. }
      pose proof (sumQ_lower_strict means g Hne Hall). rewrite Hs in H. lra. }
  destruct Ex as [m [Hm Hf]]. exact (filter_length_lt _ _ m Hm Hf).
Qed.

Lemma calculate_dmja_eq (rs : list reading) :
  calculate_dmja rs =
  map (fun id => let s := daily_sums id rs in
                 let first := find (fun r => String.eqb (compteur_id r) id) rs in
                 mkDmja id (sumQ s / inject_Z (Z.of_nat (length s)))%Q
                        (match first with Some r => latitude r | None => None end)
                        (match first with Some r => longitude r | None => None end))
      (kkeys String.eqb String.ltb
         (flat_map (fun r => match (if is_null (date_key r) then None else Some (compteur_id r)) with
                             | Some a => [a] | None => [] end) rs)).
Proof.
  destruct rs as [| r0 t0]; [reflexivity |]. unfold calculate_dmja.
  rewrite (map_ext (fun r => if is_null (date_key r) then VNull else VStr (compteur_id r))
             (fun r => match (if is_null (date_key r) then None else Some (compteur_id r)) with
                       | Some a => VStr a | None => VNull end))
    by (intros r; destruct (is_null (date_key r)); reflexivity).
  rewrite group_keys_str_opt. apply flat_map_vstr.
Qed.

Lemma dmja_ids_nodup (rs : list reading) : NoDup (map dmja_id (calculate_dmja rs)).
Proof.
  rewrite calculate_dmja_eq, map_map. simpl. rewrite map_id. apply kkeys_str_spec.
Qed.

Lemma sumQ_nonneg (l : list Q) : (forall y, In y l -> 0 <= y)%Q -> (0 <= sumQ l)%Q.
Proof. intros H. pose proof (sumQ_lower l 0 H). rewrite Qmult_0_r in H0. exact H0. Qed.

Lemma dmja_nonneg (rs : list reading) :
  (forall r c, In r rs -> comptage_horaire r = Some c -> 0 <= c) ->
  forall d, In d (calculate_dmja rs) -> (0 <= dmja d)%Q.
Proof.
  intros Hpos d Hd. rewrite calculate_dmja_eq in Hd. apply in_map_iff in Hd as [id [<- _]]. cbn [dmja].
  apply Qmult_le_0_compat; [| apply Qinv_le_0_compat; change 0%Q with (inject_Z 0); rewrite <- Zle_Qle; lia].
  apply sumQ_nonneg. intros y Hy. unfold daily_sums in Hy. apply in_map_iff in Hy as [k [<- _]].
  apply sumQ_nonneg. intros y Hy. apply in_flat_map in Hy as [r [Hr Hy]].
  apply filter_In in Hr as [Hr _].
  destruct (value_eqb _ _); [| destruct Hy]. destruct (comptage_horaire r) as [c |] eqn:Ec; [| destruct Hy].
  destruct Hy as [<- | []]. change 0%Q with (inject_Z 0). rewrite <- Zle_Qle. exact (Hpos r c Hr Ec).
Qed.

(* ------------------------------------------------------------------ *)
(** The median splits the values. *)

Lemma sorted_prefix_ge (s : list Q) (j : nat) :
  StronglySorted (fun a b => b <= a)%Q s -> (j < length s)%nat ->
  forall y, In y (firstn (S j) s) -> (nth j s 0 <= y)%Q.
Proof.
  revert j. induction s as [| a t IH]; intros j Hs Hj y Hy; [simpl in Hj; lia |].
  inversion Hs as [| ? ? Ht Hf]; subst. destruct j as [| j].
  - simpl in Hy. destruct Hy as [<- | []]. apply Qle_refl.
  - simpl in Hy. destruct Hy as [<- | Hy].
    + simpl. rewrite Forall_forall in Hf. apply Hf, nth_In. simpl in Hj. lia.
    + simpl. apply IH; [exact Ht | simpl in Hj; lia | exact Hy].
Qed.

Lemma nth_in_firstn (s : list Q) (i j : nat) :
  (i < j)%nat -> (i < length s)%nat -> In (nth i s 0%Q) (firstn j s).
Proof.
  revert i j. induction s as [| a t IH]; intros i j Hij Hi; simpl in Hi; [lia |].
  destruct j as [| j]; [lia |]. destruct i as [| i]; simpl; [now left |].
  right. apply IH; lia.
Qed.

Lemma count_below (s : list Q) (j : nat) (md : Q) :
  StronglySorted (fun a b => b <= a)%Q s -> (j < length s)%nat -> (md <= nth j s 0)%Q ->
  (length (filter (fun x => Qltb x md) s) <= length s - S j)%nat.
Proof.
  intros Hs Hj Hmd. rewrite <- (firstn_skipn (S j) s) at 1. rewrite filter_app, length_app.
  replace (length (filter (fun x => Qltb x md) (firstn (S j) s))) with 0%nat.
  - simpl. rewrite <- length_skipn. apply filter_length_le.
  - symmetry. apply length_zero_iff_nil.
    destruct (filter (fun x => Qltb x md) (firstn (S j) s)) as [| y ys] eqn:E; [reflexivity |].
    exfalso. assert (Hy : In y (filter (fun x => Qltb x md) (firstn (S j) s))) by (rewrite E; now left).
    apply filter_In in Hy as [Hy Hlt]. pose proof (sorted_prefix_ge s j Hs Hj y Hy).
    rewrite Qltb_false in Hlt; [discriminate | lra].
Qed.

Lemma perm_filter {B : Type} (p : B -> bool) (l l' : list B) :
  Permutation l l' -> Permutation (filter p l) (filter p l').
Proof.
  induction 1; simpl; try constructor.
  - destruct (p x); [constructor |]; assumption.
  - destruct (p x), (p y); try constructor; reflexivity.
  - etransitivity; eassumption.
Qed.

Lemma median_half (l : list Q) (md : Q) :
  median_of l = Some md -> (2 * length (filter (fun x => Qltb x md) l) <= length l)%nat.
Proof.
  unfold median_of. cbv zeta. intros H.
  set (s := sort_desc (fun x => x) l) in H.
  assert (Hp : Permutation l s) by apply sort_desc_perm.
  assert (Hs : StronglySorted (fun a b => b <= a)%Q s).
  { apply Sorted_StronglySorted; [intros a b c H1 H2; unfold desc in *; eapply Qle_trans; eassumption |].
    apply (sort_desc_sorted (fun x => x)). }
  rewrite (Permutation_length Hp), (Permutation_length (perm_filter _ _ _ Hp)).
  destruct (length s) as [| n] eqn:En; [discriminate |].
  assert (A1 : (S n / 2 < S n)%nat) by (apply Nat.div_lt; lia).
  pose proof (Nat.div_mod (S n) 2 ltac:(lia)) as Hdm.
  destruct (Nat.odd (S n)) eqn:Eo.
  - assert (E : md = nth (S n / 2) s 0%Q) by congruence.
    pose proof (count_below s (S n / 2) md Hs ltac:(lia) ltac:(rewrite E; apply Qle_refl)).
    rewrite En in H0. rewrite Nat.odd_spec in Eo. destruct Eo as [k Hk].
    assert (S n mod 2 = 1)%nat by (rewrite Hk, Nat.add_comm, Nat.mul_comm, Nat.Div0.mod_add; reflexivity).
    lia.
  - assert (E : md = ((nth (S n / 2 - 1) s 0 + nth (S n / 2) s 0) / 2)%Q) by congruence.
    assert (Ev : Nat.even (S n) = true) by (rewrite <- Nat.negb_odd, Eo; reflexivity).
    rewrite Nat.even_spec in Ev. destruct Ev as [k Hk].
    assert (Hk1 : (S n / 2 = k)%nat) by (rewrite Hk, Nat.mul_comm, Nat.div_mul; lia).
    assert (k <> 0)%nat by lia.
    assert (Hle : (nth k s 0 <= nth (k - 1) s 0)%Q).
    { apply (sorted_prefix_ge s k Hs ltac:(lia)).
      apply nth_in_firstn; lia. }
    pose proof (count_below s (k - 1) md Hs ltac:(lia)) as Hc.
    assert (md <= nth (k - 1) s 0)%Q.
    { rewrite E, Hk1. apply Qle_shift_div_r; [reflexivity | lra]. }
    specialize (Hc H1). rewrite En in Hc. lia.
Qed.

(** X12: with non-negative counts and [seuil_pct <= 100], at most half of
    the counters are reported as low-activity. *)
Theorem faible_activite_at_most_half (rs : list reading) (seuil_pct : Q) :
  (forall r c, In r rs -> comptage_horaire r = Some c -> 0 <= c) ->
  (seuil_pct <= 100)%Q ->
  (2 * length (calculate_compteurs_faible_activite rs seuil_pct) <= length (calculate_dmja rs))%nat.
Proof.
  intros Hpos Hpct. unfold calculate_compteurs_faible_activite.
  pose proof (dmja_nonneg rs Hpos) as Hnn.
  destruct (calculate_dmja rs) as [| d0 ds] eqn:Ed; [simpl; lia |]. rewrite <- Ed in *.
  destruct (median_of (map dmja (calculate_dmja rs))) as [md |] eqn:Em; [| simpl; lia].
  rewrite length_map.
  assert (Hmd : (0 <= md)%Q).
  { destruct (min_of (map dmja (calculate_dmja rs))) as [mn |] eqn:En.
    - destruct (max_of (map dmja (calculate_dmja rs))) as [mx |] eqn:Ex.
      + apply min_of_spec in En as [Hmn H1]. apply max_of_spec in Ex as [_ H2].
        pose proof (median_of_bounds _ md mn mx Em (fun y Hy => conj (H1 y Hy) (H2 y Hy))) as [B _].
        apply in_map_iff in Hmn as [d [<- Hd]]. eapply Qle_trans; [apply Hnn, Hd | exact B].
      + rewrite Ed in Ex. discriminate.
    - rewrite Ed in En. discriminate. }
  pose proof (median_half _ md Em) as Hh. rewrite length_map in Hh.
  assert (Hle : (length (filter (fun x => Qltb (dmja x) (md * (seuil_pct / 100))) (calculate_dmja rs)) <=
                 length (filter (fun x => Qltb x md) (map dmja (calculate_dmja rs))))%nat).
  { clear Ed Em Hh. induction (calculate_dmja rs) as [| x t IH]; simpl; [lia |].
    destruct (Qltb (dmja x) (md * (seuil_pct / 100))) eqn:E1.
    - replace (Qltb (dmja x) md) with true; [simpl; apply le_n_S, IH |].
      + intros; apply Hnn; now right.
      + symmetry. apply Qltb_true. unfold Qltb in E1. apply negb_true_iff in E1.
        assert (Hlt : (dmja x < md * (seuil_pct / 100))%Q)
          by (apply Qnot_le_lt; intros H; apply Qle_bool_iff in H; congruence).
        assert (md * (seuil_pct / 100) <= md)%Q.
        { assert (seuil_pct / 100 <= 1)%Q by (apply Qle_shift_div_r; [reflexivity | lra]). nra. }
        lra.
    - destruct (Qltb (dmja x) md); simpl; [apply le_S, IH | apply IH]; intros; apply Hnn; now right. }
  lia.
Qed.

(* ------------------------------------------------------------------ *)
(** Top counters. *)

Lemma top_core (has_coords : bool) (payload : list (string * option Q * option Q))
  (rs : list reading) (top_n : Z) :
  map (fun x => (rang x, top_compteur_id x, top_dmja x))
      (snd (calculate_top_compteurs has_coords payload rs top_n)) =
  map (fun p => (fst p, dmja_id (snd p), dmja (snd p)))
      (combine (map Z.of_nat (seq 1 (length (nlargest top_n dmja (calculate_dmja rs)))))
               (nlargest top_n dmja (calculate_dmja rs))).
Proof.
  unfold calculate_top_compteurs.
  destruct (calculate_dmja rs) as [| d0 ds] eqn:Ed.
  - unfold nlargest. simpl. rewrite firstn_nil. reflexivity.
  - cbv zeta. destruct has_coords; simpl snd.
    + rewrite map_map. apply map_ext. intros [n x]. reflexivity.
    + destruct (load_reference_coordinates payload) as [| e es]; simpl snd; rewrite map_map;
        apply map_ext; intros [n x]; [reflexivity |].
      repeat match goal with |- context [match ?m with _ => _ end] => destruct m end;
        reflexivity.
Qed.

Lemma map_combine_fst {X Y : Type} (ns : list X) (l : list Y) :
  length ns = length l -> map fst (combine ns l) = ns.
Proof.
  revert l. induction ns as [| n t IH]; intros [| y l] H; simpl in *; try lia; [reflexivity |].
  rewrite IH by lia. reflexivity.
Qed.

Lemma map_combine_snd {X Y : Type} (ns : list X) (l : list Y) :
  length ns = length l -> map snd (combine ns l) = l.
Proof.
  revert l. induction ns as [| n t IH]; intros [| y l] H; simpl in *; try lia; [reflexivity |].
  rewrite IH by lia. reflexivity.
Qed.

Lemma in_firstn {X : Type} (k : nat) (l : list X) (y : X) : In y (firstn k l) -> In y l.
Proof. intros H. rewrite <- (firstn_skipn k l). apply in_or_app. now left. Qed.

Lemma ss_firstn {X : Type} (R : X -> X -> Prop) (k : nat) (l : list X) :
  StronglySorted R l -> StronglySorted R (firstn k l).
Proof.
  revert l. induction k as [| k IH]; intros [| a t] Hs; simpl; try constructor.
  - inversion Hs as [| ? ? Ht Hf]; subst. apply IH, Ht.
  - inversion Hs as [| ? ? Ht Hf]; subst. rewrite Forall_forall in *. intros y Hy.
    apply Hf. eapply in_firstn, Hy.
Qed.

Lemma ss_map {X Y : Type} (R : Y -> Y -> Prop) (f : X -> Y) (l : list X) :
  StronglySorted (fun a b => R (f a) (f b)) l -> StronglySorted R (map f l).
Proof.
  induction 1 as [| a t _ IH Hf]; simpl; constructor; [exact IH |].
  rewrite Forall_forall in *. intros y Hy. apply in_map_iff in Hy as [x [<- Hx]]. apply Hf, Hx.
Qed.

(** X13: [calculate_top_compteurs] ranks [min(top_n, n)] counters 1, 2, ...
    by decreasing [dmja]; each row carries the [dmja] of a counter, and no
    counter left out has a larger [dmja] than a ranked one. *)
Theorem top_compteurs_rows (has_coords : bool) (payload : list (string * option Q * option Q))
  (rs : list reading) (top_n : Z) :
  let rows := snd (calculate_top_compteurs has_coords payload rs top_n) in
  map rang rows = map Z.of_nat (seq 1 (length rows)) /\
  length rows = Nat.min (Z.to_nat top_n) (length (calculate_dmja rs)) /\
  StronglySorted (fun a b => b <= a)%Q (map top_dmja rows) /\
  (forall x, In x rows -> exists d, In d (calculate_dmja rs) /\
     dmja_id d = top_compteur_id x /\ dmja d = top_dmja x) /\
  (forall d x, In d (calculate_dmja rs) -> ~ In (dmja_id d) (map top_compteur_id rows) ->
     In x rows -> (dmja d <= top_dmja x)%Q).
Proof.
  intros rows. pose proof (top_core has_coords payload rs top_n) as Hc. fold rows in Hc.
  set (top := nlargest top_n dmja (calculate_dmja rs)) in Hc.
  set (ns := map Z.of_nat (seq 1 (length top))) in Hc.
  assert (Hl : length ns = length top) by (unfold ns; rewrite length_map, length_seq; reflexivity).
  assert (Hlen : length rows = length top).
  { rewrite <- (length_map (fun x => (rang x, top_compteur_id x, top_dmja x)) rows), Hc, length_map.
    rewrite length_combine. lia. }
  assert (Hr : map rang rows = ns).
  { rewrite <- (map_combine_fst ns top Hl).
    replace (map rang rows) with (map (fun t => fst (fst t)) (map (fun x => (rang x, top_compteur_id x, top_dmja x)) rows))
      by (rewrite map_map; reflexivity).
    rewrite Hc, map_map. reflexivity. }
  assert (Hid : map top_compteur_id rows = map dmja_id top).
  { replace (map top_compteur_id rows) with (map (fun t => snd (fst t)) (map (fun x => (rang x, top_compteur_id x, top_dmja x)) rows))
      by (rewrite map_map; reflexivity).
    rewrite Hc, map_map. simpl. rewrite <- (map_map snd dmja_id), map_combine_snd by exact Hl.
    reflexivity. }
  assert (Hdm : map top_dmja rows = map dmja top).
  { replace (map top_dmja rows) with (map snd (map (fun x => (rang x, top_compteur_id x, top_dmja x)) rows))
      by (rewrite map_map; reflexivity).
    rewrite Hc, map_map. simpl. rewrite <- (map_map snd dmja), map_combine_snd by exact Hl.
    reflexivity. }
  destruct (nlargest_spec dmja top_n (calculate_dmja rs)) as [Hn [dropped [Hp Hdrop]]].
  fold top in Hn, Hp, Hdrop.
  assert (Hx : forall x, In x rows -> exists a, In a top /\ dmja_id a = top_compteur_id x /\ dmja a = top_dmja x).
  { intros x Hx. assert (Hin : In (rang x, top_compteur_id x, top_dmja x)
                                 (map (fun x => (rang x, top_compteur_id x, top_dmja x)) rows))
      by (apply in_map with (f := fun x => (rang x, top_compteur_id x, top_dmja x)), Hx).
    rewrite Hc in Hin. apply in_map_iff in Hin as [[n a] [E Ha]]. simpl in E. injection E as _ E1 E2.
    exists a. split; [eapply in_combine_r, Ha | split; assumption]. }
  split; [rewrite Hr, Hlen; reflexivity |]. split; [rewrite Hlen; exact Hn |]. split; [| split].
  - rewrite Hdm. apply ss_map. unfold top, nlargest. apply ss_firstn.
    apply Sorted_StronglySorted; [apply desc_trans | apply sort_desc_sorted].
  - intros x Hxr. destruct (Hx x Hxr) as [a [Ha [E1 E2]]]. exists a. split; [| split; assumption].
    apply (Permutation_in a (Permutation_sym Hp)), in_or_app. now left.
  - intros d x Hd Hnot Hxr. destruct (Hx x Hxr) as [a [Ha [_ E2]]]. rewrite <- E2.
    apply (Permutation_in d Hp), in_app_or in Hd as [Hd | Hd].
    + exfalso. apply Hnot. rewrite Hid. apply in_map, Hd.
    + apply Hdrop; assumption.
Qed.

Lemma ins_xdesc_perm {A : Type} (f : A -> xq) (x : A) (l : list A) :
  Permutation (x :: l) (ins_xdesc f x l).
Proof.
  induction l as [| y t IH]; simpl; [reflexivity |].
  destruct (xq_leb (f x) (f y)); [| reflexivity].
  rewrite perm_swap. constructor. exact IH.
Qed.

Lemma fold_ins_xdesc_perm {A : Type} (f : A -> xq) (l acc : list A) :
  Permutation (l ++ acc) (fold_left (fun acc x => ins_xdesc f x acc) l acc).
Proof.
  revert acc. induction l as [| x t IH]; intros acc; simpl; [reflexivity |].
  rewrite <- IH, <- ins_xdesc_perm. apply Permutation_middle.
Qed.

Lemma filter_split_perm {A : Type} (p : A -> bool) (l : list A) :
  Permutation l (filter (fun a => negb (p a)) l ++ filter p l).
Proof.
  induction l as [| x t IH]; simpl; [reflexivity |].
  destruct (p x); simpl; [rewrite <- Permutation_middle |]; constructor; exact IH.
Qed.

Lemma nlargest_x_perm {A : Type} (n : Z) (f : A -> xq) (l : list A) :
  exists dropped, Permutation l (nlargest_x n f l ++ dropped) /\
    length (nlargest_x n f l) = Nat.min (Z.to_nat n) (length l).
Proof.
  set (all := fold_left (fun acc x => ins_xdesc f x acc) (filter (fun a => negb (is_xnan (f a))) l) [] ++
              filter (fun a => is_xnan (f a)) l).
  assert (Hp : Permutation l all).
  { unfold all. rewrite <- fold_ins_xdesc_perm, app_nil_r. apply filter_split_perm. }
  exists (skipn (Z.to_nat n) all). unfold nlargest_x. fold all. split.
  - rewrite firstn_skipn. exact Hp.
  - rewrite length_firstn, (Permutation_length Hp). reflexivity.
Qed.

Lemma in_le_sumQ (l : list Q) (c : Q) :
  (forall y, In y l -> 0 <= y)%Q -> In c l -> (c <= sumQ l)%Q.
Proof.
  induction l as [| x t IH]; intros H Hc; [destruct Hc |].
  change (sumQ (x :: t)) with (x + sumQ t)%Q.
  destruct Hc as [-> | Hc].
  - assert (0 <= sumQ t)%Q by (apply sumQ_nonneg; intros; apply H; now right). lra.
  - assert (0 <= x)%Q by (apply H; now left).
    assert (c <= sumQ t)%Q by (apply IH; [intros; apply H; now right | exact Hc]). lra.
Qed.

Lemma in_counts_of (rs : list reading) (r : reading) (c : Z) :
  In r rs -> comptage_horaire r = Some c -> In (inject_Z c) (counts_of (compteur_id r) rs).
Proof.
  intros Hr Hc. unfold counts_of. apply in_flat_map. exists r. split; [exact Hr |].
  rewrite String.eqb_refl, Hc. now left.
Qed.

Lemma counts_of_nonneg (rs : list reading) (id : string) :
  (forall r, In r rs -> forall c, comptage_horaire r = Some c -> 0 <= c) ->
  forall y, In y (counts_of id rs) -> (0 <= y)%Q.
Proof.
  intros H y Hy. unfold counts_of in Hy. apply in_flat_map in Hy as [r [Hr Hy]].
  destruct (String.eqb (compteur_id r) id); [| destruct Hy].
  destruct (comptage_horaire r) as [c |] eqn:Ec; [| destruct Hy].
  destruct Hy as [<- | []]. change 0%Q with (inject_Z 0). rewrite <- Zle_Qle. exact (H r Hr c Ec).
Qed.

Lemma Qltb_lt (x y : Q) : Qltb x y = true -> (x < y)%Q.
Proof.
  unfold Qltb. intros H. apply negb_true_iff in H. apply Qnot_le_lt. intros E.
  apply Qle_bool_iff in E. congruence.
Qed.

Lemma in_congestions (rs : list reading) (seuil_pct : Q) (x : congestion) :
  In x (congestions rs seuil_pct) ->
  In (cg_reading x) rs /\ cg_seuil_pct x = seuil_pct /\
  exists c, comptage_horaire (cg_reading x) = Some c /\
    meanQ (counts_of (compteur_id (cg_reading x)) rs) = Some (cg_debit_moyen x) /\
    (cg_debit_moyen x * (seuil_pct / 100) < inject_Z c)%Q /\
    depassement_pct x = xmap (fun q => round_dec ((q - 1) * 100) 2) (xdiv (inject_Z c) (cg_debit_moyen x)).
Proof.
  unfold congestions. intros Hx. apply in_flat_map in Hx as [r [Hr Hx]].
  destruct (comptage_horaire r) as [c |] eqn:Ec; [| destruct Hx].
  destruct (meanQ (counts_of (compteur_id r) rs)) as [m |] eqn:Em; [| destruct Hx].
  destruct (Qltb (m * (seuil_pct / 100)) (inject_Z c)) eqn:El; [| destruct Hx].
  destruct Hx as [<- | []]. cbn [cg_reading cg_seuil_pct cg_debit_moyen depassement_pct].
  split; [exact Hr | split; [reflexivity |]].
  exists c. split; [exact Ec | split; [exact Em | split; [| reflexivity]]].
  apply Qltb_lt, El.
Qed.

(** X14: on non-negative counts, [detect_congestion_cyclable] returns at most
    [max_results] alerts (all of them when there are no more), each a
    reading whose counter has a positive mean [debit_moyen] and whose count
    is greater than [debit_moyen * seuil_pct / 100], with a finite
    [depassement_pct] of at least [round(seuil_pct - 100, 2)]. *)
Theorem congestion_rows (rs : list reading) (seuil_pct : Q) (max_results : Z) :
  (forall r, In r rs -> forall c, comptage_horaire r = Some c -> 0 <= c) ->
  let res := detect_congestion_cyclable rs seuil_pct max_results in
  length res = Nat.min (Z.to_nat max_results) (length (congestions rs seuil_pct)) /\
  (forall x, In x res -> In x (congestions rs seuil_pct)) /\
  (forall x, In x res ->
    In (cg_reading x) rs /\ cg_seuil_pct x = seuil_pct /\
    exists c, comptage_horaire (cg_reading x) = Some c /\
      meanQ (counts_of (compteur_id (cg_reading x)) rs) = Some (cg_debit_moyen x) /\
      (cg_debit_moyen x * (seuil_pct / 100) < inject_Z c)%Q /\
      (0 < cg_debit_moyen x)%Q /\
      exists q, depassement_pct x = XFin q /\ (round_dec (seuil_pct - 100) 2 <= q)%Q).
Proof.
  intros Hnn res.
  assert (Hsub : length res = Nat.min (Z.to_nat max_results) (length (congestions rs seuil_pct)) /\
                 forall x, In x res -> In x (congestions rs seuil_pct)).
  { unfold res, detect_congestion_cyclable. destruct rs as [| r0 rs0]; [split; [simpl; lia | intros x []] |].
    cbv zeta. destruct (Z.ltb max_results _) eqn:Elt.
    - destruct (nlargest_x_perm max_results depassement_pct (congestions (r0 :: rs0) seuil_pct))
        as [dr [Hp Hl]].
      split; [exact Hl |]. intros x Hx. apply (Permutation_in x (Permutation_sym Hp)), in_or_app.
      now left.
    - apply Z.ltb_ge in Elt. split; [lia | tauto]. }
  destruct Hsub as [Hlen Hsub]. split; [exact Hlen | split; [exact Hsub |]].
  intros x Hx. destruct (in_congestions rs seuil_pct x (Hsub x Hx))
    as [Hr [Hs [c [Ec [Em [Hgt Hd]]]]]].
  split; [exact Hr | split; [exact Hs |]]. exists c.
  split; [exact Ec | split; [exact Em | split; [exact Hgt |]]].
  set (m := cg_debit_moyen x) in *.
  pose proof (counts_of_nonneg rs (compteur_id (cg_reading x)) Hnn) as Hcn.
  assert (Hm0 : (0 <= m)%Q) by (apply (meanQ_lower _ m 0 Em Hcn)).
  assert (Hmpos : (0 < m)%Q).
  { destruct (Qlt_le_dec 0 m) as [P | P]; [exact P |]. exfalso.
    assert (Hz : (m == 0)%Q) by lra.
    destruct (meanQ_spec _ m Em) as [_ Hsum]. rewrite Hz, Qmult_0_l in Hsum.
    pose proof (in_le_sumQ _ _ Hcn (in_counts_of rs (cg_reading x) c Hr Ec)) as Hle.
    rewrite Hsum in Hle. rewrite Hz, Qmult_0_l in Hgt. lra. }
  split; [exact Hmpos |].
  assert (Hne : Qeq_bool m 0 = false).
  { destruct (Qeq_bool m 0) eqn:E; [| reflexivity]. apply Qeq_bool_eq in E.
    rewrite E in Hmpos. exfalso. exact (Qlt_irrefl 0 Hmpos). }
  rewrite Hd. unfold xdiv. rewrite Hne. simpl xmap.
  eexists; split; [reflexivity |]. apply round_dec_mono; [lia |].
  assert (Hq : (seuil_pct / 100 < inject_Z c / m)%Q).
  { apply (Qmult_lt_r _ _ m Hmpos). unfold Qdiv at 2.
    rewrite <- Qmult_assoc, (Qmult_comm (/ m)), Qmult_inv_r by lra. rewrite Qmult_1_r.
    rewrite Qmult_comm. exact Hgt. }
  set (t := (inject_Z c / m)%Q) in *.
  assert (Hu : (seuil_pct == (seuil_pct / 100) * 100)%Q) by field.
  set (u := (seuil_pct / 100)%Q) in *. rewrite Hu. lra.
Qed.

Lemma evolution_from_totals (prev : option Q) (l : list (value * Q)) :
  map ev_debit_total (evolution_from prev l) = map snd l /\
  map periode (evolution_from prev l) = map fst l.
Proof.
  revert prev. induction l as [| [k s] t IH]; intros prev; simpl; [auto |].
  destruct (IH (Some s)) as [H1 H2]. rewrite H1, H2. auto.
Qed.

(** The totals per period of a timestamp, for a period embedded by [inj]. *)
Section EvoKeys.
Context {A : Type} (inj : A -> value) (eqb ltb : A -> A -> bool) (g : Z -> A).
Hypothesis inj_eqb : forall a b, value_eqb (inj a) (inj b) = eqb a b.
Hypothesis inj_ltb : forall a b, value_ltb (inj a) (inj b) = ltb a b.
Hypothesis inj_null : forall a, is_null (inj a) = false.
Hypothesis eqb_eq : forall a b, eqb a b = true <-> a = b.
Hypothesis inj_inj : forall a b, inj a = inj b -> a = b.
Hypothesis keys_spec : forall l, NoDup (kkeys eqb ltb l) /\ (forall z, In z (kkeys eqb ltb l) <-> In z l).

Let key (r : reading) : value := match date_heure r with Some t => inj (g t) | None => VNull end.

Let totals (frame : list reading) : list (value * Q) :=
  map (fun k => (k, sumQ (flat_map (fun r =>
                     if value_eqb (key r) k
                     then match comptage_horaire r with
                          | Some c => [inject_Z c]
                          | None => []
                          end
                     else []) frame)))
      (group_keys (map key frame)).

Lemma NoDup_map_inj {X Y : Type} (h : X -> Y) (l : list X) :
  (forall a b, h a = h b -> a = b) -> NoDup l -> NoDup (map h l).
Proof.
  intros Hi. induction 1 as [| x t Hx _ IH]; simpl; constructor; [| exact IH].
  intros Hm. apply in_map_iff in Hm as [y [E Hy]]. apply Hi in E. subst. contradiction.
Qed.

Lemma totals_sum (frame : list reading) :
  (sumQ (map snd (totals frame)) == sumQ (flat_map dated_count frame))%Q /\
  NoDup (map fst (totals frame)).
Proof.
  set (f := fun r => match date_heure r with Some t => Some (g t) | None => None end).
  assert (Hk : map key frame = map (fun r => match f r with Some a => inj a | None => VNull end) frame)
    by (apply map_ext; intros r; unfold key, f; destruct (date_heure r); reflexivity).
  set (K := kkeys eqb ltb (flat_map (fun b => match f b with Some a => [a] | None => [] end) frame)).
  assert (HK : group_keys (map key frame) = map inj K)
    by (rewrite Hk; apply (group_keys_opt inj eqb ltb inj_eqb inj_ltb inj_null)).
  destruct (keys_spec (flat_map (fun b => match f b with Some a => [a] | None => [] end) frame))
    as [Hnd Hin]. fold K in Hnd, Hin.
  unfold totals. rewrite HK, !map_map. cbn [fst snd]. split.
  - set (key' := fun r => match f r with Some a => a | None => g 0 end).
    set (w := fun r => match f r with Some _ => count_of r | None => [] end).
    erewrite (map_ext _ (fun x => sumQ (flat_map (fun r => if eqb (key' r) x then w r else []) frame)));
      [| intros a; f_equal; apply flat_map_ext; intros r; unfold key, key', w, f;
         destruct (date_heure r) as [t |];
         [rewrite inj_eqb; reflexivity | destruct (inj a), (eqb (g 0) a); reflexivity]].
    rewrite sumQ_flat_map. apply sumQ_perm.
    replace (flat_map dated_count frame) with (flat_map w frame)
      by (apply flat_map_ext; intros r; unfold w, f, dated_count; destruct (date_heure r); reflexivity).
    apply (flat_map_keys_perm eqb eqb_eq key' w K frame Hnd).
    intros b Hb Hw. unfold key'. unfold w in Hw. destruct (f b) as [a |] eqn:Ef; [| congruence].
    apply Hin, in_flat_map. exists b. rewrite Ef. split; [exact Hb | now left].
  - apply NoDup_map_inj; [exact inj_inj | exact Hnd].
Qed.

Lemma totals_keys (frame : list reading) (v : value) :
  In v (map fst (totals frame)) <->
  exists r t, In r frame /\ date_heure r = Some t /\ v = inj (g t).
Proof.
  set (f := fun r => match date_heure r with Some t => Some (g t) | None => None end).
  assert (Hk : map key frame = map (fun r => match f r with Some a => inj a | None => VNull end) frame)
    by (apply map_ext; intros r; unfold key, f; destruct (date_heure r); reflexivity).
  set (K := kkeys eqb ltb (flat_map (fun b => match f b with Some a => [a] | None => [] end) frame)).
  assert (HK : group_keys (map key frame) = map inj K)
    by (rewrite Hk; apply (group_keys_opt inj eqb ltb inj_eqb inj_ltb inj_null)).
  destruct (keys_spec (flat_map (fun b => match f b with Some a => [a] | None => [] end) frame))
    as [_ Hin]. fold K in Hin.
  unfold totals. rewrite HK, !map_map. cbn [fst]. rewrite in_map_iff. split.
  - intros [a [<- Ha]]. apply Hin, in_flat_map in Ha as [r [Hr Ha]].
    unfold f in Ha. destruct (date_heure r) as [t |] eqn:Et; [| contradiction].
    destruct Ha as [<- | []]. exists r, t. auto.
  - intros [r [t [Hr [Et ->]]]]. exists (g t). split; [reflexivity |].
    apply Hin, in_flat_map. exists r. split; [exact Hr |]. unfold f. rewrite Et. now left.
Qed.

End EvoKeys.

Lemma evolution_shape (rs : list reading) (p : string) :
  exists l, calculate_evolution_temporelle rs p = evolution_from None l.
Proof.
  unfold calculate_evolution_temporelle. destruct rs as [| r0 rs0]; [exists []; reflexivity |].
  destruct (period_key p); [eexists; reflexivity | exists []; reflexivity].
Qed.

Lemma evolution_from_first (prev : option Q) (l : list (value * Q)) (r0 : evolution_row) rest :
  evolution_from prev l = r0 :: rest -> debit_precedent r0 = prev.
Proof. destruct l as [| [k s] t]; simpl; intros E; [discriminate | injection E as <- _; reflexivity]. Qed.

Lemma evolution_from_first_none (l : list (value * Q)) (r0 : evolution_row) rest :
  evolution_from None l = r0 :: rest ->
  debit_precedent r0 = None /\ variation_absolue r0 = None /\ taux_croissance_pct r0 = XNaN.
Proof. destruct l as [| [k s] t]; simpl; intros E; [discriminate | injection E as <- _; auto]. Qed.

Lemma evolution_from_pairs (prev : option Q) (l : list (value * Q)) pre a b post :
  evolution_from prev l = pre ++ a :: b :: post ->
  debit_precedent b = Some (ev_debit_total a) /\
  variation_absolue b = Some (ev_debit_total b - ev_debit_total a)%Q /\
  taux_croissance_pct b =
    xmap (fun q => round_dec (q * 100) 2) (xdiv (ev_debit_total b - ev_debit_total a) (ev_debit_total a)).
Proof.
  revert prev pre. induction l as [| [k s] t IH]; intros prev pre E; simpl in E.
  - destruct pre; discriminate.
  - destruct pre as [| x pre].
    + simpl in E. injection E as Ea Eb. subst a.
      destruct t as [| [k' s'] t']; simpl in Eb; [discriminate |].
      injection Eb as <- _. cbn [ev_debit_total debit_precedent variation_absolue taux_croissance_pct].
      auto.
    + simpl in E. injection E as _ E. exact (IH (Some s) pre E).
Qed.

Lemma last_default {X : Type} (l : list X) (d d' : X) : l <> [] -> last l d = last l d'.
Proof.
  induction l as [| x t IH]; intros H; [congruence |].
  destruct t as [| y t]; [reflexivity |]. apply IH. discriminate.
Qed.

Definition variations (rows : list evolution_row) : list Q :=
  flat_map (fun r => match variation_absolue r with Some v => [v] | None => [] end) rows.

Lemma evolution_from_tele (p : Q) (l : list (value * Q)) :
  (sumQ (variations (evolution_from (Some p) l)) == last (map snd l) p - p)%Q.
Proof.
  revert p. induction l as [| [k s] t IH]; intros p; [simpl; ring |].
  change (sumQ (variations (evolution_from (Some p) ((k, s) :: t))))
    with ((s - p) + sumQ (variations (evolution_from (Some s) t)))%Q.
  rewrite IH. simpl map.
  replace (last (s :: map snd t) p) with (last (map snd t) s).
  - ring.
  - destruct t as [| y t']; [reflexivity |]. simpl map. change (last (s :: snd y :: map snd t') p)
      with (last (snd y :: map snd t') p). apply last_default. discriminate.
Qed.

Lemma z_keys_spec (l : list Z) :
  NoDup (kkeys Z.eqb Z.ltb l) /\ (forall z, In z (kkeys Z.eqb Z.ltb l) <-> In z l).
Proof. destruct (kkeys_z_spec l) as [_ H]. exact H. Qed.

Lemma str_keys_spec (l : list string) :
  NoDup (kkeys String.eqb String.ltb l) /\ (forall z, In z (kkeys String.eqb String.ltb l) <-> In z l).
Proof. destruct (kkeys_str_spec l) as [_ H]. exact H. Qed.

Lemma evolution_totals_sum (rs : list reading) (p : string) :
  let rows := calculate_evolution_temporelle rs p in
  (period_key p = None -> rows = []) /\
  (period_key p <> None ->
     (sumQ (map ev_debit_total rows) == sumQ (flat_map count_of (dated_rows rs)))%Q /\
     NoDup (map periode rows)).
Proof.
  intros rows. unfold rows, calculate_evolution_temporelle.
  destruct rs as [| r0 rs0].
  { split; [reflexivity | intros _; split; [reflexivity | constructor]]. }
  split; [intros Hp; rewrite Hp; reflexivity |]. intros Hp.
  rewrite <- dated_count_dated.
  unfold period_key in *.
  destruct (String.eqb p "jour");
    [| destruct (String.eqb p "semaine");
       [| destruct (String.eqb p "mois"); [| congruence]]]; cbv beta iota zeta;
    match goal with |- context [evolution_from None ?l] =>
      destruct (evolution_from_totals None l) as [E1 E2]; rewrite E1, E2 end.
  - destruct (totals_sum VDate Z.eqb Z.ltb day_of_ts (fun _ _ => eq_refl) (fun _ _ => eq_refl)
                (fun _ => eq_refl) Z.eqb_eq (fun a b E => ltac:(congruence)) z_keys_spec
                (dated_rows (r0 :: rs0))) as [H1 H2].
    split; [exact H1 | exact H2].
  - destruct (totals_sum VStr String.eqb String.ltb (fun t => week_label (day_of_ts t))
                (fun _ _ => eq_refl) (fun _ _ => eq_refl) (fun _ => eq_refl) String.eqb_eq
                (fun a b E => ltac:(congruence)) str_keys_spec (dated_rows (r0 :: rs0))) as [H1 H2].
    split; [exact H1 | exact H2].
  - destruct (totals_sum VStr String.eqb String.ltb (fun t => month_label (day_of_ts t))
                (fun _ _ => eq_refl) (fun _ _ => eq_refl) (fun _ => eq_refl) String.eqb_eq
                (fun a b E => ltac:(congruence)) str_keys_spec (dated_rows (r0 :: rs0))) as [H1 H2].
    split; [exact H1 | exact H2].
Qed.

(** X15: for a supported [periode] ("jour", "semaine", "mois"),
    [calculate_evolution_temporelle] has one row per distinct period and its
    [debit_total] column adds up to the total count of the dated readings;
    for any other [periode] it returns no row. The periods of the rows are
    distinct and are exactly the periods [pk t] of the timestamps [t] of
    the dated readings. *)
Theorem evolution_temporelle_totals (rs : list reading) (p : string) :
  let rows := calculate_evolution_temporelle rs p in
  (period_key p = None -> rows = []) /\
  (period_key p <> None ->
     (sumQ (map ev_debit_total rows) == sumQ (flat_map count_of (dated_rows rs)))%Q /\
     NoDup (map periode rows)) /\
  (forall pk, period_key p = Some pk ->
     forall v, In v (map periode rows) <->
               exists r t, In r rs /\ date_heure r = Some t /\ v = pk t).
Proof.
  intros rows. destruct (evolution_totals_sum rs p) as [A B].
  split; [exact A | split; [exact B |]].
  intros pk Hpk v. unfold rows, calculate_evolution_temporelle.
  destruct rs as [| r0 rs0].
  { split; [intros [] | intros (r & t & [] & _)]. }
  rewrite Hpk.
  match goal with |- context [evolution_from None ?l] =>
    destruct (evolution_from_totals None l) as [_ E2]; rewrite E2 end.
  assert (Hd : forall r t, date_heure r = Some t ->
                 In r (dated_rows (r0 :: rs0)) <-> In r (r0 :: rs0)).
  { intros r t Et. unfold dated_rows. rewrite filter_In. unfold date_key. rewrite Et.
    simpl. tauto. }
  assert (Hx : forall (h : Z -> value),
     (exists r t, In r (dated_rows (r0 :: rs0)) /\ date_heure r = Some t /\ v = h t) <->
     (exists r t, In r (r0 :: rs0) /\ date_heure r = Some t /\ v = h t)).
  { intros h. split; intros (r & t & Hr & Et & Ev); exists r, t;
      (split; [apply (Hd r t Et); exact Hr | split; [exact Et | exact Ev]]). }
  unfold period_key in Hpk.
  destruct (String.eqb p "jour");
    [| destruct (String.eqb p "semaine");
       [| destruct (String.eqb p "mois"); [| discriminate]]];
    injection Hpk as <-.
  - refine (iff_trans (totals_keys VDate Z.eqb Z.ltb day_of_ts (fun _ _ => eq_refl)
              (fun _ _ => eq_refl) (fun _ => eq_refl) z_keys_spec (dated_rows (r0 :: rs0)) v) _).
    apply (Hx (fun t => VDate (day_of_ts t))).
  - refine (iff_trans (totals_keys VStr String.eqb String.ltb (fun t => week_label (day_of_ts t))
              (fun _ _ => eq_refl) (fun _ _ => eq_refl) (fun _ => eq_refl) str_keys_spec
              (dated_rows (r0 :: rs0)) v) _).
    apply (Hx (fun t => VStr (week_label (day_of_ts t)))).
  - refine (iff_trans (totals_keys VStr String.eqb String.ltb (fun t => month_label (day_of_ts t))
              (fun _ _ => eq_refl) (fun _ _ => eq_refl) (fun _ => eq_refl) str_keys_spec
              (dated_rows (r0 :: rs0)) v) _).
    apply (Hx (fun t => VStr (month_label (day_of_ts t)))).
Qed.


(** X16: in [calculate_evolution_temporelle], the first row has no previous
    total, variation or rate (NaN); each later row has the previous row's
    total as [debit_precedent], the difference of the two totals as
    [variation_absolue] and, when the previous total is not 0, the rounded
    percentage change as [taux_croissance_pct]; the variations add up to
    the last total minus the first one. *)
Theorem evolution_temporelle_chain (rs : list reading) (p : string) :
  let rows := calculate_evolution_temporelle rs p in
  (forall r0 rest, rows = r0 :: rest ->
     debit_precedent r0 = None /\ variation_absolue r0 = None /\ taux_croissance_pct r0 = XNaN) /\
  (forall pre a b post, rows = pre ++ a :: b :: post ->
     debit_precedent b = Some (ev_debit_total a) /\
     variation_absolue b = Some (ev_debit_total b - ev_debit_total a)%Q /\
     (~ (ev_debit_total a == 0)%Q ->
      taux_croissance_pct b =
        XFin (round_dec ((ev_debit_total b - ev_debit_total a) / ev_debit_total a * 100) 2))) /\
  (sumQ (variations rows) == last (map ev_debit_total rows) 0 - hd 0 (map ev_debit_total rows))%Q.
Proof.
  intros rows. destruct (evolution_shape rs p) as [l El]. unfold rows. rewrite El.
  split; [| split].
  - apply evolution_from_first_none.
  - intros pre a b post E. destruct (evolution_from_pairs None l pre a b post E) as [H1 [H2 H3]].
    split; [exact H1 | split; [exact H2 |]]. intros Hz. rewrite H3. unfold xdiv.
    destruct (Qeq_bool (ev_debit_total a) 0) eqn:Eq; [apply Qeq_bool_eq in Eq; contradiction |].
    reflexivity.
  - destruct l as [| [k s] t]; [simpl; reflexivity |].
    change (sumQ (variations (evolution_from None ((k, s) :: t))))
      with (sumQ (variations (evolution_from (Some s) t)))%Q.
    rewrite evolution_from_tele. destruct (evolution_from_totals None ((k, s) :: t)) as [E1 _].
    rewrite E1. simpl map. cbn [hd].
    replace (last (s :: map snd t) 0%Q) with (last (map snd t) s); [ring |].
    destruct t as [| y t']; [reflexivity |]. simpl map.
    change (last (s :: snd y :: map snd t') 0%Q) with (last (snd y :: map snd t') 0%Q).
    apply last_default. discriminate.
Qed.

Lemma length_filter_flat_map {B : Type} (p : B -> bool) (l : list B) :
  length (filter p l) = length (flat_map (fun b => if p b then [b] else []) l).
Proof. induction l as [| x t IH]; simpl; [reflexivity |]. destruct (p x); simpl; lia. Qed.

Lemma filter_filter_andb {B : Type} (p q : B -> bool) (l : list B) :
  filter q (filter p l) = filter (fun b => p b && q b) l.
Proof.
  induction l as [| x t IH]; simpl; [reflexivity |].
  destruct (p x); simpl; [destruct (q x); simpl |]; rewrite IH; reflexivity.
Qed.

(** Counting the rows of each key of a list of distinct keys. *)
Section CountSplit.
Context {A : Type} (eqb : A -> A -> bool).
Hypothesis eqb_eq : forall a b, eqb a b = true <-> a = b.

Lemma count_split {B : Type} (key : B -> A) (p : B -> bool) (frame : list B) (ks : list A) :
  NoDup ks -> (forall b, In b frame -> p b = true -> In (key b) ks) ->
  fold_right Z.add 0 (map (fun k => Z.of_nat (length (filter (fun b => p b && eqb (key b) k) frame))) ks) =
  Z.of_nat (length (filter p frame)).
Proof.
  intros Hnd Hcov.
  erewrite map_ext; [| intros k; rewrite length_filter_flat_map; reflexivity].
  rewrite (sum_lengths (fun k => flat_map (fun b => if p b && eqb (key b) k then [b] else []) frame)).
  f_equal. rewrite length_filter_flat_map.
  replace (flat_map (fun k => flat_map (fun b => if p b && eqb (key b) k then [b] else []) frame) ks)
    with (flat_map (fun k => flat_map (fun b => if eqb (key b) k then (if p b then [b] else []) else [])
                               frame) ks)
    by (apply flat_map_ext; intros k; apply flat_map_ext; intros b;
        destruct (p b), (eqb (key b) k); reflexivity).
  apply Permutation_length, (flat_map_keys_perm eqb eqb_eq).
  - exact Hnd.
  - intros b Hb Hw. apply Hcov; [exact Hb |]. destruct (p b); [reflexivity | congruence].
Qed.
End CountSplit.

Definition incident_dated (i : incident) : bool :=
  match updated_at i with Some _ => true | None => false end.

(** X17: [aggregate_traffic_incidents] raises [ValueError] when the frame has
    no [updated_at] column. Otherwise it has one row per day with a valid
    [updated_at], in increasing day order, with one count per severity
    column; each row's [nb_incidents_total] is the (positive) number of
    incidents of that day, and these totals add up to the number of
    incidents with a valid [updated_at]. *)
Theorem traffic_incidents_counts (cols : list string) (rs : list incident) :
  (~ In "updated_at" cols ->
     aggregate_traffic_incidents cols rs = Raise (ValueError_missing ["updated_at"])) /\
  (In "updated_at" cols -> exists pv, aggregate_traffic_incidents cols rs = Ok pv /\
     StronglySorted Z.lt (map inc_jour (pivot_rows pv)) /\
     (forall row, In row (pivot_rows pv) ->
        (length (incidents_par_gravite row) + 2 = length (pivot_cols pv))%nat /\
        nb_incidents_total row =
          Z.of_nat (length (filter (fun i => match updated_at i with
                                             | Some t => Z.eqb (day_of_ts t) (inc_jour row)
                                             | None => false end) rs)) /\
        0 < nb_incidents_total row) /\
     fold_right Z.add 0 (map nb_incidents_total (pivot_rows pv)) =
       Z.of_nat (length (filter incident_dated rs))).
Proof.
  assert (Hex : existsb (String.eqb "updated_at") cols = true <-> In "updated_at" cols).
  { rewrite existsb_exists. split.
    - intros [x [Hx E]]. apply String.eqb_eq in E. subst. exact Hx.
    - intros H. exists "updated_at". rewrite String.eqb_refl. auto. }
  unfold aggregate_traffic_incidents. split.
  - intros Hn. rewrite (proj1 (not_true_iff_false _) (fun E => Hn (proj1 Hex E))). reflexivity.
  - intros Hin. apply Hex in Hin. rewrite Hin. cbn [negb].
    set (hs := existsb (String.eqb "severity") cols).
    set (frame := filter (fun i => match updated_at i with Some _ => true | None => false end) rs).
    set (gs := kkeys String.eqb String.ltb (map (gravite hs) frame)).
    set (ds := kkeys Z.eqb Z.ltb (map incident_day_of frame)).
    assert (Hg : flat_map (fun k => match k with VStr g => [g] | _ => [] end)
                   (group_keys (map (fun i => VStr (gravite hs i)) frame)) = gs).
    { rewrite <- (map_map (gravite hs) VStr), group_keys_str.
      rewrite (flat_map_vstr (fun g => g)), map_id. reflexivity. }
    assert (Hd : group_keys (map (fun i => VDate (incident_day_of i)) frame) = map VDate ds).
    { rewrite <- (map_map incident_day_of VDate), group_keys_date. reflexivity. }
    rewrite Hg, Hd, map_map. cbv beta. cbn [date_num].
    eexists; split; [reflexivity |]. cbn [pivot_rows pivot_cols].
    destruct (kkeys_z_spec (map incident_day_of frame)) as [Hss [Hnd Hdin]]. fold ds in Hss, Hnd, Hdin.
    destruct (kkeys_str_spec (map (gravite hs) frame)) as [_ [Hgnd Hgin]]. fold gs in Hgnd, Hgin.
    (* the total of a day *)
    assert (Hday : forall d,
      fold_right Z.add 0 (map (fun g => Z.of_nat (length (filter (fun i => Z.eqb (incident_day_of i) d &&
                                                   String.eqb (gravite hs i) g) frame))) gs) =
      Z.of_nat (length (filter (fun i => Z.eqb (incident_day_of i) d) frame))).
    { intros d. apply (count_split String.eqb String.eqb_eq); [exact Hgnd |].
      intros b Hb _. apply Hgin, in_map, Hb. }
    assert (Hframe : forall d, filter (fun i => Z.eqb (incident_day_of i) d) frame =
      filter (fun i => match updated_at i with Some t => Z.eqb (day_of_ts t) d | None => false end) rs).
    { intros d. unfold frame. rewrite filter_filter_andb. apply filter_ext. intros i.
      unfold incident_day_of. destruct (updated_at i); reflexivity. }
    split; [| split].
    + rewrite map_map. cbn [inc_jour]. rewrite map_id.
      apply (ss_impl (fun a b => Z.ltb a b = true)); [intros a b H; apply Z.ltb_lt, H | exact Hss].
    + intros row Hrow. apply in_map_iff in Hrow as [d [<- Hdd]].
      cbn [incidents_par_gravite nb_incidents_total inc_jour].
      rewrite length_map. cbn [length]. rewrite length_app, length_map. cbn [length]. split; [lia |].
      rewrite Hday, Hframe. split; [reflexivity |].
      rewrite <- Hframe. apply Hdin, in_map_iff in Hdd as [i [Ei Hi]].
      assert (Hlt : (0 < length (filter (fun i => Z.eqb (incident_day_of i) d) frame))%nat).
      { destruct (filter (fun i => Z.eqb (incident_day_of i) d) frame) eqn:Ef; [| simpl; lia].
        exfalso. assert (Hf : In i (filter (fun i => Z.eqb (incident_day_of i) d) frame))
          by (apply filter_In; split; [exact Hi | apply Z.eqb_eq, Ei]).
        rewrite Ef in Hf. destruct Hf. }
      lia.
    + rewrite map_map. cbn [nb_incidents_total].
      erewrite map_ext; [| intros d; apply Hday].
      transitivity (Z.of_nat (length (filter (fun _ : incident => true) frame))).
      * apply (count_split Z.eqb Z.eqb_eq incident_day_of (fun _ => true) frame ds Hnd).
        intros b Hb _. apply Hdin, in_map, Hb.
      * assert (Ht : forall l : list incident, filter (fun _ => true) l = l)
          by (induction l as [| x t IH]; simpl; congruence).
        rewrite Ht. reflexivity.
Qed.

Lemma flat_map_perm_in {B C : Type} (f g : B -> list C) (l : list B) :
  (forall x, In x l -> Permutation (f x) (g x)) -> Permutation (flat_map f l) (flat_map g l).
Proof.
  induction l as [| x t IH]; intros H; simpl; [reflexivity |].
  apply Permutation_app; [apply H; now left | apply IH; intros; apply H; now right].
Qed.

Lemma flat_map_map' {B C D : Type} (g : C -> list D) (h : B -> C) (l : list B) :
  flat_map g (map h l) = flat_map (fun x => g (h x)) l.
Proof. induction l as [| x t IH]; simpl; [reflexivity | now rewrite IH]. Qed.

Lemma value_eqb_null (v : value) : value_eqb VNull v = false.
Proof. destruct v; reflexivity. Qed.

(** Regrouping the rows of a frame by an optional key. *)
Section Regroup.
Context {A : Type} (inj : A -> value) (eqb ltb : A -> A -> bool) (dflt : A).
Hypothesis inj_eqb : forall a b, value_eqb (inj a) (inj b) = eqb a b.
Hypothesis inj_ltb : forall a b, value_ltb (inj a) (inj b) = ltb a b.
Hypothesis inj_null : forall a, is_null (inj a) = false.
Hypothesis eqb_eq : forall a b, eqb a b = true <-> a = b.
Hypothesis keys_spec : forall l, NoDup (kkeys eqb ltb l) /\ (forall z, In z (kkeys eqb ltb l) <-> In z l).

Lemma regroup_perm {B C : Type} (f : B -> option A) (w : B -> list C) (F : list B) :
  Permutation
    (flat_map (fun k => flat_map (fun o => if value_eqb (match f o with Some a => inj a | None => VNull end) k
                                         then w o else []) F)
              (group_keys (map (fun o => match f o with Some a => inj a | None => VNull end) F)))
    (flat_map (fun o => match f o with Some _ => w o | None => [] end) F).
Proof.
  rewrite (group_keys_opt inj eqb ltb inj_eqb inj_ltb inj_null).
  set (K := kkeys eqb ltb (flat_map (fun b => match f b with Some a => [a] | None => [] end) F)).
  destruct (keys_spec (flat_map (fun b => match f b with Some a => [a] | None => [] end) F))
    as [Hnd Hin]. fold K in Hnd, Hin.
  set (key' := fun o => match f o with Some a => a | None => dflt end).
  set (w' := fun o => match f o with Some _ => w o | None => [] end).
  rewrite flat_map_map'.
  replace (flat_map (fun x => flat_map (fun o => if value_eqb (match f o with Some a => inj a | None => VNull end) (inj x)
                                                then w o else []) F) K)
    with (flat_map (fun x => flat_map (fun o => if eqb (key' o) x then w' o else []) F) K).
  - apply (flat_map_keys_perm eqb eqb_eq key' w' K F Hnd).
    intros b Hb Hw. unfold key'. unfold w' in Hw. destruct (f b) as [a |] eqn:Ef; [| congruence].
    apply Hin, in_flat_map. exists b. rewrite Ef. split; [exact Hb | now left].
  - apply flat_map_ext. intros x. apply flat_map_ext. intros o. unfold key', w'.
    destruct (f o) as [a |]; [rewrite inj_eqb; reflexivity |].
    rewrite value_eqb_null. destruct (eqb dflt x); reflexivity.
Qed.
End Regroup.

Lemma missing_cols_spec (required cols : list string) (c : string) :
  In c (missing_cols required cols) <-> In c required /\ ~ In c cols.
Proof.
  unfold missing_cols. rewrite filter_In, negb_true_iff, <- not_true_iff_false, existsb_exists.
  split; intros [H1 H2]; split; try exact H1; intros H3; apply H2.
  - exists c. rewrite String.eqb_refl. auto.
  - destruct H3 as [x [Hx E]]. apply String.eqb_eq in E. subst. exact Hx.
Qed.

Lemma missing_cols_nil (required cols : list string) :
  missing_cols required cols = [] <-> (forall c, In c required -> In c cols).
Proof.
  split.
  - intros H c Hc. destruct (in_dec String.string_dec c cols) as [Hin | Hn]; [exact Hin |].
    assert (Hm : In c (missing_cols required cols)) by (apply missing_cols_spec; auto).
    rewrite H in Hm. destruct Hm.
  - intros H. destruct (missing_cols required cols) as [| c m] eqn:E; [reflexivity |].
    exfalso. assert (Hm : In c (missing_cols required cols)) by (rewrite E; now left).
    apply missing_cols_spec in Hm as [Hr Hn]. apply Hn, H, Hr.
Qed.

Lemma sumQ_nested {B C : Type} (L : B -> C -> list Q) (D : B -> list C) (K : list B) :
  (sumQ (flat_map (fun k => map (fun x => sumQ (L k x)) (D k)) K) ==
   sumQ (flat_map (fun k => flat_map (L k) (D k)) K))%Q.
Proof.
  induction K as [| k t IH]; [reflexivity |]. simpl flat_map. rewrite !sumQ_app, IH.
  rewrite (sumQ_flat_map (L k)). reflexivity.
Qed.

Lemma zsum_app (a b : list Z) : fold_right Z.add 0 (a ++ b) = fold_right Z.add 0 a + fold_right Z.add 0 b.
Proof. induction a as [| x t IH]; simpl; [reflexivity |]. rewrite IH. lia. Qed.

Lemma length_nested {B C E : Type} (L : B -> C -> list E) (D : B -> list C) (K : list B) :
  fold_right Z.add 0 (flat_map (fun k => map (fun x => Z.of_nat (length (L k x))) (D k)) K) =
  Z.of_nat (length (flat_map (fun k => flat_map (L k) (D k)) K)).
Proof.
  induction K as [| k t IH]; [reflexivity |]. simpl flat_map.
  rewrite zsum_app, IH, length_app, (sum_lengths (L k)). lia.
Qed.

(** The count of a per-section row ([None] is NaN). *)
Definition tr_count (o : troncon_obs) : list Q :=
  match t_comptage_horaire o with Some c => [c] | None => [] end.

Definition tr_keyed (rs : list troncon_obs) : list troncon_obs :=
  filter (fun o => negb (is_null (site_key o)) && negb (is_null (t_date_key o))) rs.

Definition tr_L (keyed : list troncon_obs) (k dk : value) : list Q :=
  flat_map (fun o => if value_eqb (t_date_key o) dk then tr_count o else [])
           (filter (fun o => value_eqb (site_key o) k) keyed).

Definition tr_D (keyed : list troncon_obs) (k : value) : list value :=
  match k with
  | VStr _ => group_keys (map t_date_key (filter (fun o => value_eqb (site_key o) k) keyed))
  | _ => []
  end.

Lemma troncon_ok (cols : list string) (rs : list troncon_obs) :
  missing_cols ["site_id"; "date"; "comptage_horaire"] cols = [] ->
  aggregate_comptage_troncon cols rs =
  Ok (flat_map (fun k => map (fun dk => mkTronconRow (match k with VStr s => s | _ => "" end)
                                         (date_num dk) (sumQ (tr_L (tr_keyed rs) k dk))
                                         (Z.of_nat (length (tr_L (tr_keyed rs) k dk))))
                             (tr_D (tr_keyed rs) k))
               (group_keys (map site_key (tr_keyed rs)))).
Proof.
  intros H. unfold aggregate_comptage_troncon. rewrite H. f_equal.
  apply flat_map_ext. intros []; reflexivity.
Qed.

Lemma troncon_perm (rs : list troncon_obs) :
  Permutation (flat_map (fun k => flat_map (tr_L (tr_keyed rs) k) (tr_D (tr_keyed rs) k))
                        (group_keys (map site_key (tr_keyed rs))))
              (flat_map (fun o => match site_id o, t_date o with
                                  | Some _, Some _ => tr_count o
                                  | _, _ => []
                                  end) rs).
Proof.
  set (keyed := tr_keyed rs).
  set (dc := fun o => match t_date o with Some _ => tr_count o | None => [] end).
  assert (HK : group_keys (map site_key keyed) =
               map VStr (kkeys String.eqb String.ltb
                 (flat_map (fun b => match site_id b with Some a => [a] | None => [] end) keyed)))
    by apply group_keys_str_opt.
  transitivity (flat_map (fun k => flat_map (fun o => if value_eqb (site_key o) k then dc o else []) keyed)
                         (group_keys (map site_key keyed))).
  - apply flat_map_perm_in. intros k Hk. rewrite HK in Hk. apply in_map_iff in Hk as [s [<- _]].
    unfold tr_D, tr_L. rewrite <- flat_map_filter.
    exact (regroup_perm VDate Z.eqb Z.ltb 0 (fun _ _ => eq_refl) (fun _ _ => eq_refl) (fun _ => eq_refl)
             Z.eqb_eq z_keys_spec t_date tr_count (filter (fun o => value_eqb (site_key o) (VStr s)) keyed)).
  - etransitivity;
      [exact (regroup_perm VStr String.eqb String.ltb "" (fun _ _ => eq_refl) (fun _ _ => eq_refl)
                (fun _ => eq_refl) String.eqb_eq str_keys_spec site_id dc keyed) |].
    unfold keyed, tr_keyed. rewrite flat_map_filter. apply Permutation_refl'. apply flat_map_ext.
    intros o. unfold dc, site_key, t_date_key. destruct (site_id o), (t_date o); reflexivity.
Qed.

(** X18: [aggregate_comptage_troncon] raises [ValueError] exactly when one of
    [site_id], [date], [comptage_horaire] is not a column, and the error
    lists exactly the absent ones. Otherwise its [comptage_total] column adds
    up to the sum of the non-null counts of the rows whose [site_id] and
    [date] are not null, and its [heures_mesurees] column to their number. *)
Theorem comptage_troncon_totals (cols : list string) (rs : list troncon_obs) :
  let required := ["site_id"; "date"; "comptage_horaire"] in
  ((exists c, In c required /\ ~ In c cols) ->
     exists m, aggregate_comptage_troncon cols rs = Raise (ValueError_missing m) /\
       (forall c, In c m <-> In c required /\ ~ In c cols)) /\
  ((forall c, In c required -> In c cols) ->
     exists rows, aggregate_comptage_troncon cols rs = Ok rows /\
       (sumQ (map tr_comptage_total rows) ==
        sumQ (flat_map (fun o => match site_id o, t_date o, t_comptage_horaire o with
                                 | Some _, Some _, Some c => [c]
                                 | _, _, _ => []
                                 end) rs))%Q /\
       fold_right Z.add 0 (map heures_mesurees rows) =
       Z.of_nat (length (flat_map (fun o => match site_id o, t_date o, t_comptage_horaire o with
                                            | Some _, Some _, Some c => [c]
                                            | _, _, _ => []
                                            end) rs))).
Proof.
  intros required. unfold required. split.
  - intros [c [Hr Hn]]. exists (missing_cols ["site_id"; "date"; "comptage_horaire"] cols).
    split; [| apply missing_cols_spec].
    unfold aggregate_comptage_troncon.
    destruct (missing_cols ["site_id"; "date"; "comptage_horaire"] cols) as [| x m] eqn:E;
      [| reflexivity].
    exfalso. apply Hn. apply (proj1 (missing_cols_nil _ cols) E c Hr).
  - intros Hall. apply missing_cols_nil in Hall. eexists. split; [apply troncon_ok, Hall |].
    replace (flat_map (fun o => match site_id o, t_date o, t_comptage_horaire o with
                                | Some _, Some _, Some c => [c]
                                | _, _, _ => []
                                end) rs)
      with (flat_map (fun o => match site_id o, t_date o with
                               | Some _, Some _ => tr_count o
                               | _, _ => []
                               end) rs)
      by (apply flat_map_ext; intros o; unfold tr_count;
          destruct (site_id o), (t_date o), (t_comptage_horaire o); reflexivity).
    pose proof (troncon_perm rs) as Hp. rewrite !map_flat_map'. split.
    + erewrite flat_map_ext; [| intros k; rewrite map_map; cbn [tr_comptage_total]; reflexivity].
      rewrite sumQ_nested. apply sumQ_perm, Hp.
    + erewrite flat_map_ext; [| intros k; rewrite map_map; cbn [heures_mesurees]; reflexivity].
      rewrite length_nested. rewrite (Permutation_length Hp). reflexivity.
Qed.

Lemma sumQ_map_ext_in {C : Type} (f g : C -> Q) (l : list C) :
  (forall x, In x l -> f x == g x)%Q -> (sumQ (map f l) == sumQ (map g l))%Q.
Proof.
  induction l as [| x t IH]; intros H; simpl; [reflexivity |].
  rewrite (H x (or_introl eq_refl)), IH by (intros; apply H; now right). reflexivity.
Qed.

Lemma sumQ_vstr_only (F : value -> Q) (K : list value) :
  (forall k, In k K -> exists s, k = VStr s) ->
  (sumQ (flat_map (fun k => match k with VStr _ => [F k] | _ => [] end) K) == sumQ (map F K))%Q.
Proof.
  induction K as [| k t IH]; intros H; [reflexivity |].
  destruct (H k (or_introl eq_refl)) as [s ->].
  specialize (IH (fun k Hk => H k (or_intror Hk))).
  transitivity (F (VStr s) + sumQ (flat_map (fun k => match k with VStr _ => [F k] | _ => [] end) t))%Q;
    [reflexivity |].
  transitivity (F (VStr s) + sumQ (map F t))%Q; [| reflexivity].
  apply Qplus_inj_l. exact IH.
Qed.

Definition v_count (o : validation_obs) : list Q :=
  match v_nb_validations o with Some c => [c] | None => [] end.

Definition v_keyed (rs : list validation_obs) : list validation_obs :=
  filter (fun o => negb (is_null (v_date_key o)) && negb (is_null (ligne_key o))) rs.

Definition v_mine (keyed : list validation_obs) (dk : value) : list validation_obs :=
  filter (fun o => value_eqb (v_date_key o) dk) keyed.

Definition v_L (keyed : list validation_obs) (dk k : value) : list Q :=
  flat_map (fun o => if value_eqb (ligne_key o) k then v_count o else []) (v_mine keyed dk).

Lemma validations_ok (cols : list string) (rs : list validation_obs) :
  missing_cols ["date"; "code_ligne"; "nb_validations"] cols = [] ->
  exists rows, aggregate_validations cols rs = Ok rows /\
  map nb_validations rows =
  flat_map (fun dk => flat_map (fun k => match k with VStr _ => [sumQ (v_L (v_keyed rs) dk k)] | _ => [] end)
                               (group_keys (map ligne_key (v_mine (v_keyed rs) dk))))
           (group_keys (map v_date_key (v_keyed rs))).
Proof.
  intros H. unfold aggregate_validations. rewrite H. eexists. split; [reflexivity |].
  rewrite map_flat_map'. apply flat_map_ext. intros dk.
  rewrite map_flat_map'. apply flat_map_ext. intros []; reflexivity.
Qed.

(** X19: [aggregate_validations] raises [ValueError] exactly when one of
    [date], [code_ligne], [nb_validations] is not a column, and the error
    lists exactly the absent ones. Otherwise its [nb_validations] column
    adds up to the sum of the non-null [nb_validations] of the rows whose
    [date] and [code_ligne] are not null. *)
Theorem validations_totals (cols : list string) (rs : list validation_obs) :
  let required := ["date"; "code_ligne"; "nb_validations"] in
  ((exists c, In c required /\ ~ In c cols) ->
     exists m, aggregate_validations cols rs = Raise (ValueError_missing m) /\
       (forall c, In c m <-> In c required /\ ~ In c cols)) /\
  ((forall c, In c required -> In c cols) ->
     exists rows, aggregate_validations cols rs = Ok rows /\
       (sumQ (map nb_validations rows) ==
        sumQ (flat_map (fun o => match v_date o, code_ligne o, v_nb_validations o with
                                 | Some _, Some _, Some c => [c]
                                 | _, _, _ => []
                                 end) rs))%Q).
Proof.
  intros required. unfold required. split.
  - intros [c [Hr Hn]]. exists (missing_cols ["date"; "code_ligne"; "nb_validations"] cols).
    split; [| apply missing_cols_spec].
    unfold aggregate_validations.
    destruct (missing_cols ["date"; "code_ligne"; "nb_validations"] cols) as [| x m] eqn:E;
      [| reflexivity].
    exfalso. apply Hn. apply (proj1 (missing_cols_nil _ cols) E c Hr).
  - intros Hall. apply missing_cols_nil in Hall.
    destruct (validations_ok cols rs Hall) as [rows [Hok Hmap]].
    exists rows. split; [exact Hok |]. rewrite Hmap.
    set (keyed := v_keyed rs).
    set (lc := fun o => match code_ligne o with Some _ => v_count o | None => [] end).
    rewrite <- sumQ_flat_map.
    assert (Hin : forall dk,
      (sumQ (flat_map (fun k => match k with VStr _ => [sumQ (v_L keyed dk k)] | _ => [] end)
                      (group_keys (map ligne_key (v_mine keyed dk)))) ==
       sumQ (flat_map (fun o => if value_eqb (v_date_key o) dk then lc o else []) keyed))%Q).
    { intros dk.
      assert (HK : group_keys (map ligne_key (v_mine keyed dk)) =
                   map VStr (kkeys String.eqb String.ltb
                     (flat_map (fun b => match code_ligne b with Some a => [a] | None => [] end)
                               (v_mine keyed dk))))
        by apply group_keys_str_opt.
      rewrite sumQ_vstr_only
        by (intros k Hk; rewrite HK in Hk; apply in_map_iff in Hk as [s [<- _]]; eauto).
      rewrite sumQ_flat_map. apply sumQ_perm.
      unfold v_L. rewrite <- flat_map_filter.
      exact (regroup_perm VStr String.eqb String.ltb "" (fun _ _ => eq_refl) (fun _ _ => eq_refl)
               (fun _ => eq_refl) String.eqb_eq str_keys_spec code_ligne v_count (v_mine keyed dk)). }
    rewrite (sumQ_map_ext _ _ _ Hin), sumQ_flat_map. apply sumQ_perm.
    etransitivity;
      [exact (regroup_perm VDate Z.eqb Z.ltb 0 (fun _ _ => eq_refl) (fun _ _ => eq_refl)
                (fun _ => eq_refl) Z.eqb_eq z_keys_spec v_date lc keyed) |].
    unfold keyed, v_keyed. rewrite flat_map_filter. apply Permutation_refl'. apply flat_map_ext.
    intros o. unfold lc, v_count, v_date_key, ligne_key.
    destruct (v_date o), (code_ligne o), (v_nb_validations o); reflexivity.
Qed.

Lemma existsb_eqb_In (c : string) (cols : list string) :
  existsb (String.eqb c) cols = true <-> In c cols.
Proof.
  rewrite existsb_exists. split.
  - intros [x [Hx E]]. apply String.eqb_eq in E. subst. exact Hx.
  - intros H. exists c. rewrite String.eqb_refl. auto.
Qed.

Lemma existsb_eqb_notIn (c : string) (cols : list string) :
  existsb (String.eqb c) cols = false <-> ~ In c cols.
Proof. rewrite <- existsb_eqb_In, not_true_iff_false. reflexivity. Qed.

Lemma ss_filter {X : Type} (R : X -> X -> Prop) (p : X -> bool) (l : list X) :
  StronglySorted R l -> StronglySorted R (filter p l).
Proof.
  induction 1 as [| a t _ IH Hf]; simpl; [constructor |].
  destruct (p a); [| exact IH]. constructor; [exact IH |].
  rewrite Forall_forall in *. intros y Hy. apply filter_In in Hy as [Hy _]. apply Hf, Hy.
Qed.

(** The day of a weather row: from [datetime] when the frame has that
    column, else its [date] column. *)
Definition meteo_day (wcols : list string) (o : weather_obs) : option Z :=
  if existsb (String.eqb "datetime") wcols
  then match w_datetime o with Some t => Some (day_of_ts t) | None => None end
  else w_date o.

Lemma existsb_map' {X Y : Type} (p : Y -> bool) (f : X -> Y) (l : list X) :
  existsb p (map f l) = existsb (fun x => p (f x)) l.
Proof. induction l as [| x t IH]; simpl; [reflexivity | now rewrite IH]. Qed.

Lemma common_days (C W : list Z) :
  filter (fun d => existsb (value_eqb d) (map VDate W)) (map VDate C) =
  map VDate (filter (fun d => existsb (Z.eqb d) W) C).
Proof.
  induction C as [| c t IH]; simpl; [reflexivity |].
  rewrite existsb_map'. cbn [value_eqb].
  destruct (existsb (fun x => Z.eqb c x) W); simpl; rewrite IH; reflexivity.
Qed.

Lemma opt_list_In {B : Type} (f : B -> option Z) (l : list B) (d : Z) :
  In d (flat_map (fun b => match f b with Some a => [a] | None => [] end) l) <->
  exists b, In b l /\ f b = Some d.
Proof.
  rewrite in_flat_map. split.
  - intros [b [Hb Hd]]. exists b. split; [exact Hb |].
    destruct (f b); [destruct Hd as [<- | []]; reflexivity | destruct Hd].
  - intros [b [Hb Hd]]. exists b. rewrite Hd. split; [exact Hb | now left].
Qed.

Definition row_dates (rows : list crow) : list Z :=
  flat_map (fun row => match cget row "date" with Some (CDate d) => [d] | _ => [] end) rows.

Lemma row_dates_map {X : Type} (G : X -> crow) (h : value -> X) (l : list Z) :
  (forall d, cget (G (h (VDate d))) "date" = Some (CDate d)) -> row_dates (map G (map h (map VDate l))) = l.
Proof.
  intros H. induction l as [| d t IH]; [reflexivity |].
  change (row_dates (map G (map h (map VDate (d :: t))))) with
    ((match cget (G (h (VDate d))) "date" with Some (CDate d) => [d] | _ => [] end) ++
     row_dates (map G (map h (map VDate t)))).
  rewrite H, IH. reflexivity.
Qed.

(** X20: [correlate_meteo_velo] returns an empty frame when a frame is empty
    or the weather lacks [tempmax] or [precip]; with both of those but
    neither [datetime] nor [date] it raises [KeyError("date")]. Otherwise
    its rows are the days that have both a dated count and a weather row,
    in increasing order, each with the day's [total_velos]. *)
Theorem meteo_velo_rows (wcols : list string) (ws : list weather_obs) (rs : list reading) :
  ((ws = [] \/ rs = []) -> correlate_meteo_velo wcols ws rs = Ok (mkCFrame [] [])) /\
  (ws <> [] -> rs <> [] -> (~ In "tempmax" wcols \/ ~ In "precip" wcols) ->
     correlate_meteo_velo wcols ws rs = Ok (mkCFrame [] [])) /\
  (ws <> [] -> rs <> [] -> In "tempmax" wcols -> In "precip" wcols ->
     ~ In "datetime" wcols -> ~ In "date" wcols ->
     correlate_meteo_velo wcols ws rs = Raise (KeyError "date")) /\
  (ws <> [] -> rs <> [] -> In "tempmax" wcols -> In "precip" wcols ->
     (In "datetime" wcols \/ In "date" wcols) ->
     exists cf, correlate_meteo_velo wcols ws rs = Ok cf /\
       StronglySorted Z.lt (row_dates (crows cf)) /\
       (forall d, In d (row_dates (crows cf)) <->
          (exists r, In r rs /\ day_opt r = Some d) /\ (exists w, In w ws /\ meteo_day wcols w = Some d)) /\
       (forall row, In row (crows cf) -> exists d,
          cget row "date" = Some (CDate d) /\ cget row "total_velos" = Some (CInt (total_velos_on rs d)))).
Proof.
  unfold correlate_meteo_velo.
  split; [| split; [| split]].
  - intros [-> | ->]; [reflexivity | destruct ws; reflexivity].
  - intros Hw Hr Hc. destruct ws as [| w0 ws0]; [congruence |]. destruct rs as [| r0 rs0]; [congruence |].
    cbv zeta. destruct Hc as [Hc | Hc]; apply existsb_eqb_notIn in Hc; rewrite Hc;
      [reflexivity | rewrite andb_false_r; reflexivity].
  - intros Hw Hr Ht Hp Hdt Hd. destruct ws as [| w0 ws0]; [congruence |].
    destruct rs as [| r0 rs0]; [congruence |]. cbv zeta.
    apply existsb_eqb_In in Ht, Hp. apply existsb_eqb_notIn in Hdt, Hd. rewrite Ht, Hp, Hdt, Hd.
    reflexivity.
  - intros Hw Hr Ht Hp Hdd. destruct ws as [| w0 ws0]; [congruence |].
    destruct rs as [| r0 rs0]; [congruence |]. cbv zeta.
    apply existsb_eqb_In in Ht, Hp. rewrite Ht, Hp. cbn [andb].
    assert (Hor : existsb (String.eqb "datetime") wcols || existsb (String.eqb "date") wcols = true).
    { destruct Hdd as [H | H]; apply existsb_eqb_In in H; rewrite H; [reflexivity | apply orb_true_r]. }
    rewrite Hor. cbn [negb].
    set (ws := w0 :: ws0). set (rs := r0 :: rs0).
    set (C := kkeys Z.eqb Z.ltb (flat_map (fun b => match day_opt b with Some a => [a] | None => [] end) rs)).
    set (W := kkeys Z.eqb Z.ltb (flat_map (fun b => match meteo_day wcols b with Some a => [a] | None => [] end) ws)).
    assert (HC : group_keys (map date_key rs) = map VDate C).
    { rewrite (map_ext date_key (fun r => match day_opt r with Some a => VDate a | None => VNull end))
        by exact date_key_opt.
      apply group_keys_date_opt. }
    assert (HW : group_keys (map (fun o => if existsb (String.eqb "datetime") wcols
                                           then match w_datetime o with Some t => VDate (day_of_ts t) | None => VNull end
                                           else match w_date o with Some d => VDate d | None => VNull end) ws)
                 = map VDate W).
    { rewrite (map_ext _ (fun o => match meteo_day wcols o with Some a => VDate a | None => VNull end)).
      - apply group_keys_date_opt.
      - intros o. unfold meteo_day. destruct (existsb (String.eqb "datetime") wcols);
          [destruct (w_datetime o) |]; reflexivity. }
    rewrite HC, HW, common_days.
    set (common := filter (fun d => existsb (Z.eqb d) W) C).
    destruct (kkeys_z_spec (flat_map (fun b => match day_opt b with Some a => [a] | None => [] end) rs))
      as [Css [_ Cin]]. fold C in Css, Cin.
    destruct (kkeys_z_spec (flat_map (fun b => match meteo_day wcols b with Some a => [a] | None => [] end) ws))
      as [_ [_ Win]]. fold W in Win.
    assert (Hcom : forall d, In d common <->
      (exists r, In r rs /\ day_opt r = Some d) /\ (exists w, In w ws /\ meteo_day wcols w = Some d)).
    { intros d. unfold common. rewrite filter_In, existsb_exists, Cin, opt_list_In.
      split; intros [H1 H2]; split; try exact H1.
      - destruct H2 as [x [Hx E]]. apply Z.eqb_eq in E. subst x. apply Win, opt_list_In in Hx. exact Hx.
      - exists d. rewrite Z.eqb_refl. split; [apply Win, opt_list_In, H2 | reflexivity]. }
    assert (Hss : StronglySorted Z.lt common).
    { apply (ss_impl (fun a b => Z.ltb a b = true)); [intros a b H; apply Z.ltb_lt, H |].
      apply ss_filter, Css. }
    clearbody common. destruct common as [| c0 cs].
    + exists (mkCFrame meteo_cols []). split; [reflexivity |]. cbn [crows row_dates flat_map].
      split; [constructor | split; [| intros row []]].
      intros d. rewrite <- Hcom. simpl. tauto.
    + eexists; split; [reflexivity |]. cbn [crows].
      match goal with |- context [row_dates (map ?G (map ?RO (map VDate (c0 :: cs))))] =>
        assert (Hdate : forall d, cget (G (RO (VDate d))) "date" = Some (CDate d)) by (intros; reflexivity);
        assert (Htv : forall d, cget (G (RO (VDate d))) "total_velos" = Some (CInt (total_velos_on rs d)))
          by (intros; reflexivity);
        match goal with |- context [row_dates ?X] =>
          replace (row_dates X) with (c0 :: cs) by (symmetry; apply row_dates_map; exact Hdate)
        end
      end.
      split; [exact Hss | split; [exact Hcom |]].
      intros row Hrow. apply in_map_iff in Hrow as [x [<- Hx]]. apply in_map_iff in Hx as [v [<- Hv]].
      apply in_map_iff in Hv as [d [<- _]].
      exists d. split; [apply Hdate | apply Htv].
Qed.

Lemma fold_Zmax_spec (ts : list Z) (t : Z) :
  In (fold_left Z.max ts t) (t :: ts) /\ (forall y, In y (t :: ts) -> y <= fold_left Z.max ts t).
Proof.
  revert t. induction ts as [| x ts IH]; intros t; simpl.
  - split; [now left | intros y [-> | []]; lia].
  - destruct (IH (Z.max t x)) as [H1 H2]. split.
    + destruct H1 as [E | E]; [| right; right; exact E].
      rewrite <- E. destruct (Z.max_spec t x) as [[_ ->] | [_ ->]]; [right; now left | now left].
    + specialize (H2 (Z.max t x) (or_introl eq_refl)) as Hm.
      intros y [E | [E | Hy]]; [subst y; lia | subst y; lia |].
      apply H2. now right.
Qed.

Lemma last_seen_spec (id : string) (ds : list (string * Z)) (t0 : Z) :
  In (id, t0) ds ->
  In (id, last_seen id ds) ds /\ (forall t', In (id, t') ds -> t' <= last_seen id ds).
Proof.
  intros H0.
  assert (Hin : forall x, In x (map snd (filter (fun e => String.eqb (fst e) id) ds)) <-> In (id, x) ds).
  { intros x. rewrite in_map_iff. split.
    - intros [[i y] [<- Hy]]. apply filter_In in Hy as [Hy E]. apply String.eqb_eq in E.
      simpl in E. subst. exact Hy.
    - intros Hx. exists (id, x). split; [reflexivity |]. apply filter_In. split; [exact Hx |].
      apply String.eqb_refl. }
  unfold last_seen. destruct (map snd (filter (fun e => String.eqb (fst e) id) ds)) as [| t ts] eqn:E.
  - exfalso. apply Hin in H0. destruct H0.
  - destruct (fold_Zmax_spec ts t) as [H1 H2]. split.
    + apply Hin, H1.
    + intros t' Ht'. apply H2, Hin, Ht'.
Qed.

Lemma NoDup_map_filter {X Y : Type} (g : X -> Y) (p : X -> bool) (l : list X) :
  NoDup (map g l) -> NoDup (map g (filter p l)).
Proof.
  induction l as [| x t IH]; intros H; simpl; [constructor |]. simpl in H.
  inversion H as [| ? ? Hx Ht]; subst. destruct (p x); [simpl; constructor |]; try exact (IH Ht).
  intros Hm. apply Hx. apply in_map_iff in Hm as [y [E Hy]]. apply filter_In in Hy as [Hy _].
  rewrite <- E. apply in_map, Hy.
Qed.

(** X21: each counter reported by [detect_compteurs_defaillants] appears
    once; it has a dated reading, its [derniere_mesure] is its latest
    timestamp, and its rounded [heures_sans_donnees] since then exceeds
    [seuil_heures]. Every counter with a dated reading whose rounded gap
    exceeds [seuil_heures] is reported. *)
Theorem defaillants_rows (clk : clock) (tz_aware : bool) (rs : list reading) (seuil_heures : Z) :
  let ds := dated rs in
  let now := if tz_aware then now_utc clk else now_local clk in
  let res := detect_compteurs_defaillants clk tz_aware rs seuil_heures in
  (forall r, In r (frows res) -> exists id t,
     get r "compteur_id" = VStr id /\ get r "derniere_mesure" = VTime t /\
     In (id, t) ds /\ (forall t', In (id, t') ds -> t' <= t) /\
     heures_sans_donnees r = round_dec (inject_Z (now - t) / 3600) 1 /\
     (inject_Z seuil_heures < heures_sans_donnees r)%Q) /\
  (forall id t, In (id, t) ds ->
     (inject_Z seuil_heures < round_dec (inject_Z (now - last_seen id ds) / 3600) 1)%Q ->
     exists r, In r (frows res) /\ get r "compteur_id" = VStr id) /\
  NoDup (map (fun r => get r "compteur_id") (frows res)).
Proof.
  intros ds now res. unfold res, detect_compteurs_defaillants.
  destruct rs as [| r0 rs0].
  { cbn [frows empty_frame]. split; [intros r [] | split; [| constructor]].
    intros id t H. destruct H. }
  fold ds. fold now.
  set (K := kkeys String.eqb String.ltb (map fst ds)).
  assert (HK : group_keys (map (fun e => VStr (fst e)) ds) = map VStr K).
  { rewrite <- (map_map fst VStr). apply group_keys_str. }
  destruct (kkeys_str_spec (map fst ds)) as [_ [Knd Kin]]. fold K in Knd, Kin.
  rewrite HK. cbn [frows].
  set (F := fun k => match k with
                     | VStr id =>
                         [("compteur_id", VStr id); ("derniere_mesure", VTime (last_seen id ds));
                          ("heures_sans_donnees",
                           VNum (round_dec (inject_Z (now - last_seen id ds) / 3600) 1))]
                     | _ => []
                     end).
  set (P := fun r => Qltb (inject_Z seuil_heures) (heures_sans_donnees r)).
  set (st := ("status", VStr "Défaillant")).
  change (map F (map VStr K)) with (map F (map VStr K)).
  assert (Hid : forall id, In id K -> exists t, In (id, t) ds).
  { intros id Hk. apply Kin, in_map_iff in Hk as [[i t] [E Ht]]. simpl in E. subst. exists t. exact Ht. }
  split; [| split].
  - intros r Hr. apply in_map_iff in Hr as [x [<- Hx]]. apply filter_In in Hx as [Hx HP].
    apply in_map_iff in Hx as [k [<- Hk]]. apply in_map_iff in Hk as [id [<- Hk]].
    destruct (Hid id Hk) as [t0 Ht0]. destruct (last_seen_spec id ds t0 Ht0) as [H1 H2].
    exists id, (last_seen id ds). split; [reflexivity | split; [reflexivity |]].
    split; [exact H1 | split; [exact H2 | split; [reflexivity |]]].
    unfold P in HP. apply Qltb_lt in HP. exact HP.
  - intros id t Ht Hgt. exists (F (VStr id) ++ [st]). split; [| reflexivity].
    apply (in_map (fun r => r ++ [st])), filter_In. split.
    + apply (in_map F), (in_map VStr), Kin, in_map_iff. exists (id, t). split; [reflexivity | exact Ht].
    + unfold P. apply Qltb_true. exact Hgt.
  - rewrite map_map. apply NoDup_map_filter.
    rewrite map_map. replace (map (fun x => get (F x ++ [st]) "compteur_id") (map VStr K)) with (map VStr K).
    + apply NoDup_map_inj; [intros a b E; congruence | exact Knd].
    + rewrite map_map. apply map_ext. intros id. reflexivity.
Qed.

(* ------------------------------------------------------------------ *)
(** ** Instances of the hypotheses above *)

(** Three hourly readings of two counters: two on day 0 (hours 1 and 2),
    one on day 1 (hour 1). *)
Definition sample_readings : list reading :=
  [mkReading "A" (Some 3600) (Some 10) None None;
   mkReading "A" (Some 7200) (Some 30) None None;
   mkReading "B" (Some 90000) (Some 5) None None].

Lemma sample_readings_nonneg :
  forall r c, In r sample_readings -> comptage_horaire r = Some c -> 0 <= c.
Proof.
  intros r c Hr Hc.
  repeat (destruct Hr as [<- | Hr]; [cbn in Hc; injection Hc as <-; lia |]).
  destruct Hr.
Qed.

Lemma debit_horaire_stats_witness :
  exists r, In r (calculate_debit_horaire sample_readings) /\
    0 < nb_mesures r /\
    exists mn md m mx, debit_horaire_min r = Some mn /\ debit_horaire_median r = Some md /\
      debit_horaire_moyen r = Some m /\ debit_horaire_max r = Some mx /\
      (mn <= md <= mx)%Q /\ (mn <= m <= mx)%Q /\
      (debit_total r == m * inject_Z (nb_mesures r))%Q.
Proof.
  pose proof (debit_horaire_stats sample_readings) as T.
  destruct (calculate_debit_horaire sample_readings) as [| r0 l] eqn:E.
  - vm_compute in E. discriminate.
  - exists r0. split; [left; reflexivity |].
    destruct (T r0 (or_introl eq_refl)) as [[H0 _] | H]; [| exact H].
    exfalso. vm_compute in E. injection E as <- _. vm_compute in H0. discriminate.
Defined.

Lemma comptage_velo_rows_witness :
  exists c, In c (aggregate_comptage_velo sample_readings) /\
    exists r, In r sample_readings /\ compteur_id r = cj_compteur_id c /\ day_opt r = Some (cj_jour c).
Proof.
  pose proof (comptage_velo_rows sample_readings) as T.
  destruct (aggregate_comptage_velo sample_readings) as [| c0 l] eqn:E.
  - vm_compute in E. discriminate.
  - exists c0. split; [left; reflexivity |].
    exact (proj1 (T c0 (or_introl eq_refl))).
Defined.

Lemma taux_disponibilite_rate_witness :
  exists t, In t (calculate_taux_disponibilite sample_readings 1) /\
    exists q, taux_disponibilite_pct t = XFin q /\ (0 <= q <= 100)%Q.
Proof.
  pose proof (taux_disponibilite_rate sample_readings 1) as T.
  destruct (calculate_taux_disponibilite sample_readings 1) as [| t0 l] eqn:E.
  - vm_compute in E. discriminate.
  - exists t0. split; [left; reflexivity |].
    destruct (T t0 (or_introl eq_refl)) as (_ & _ & _ & H).
    apply H; [lia |].
    vm_compute in E. injection E as <- _. vm_compute. discriminate.
Defined.

Lemma ratio_weekend_semaine_row_witness :
  exists row, calculate_ratio_weekend_semaine sample_readings = [row] /\
    debit_weekend row + debit_semaine row = count_sum (dated_rows sample_readings) /\
    (0 <= ratio_weekend_semaine row)%Q /\ (-100 <= difference_pct row)%Q.
Proof.
  destruct (ratio_weekend_semaine_row sample_readings) as (row & H1 & H2 & _ & H4);
    [discriminate |].
  exists row. split; [exact H1 | split; [exact H2 |]].
  apply H4. exact sample_readings_nonneg.
Defined.

Lemma heures_pointe_not_all_witness :
  (length (calculate_heures_pointe sample_readings 100) <
   length (flat_map (fun e => match snd e with Some m => [m] | None => [] end)
             (debit_horaire_par_heure sample_readings)))%nat.
Proof.
  apply heures_pointe_not_all.
  - exact sample_readings_nonneg.
  - apply Qle_refl.
  - vm_compute. discriminate.
Defined.

Lemma faible_activite_at_most_half_witness :
  (2 * length (calculate_compteurs_faible_activite sample_readings 100) <=
   length (calculate_dmja sample_readings))%nat.
Proof.
  apply faible_activite_at_most_half.
  - exact sample_readings_nonneg.
  - apply Qle_refl.
Defined.

Lemma congestion_rows_witness :
  let res := detect_congestion_cyclable sample_readings 120 5 in
  length res = Nat.min (Z.to_nat 5) (length (congestions sample_readings 120)) /\
  (forall x, In x res -> In x (congestions sample_readings 120)).
Proof.
  destruct (congestion_rows sample_readings 120 5) as (H1 & H2 & _);
    [intros r Hr c; exact (sample_readings_nonneg r c Hr) |].
  split; [exact H1 | exact H2].
Defined.
